(** * figma-to-code: the generation pipeline, embedded and verified

    A shallow embedding of the modular code generator of the repository
    (src/utils, src/analyzers, src/transformers, src/templates,
    src/generators/CodeGenerator.js) together with the properties its
    specification states about it.

    Conventions of the embedding.
    - A JavaScript string is the list of its UTF-16 code units ([jsstring]).
    - A JavaScript number is an IEEE 754 binary64 value ([float]).
    - An absent property ([undefined]) is [None].
    - A [Map] is the list of its entries in insertion order; a [Set] is the
      list of its members.
    - A function that may throw returns a [result].
    - What the language runtime supplies and the repository does not (Unicode
      lower-casing, printing and rounding of numbers) is the class [Runtime]. *)

From Stdlib Require Import List NArith ZArith Bool Lia Floats Strings.Byte.
Import ListNotations.

Set Implicit Arguments.

(* ================================================================== *)
(** ** The JavaScript values the generator works on *)
(* ================================================================== *)

Module JS.

(** A string: its UTF-16 code units. *)
Definition jsstring := list N.

Inductive jslit := jnil | jcons (c : N) (l : jslit).

(** String literals: ASCII text is read as its code units; a literal with a
    byte outside ASCII is refused (such text is written as code units). *)
Fixpoint lit_of_bytes (l : list Byte.byte) : option jslit :=
  match l with
  | [] => Some jnil
  | b :: l' =>
      if (Byte.to_N b <? 128)%N
      then match lit_of_bytes l' with
           | Some r => Some (jcons (Byte.to_N b) r)
           | None => None
           end
      else None
  end.

Fixpoint bytes_of_lit (l : jslit) : option (list Byte.byte) :=
  match l with
  | jnil => Some []
  | jcons c l' =>
      match Byte.of_N c, bytes_of_lit l' with
      | Some b, Some bs => if (c <? 128)%N then Some (b :: bs) else None
      | _, _ => None
      end
  end.

Declare Scope js_scope.
Delimit Scope js_scope with js.
#[warnings="-via-type-mismatch,-via-type-remapping"]
String Notation jsstring lit_of_bytes bytes_of_lit
  (via jslit mapping [[nil] => jnil, [cons] => jcons]) : js_scope.

Local Open Scope N_scope.
Local Open Scope list_scope.
Local Open Scope js_scope.

Fixpoint str_eqb (a b : jsstring) : bool :=
  match a, b with
  | [], [] => true
  | x :: a', y :: b' => (x =? y) && str_eqb a' b'
  | _, _ => false
  end.

Definition inRange (lo hi c : N) : bool := (lo <=? c) && (c <=? hi).
Definition isLower (c : N) : bool := inRange 97 122 c.
Definition isUpper (c : N) : bool := inRange 65 90 c.
Definition isDigit (c : N) : bool := inRange 48 57 c.
Definition isAlnum (c : N) : bool := isLower c || isUpper c || isDigit c.

(** ECMAScript LineTerminator; the regular expression [.] matches every code
    unit but these. *)
Definition isLineTerminator (c : N) : bool :=
  (c =? 10) || (c =? 13) || (c =? 0x2028) || (c =? 0x2029).

(** The regular expression class [\s], also what [trim] strips: WhiteSpace
    and LineTerminator. *)
Definition isWhiteSpace (c : N) : bool :=
  inRange 9 13 c || (c =? 32) || (c =? 0xA0) || (c =? 0x1680)
  || inRange 0x2000 0x200A c || (c =? 0x2028) || (c =? 0x2029)
  || (c =? 0x202F) || (c =? 0x205F) || (c =? 0x3000) || (c =? 0xFEFF).

(** [toUpperCase] and [toLowerCase] of one Basic Latin code unit. *)
Definition upperUnit (c : N) : N := if isLower c then c - 32 else c.
Definition lowerUnit (c : N) : N := if isUpper c then c + 32 else c.

Fixpoint dropWhile (p : N -> bool) (s : jsstring) : jsstring :=
  match s with
  | [] => []
  | c :: s' => if p c then dropWhile p s' else s
  end.

(** [String.prototype.trim]. *)
Definition trim (s : jsstring) : jsstring :=
  rev (dropWhile isWhiteSpace (rev (dropWhile isWhiteSpace s))).

Fixpoint startsWith (s p : jsstring) : bool :=
  match p, s with
  | [], _ => true
  | x :: p', y :: s' => (x =? y) && startsWith s' p'
  | _ :: _, [] => false
  end.

(** [String.prototype.includes]. *)
Fixpoint includes (s p : jsstring) : bool :=
  startsWith s p ||
  match s with
  | [] => false
  | _ :: s' => includes s' p
  end.

(** [Array.prototype.join]. *)
Fixpoint join (sep : jsstring) (l : list jsstring) : jsstring :=
  match l with
  | [] => []
  | [x] => x
  | x :: l' => x ++ sep ++ join sep l'
  end.

(** [String.prototype.split] on a one-unit separator. *)
Fixpoint split_aux (sep : N) (s cur : jsstring) : list jsstring :=
  match s with
  | [] => [rev cur]
  | c :: s' => if c =? sep then rev cur :: split_aux sep s' [] else split_aux sep s' (c :: cur)
  end.
Definition split (sep : N) (s : jsstring) : list jsstring := split_aux sep s [].

(** [String.prototype.repeat]. *)
Fixpoint repeat_str (s : jsstring) (n : nat) : jsstring :=
  match n with
  | O => []
  | S n' => s ++ repeat_str s n'
  end.

(** [Array.prototype.includes] on strings, [Set.prototype.has]. *)
Definition mem (x : jsstring) (l : list jsstring) : bool := existsb (str_eqb x) l.

(** The decimal digits of a natural number (a counter below 2^53 prints so). *)
Fixpoint decimal_aux (fuel : nat) (n : N) (acc : jsstring) : jsstring :=
  match fuel with
  | O => acc
  | S f =>
      let d := 48 + n mod 10 in
      if n <? 10 then d :: acc else decimal_aux f (n / 10) (d :: acc)
  end.
Definition decimal (n : N) : jsstring := decimal_aux (S (N.to_nat (N.log2 n))) n [].

(** The double quote, which no literal of this file contains. *)
Definition dquote : jsstring := [34].

(** What the runtime supplies: [String.prototype.toLowerCase] (Unicode case
    tables), the printing of a number in a template literal, and
    [Math.round]. *)
Class Runtime := {
  String_toLowerCase : jsstring -> jsstring;
  Number_toString : float -> jsstring;
  Math_round : float -> float
}.

(** Truthiness. *)
Definition truthy_str (s : option jsstring) : bool :=
  match s with
  | Some (_ :: _) => true
  | _ => false
  end.
Definition truthy_num (x : option float) : bool :=
  match x with
  | Some f => (PrimFloat.ltb f 0 || PrimFloat.ltb 0 f)%bool
  | None => false
  end.

(** [s || d] on an optional string. *)
Definition str_or (s : option jsstring) (d : jsstring) : jsstring :=
  match s with
  | Some (c :: r) => c :: r
  | _ => d
  end.

(** A thrown error. *)
Inductive error := TypeError (message : jsstring).

Inductive result (A : Type) :=
| Ok (value : A)
| Throw (e : error).
Arguments Throw {A} e.

Definition bind {A B} (r : result A) (k : A -> result B) : result B :=
  match r with
  | Ok a => k a
  | Throw e => Throw e
  end.

(** [Array.prototype.map] with a callback that may throw. *)
Fixpoint mapM {A B} (f : A -> result B) (l : list A) : result (list B) :=
  match l with
  | [] => Ok []
  | x :: l' => bind (f x) (fun y => bind (mapM f l') (fun ys => Ok (y :: ys)))
  end.

(** A [Map] keyed by node identifiers, in insertion order. The identifier of
    a node may be absent, and [undefined] is a key like another. *)
Definition key := option jsstring.
Definition key_eqb (a b : key) : bool :=
  match a, b with
  | None, None => true
  | Some x, Some y => str_eqb x y
  | _, _ => false
  end.

Definition jsmap (V : Type) := list (key * V).

Fixpoint map_get {V} (m : jsmap V) (k : key) : option V :=
  match m with
  | [] => None
  | (k', v) :: m' => if key_eqb k' k then Some v else map_get m' k
  end.

Definition map_has {V} (m : jsmap V) (k : key) : bool :=
  match map_get m k with Some _ => true | None => false end.

(** [Map.prototype.set]: an existing key keeps its place. *)
Fixpoint map_set {V} (m : jsmap V) (k : key) (v : V) : jsmap V :=
  match m with
  | [] => [(k, v)]
  | (k', v') :: m' => if key_eqb k' k then (k', v) :: m' else (k', v') :: map_set m' k v
  end.

(** [Map.prototype.delete]. *)
Definition map_delete {V} (m : jsmap V) (k : key) : jsmap V :=
  filter (fun entry => negb (key_eqb (fst entry) k)) m.

End JS.

Import JS.
Local Open Scope N_scope.
Local Open Scope list_scope.
Local Open Scope js_scope.

Notation "x <- c1 ;; c2" := (bind c1 (fun x => c2))
  (at level 100, c1 at next level, right associativity).

(* ================================================================== *)
(** ** utils/nameUtils.js *)
(* ================================================================== *)

Module NameUtils.

(** [/[^a-zA-Z0-9\s-]+/g]: the code units the cleaning step keeps. *)
Definition isNameUnit (c : N) : bool := isAlnum c || isWhiteSpace c || (c =? 45).

(** [/[\s-]/]. *)
Definition isSeparator (c : N) : bool := isWhiteSpace c || (c =? 45).

Fixpoint span (p : N -> bool) (s : jsstring) : jsstring * jsstring :=
  match s with
  | [] => ([], [])
  | c :: s' => if p c then let '(a, b) := span p s' in (c :: a, b) else ([], s)
  end.

(** The longest way to split a run of separators, already matched, into a
    shorter non-empty run and one unit that [.] accepts: what the regular
    expression engine finds by backtracking when no unit follows the run.
    Returns the captured unit and what is left of the run after it. *)
Fixpoint backtrackRun (run : jsstring) : option (N * jsstring) :=
  match run with
  | [] => None
  | c :: run' =>
      match backtrackRun run' with
      | Some r => Some r
      | None => if negb (isLineTerminator c) then Some (c, run') else None
      end
  end.

(** One attempt of [/[\s-]+(.)/] at the start of [s]: the captured unit and
    the text after the match. *)
Definition matchSeparatorThenUnit (s : jsstring) : option (N * jsstring) :=
  match span isSeparator s with
  | ([], _) => None
  | (_ :: run', rest) =>
      match rest with
      | c :: rest' =>
          if negb (isLineTerminator c) then Some (c, rest')
          else match backtrackRun run' with
               | Some (u, after) => Some (u, after ++ rest)
               | None => None
               end
      | [] =>
          match backtrackRun run' with
          | Some (u, after) => Some (u, after)
          | None => None
          end
      end
  end.

(** [.replace(/[\s-]+(.)/g, (_, chr) => chr.toUpperCase())]. The replaced
    unit comes from a cleaned string, where [toUpperCase] is [upperUnit]. *)
Fixpoint replaceSeparators (fuel : nat) (s : jsstring) : jsstring :=
  match fuel with
  | O => s
  | S fuel' =>
      match s with
      | [] => []
      | c :: s' =>
          match matchSeparatorThenUnit s with
          | Some (u, rest) => upperUnit u :: replaceSeparators fuel' rest
          | None => c :: replaceSeparators fuel' s'
          end
      end
  end.

Definition clean (str : jsstring) : jsstring := trim (filter isNameUnit str).

Definition toPascalCase (str : jsstring) : jsstring :=
  match str with
  | [] => "Component"
  | _ =>
      let cleaned := clean str in
      match cleaned with
      | [] => "Component"
      | _ =>
          let s1 := replaceSeparators (length cleaned) cleaned in
          let s2 := match s1 with
                    | c :: r => if isLower c then upperUnit c :: r else s1
                    | [] => s1
                    end in
          match s2 with
          | c :: r => if isDigit c then "N" ++ s2 else s2
          | [] => s2
          end
      end
  end.

(** [.replace(/([a-z])([A-Z])/g, '$1-$2')]. *)
Fixpoint hyphenateCamel (s : jsstring) : jsstring :=
  match s with
  | [] => []
  | a :: s' =>
      match s' with
      | b :: rest =>
          if isLower a && isUpper b then a :: 45 :: b :: hyphenateCamel rest
          else a :: hyphenateCamel s'
      | [] => [a]
      end
  end.

(** [.replace(/C+/g, '-')] for a class [C] of code units: every maximal run
    of units of the class becomes one hyphen. *)
Fixpoint replaceRuns (p : N -> bool) (inRun : bool) (s : jsstring) : jsstring :=
  match s with
  | [] => []
  | c :: s' =>
      if p c then (if inRun then replaceRuns p true s' else 45 :: replaceRuns p true s')
      else c :: replaceRuns p false s'
  end.

Definition isHyphen (c : N) : bool := c =? 45.

(** [.replace(/^-+|-+$/g, '')]. *)
Definition stripHyphens (s : jsstring) : jsstring :=
  rev (dropWhile isHyphen (rev (dropWhile isHyphen s))).

(** The last step lower-cases a string in which only Basic Latin letters,
    digits and hyphens are left. *)
Definition toKebabCase (str : jsstring) : jsstring :=
  match str with
  | [] => []
  | _ =>
      let s1 := hyphenateCamel str in
      let s2 := replaceRuns (fun c => negb (isAlnum c || isHyphen c)) false s1 in
      let s3 := replaceRuns (fun c => isWhiteSpace c || (c =? 95)) false s2 in
      let s4 := stripHyphens s3 in
      let s5 := replaceRuns isHyphen false s4 in
      map lowerUnit s5
  end.

(** [.split(/[\s-]+/)]. *)
Fixpoint splitRuns (p : N -> bool) (inRun : bool) (s cur : jsstring) : list jsstring :=
  match s with
  | [] => [rev cur]
  | c :: s' =>
      if p c then (if inRun then splitRuns p true s' cur else rev cur :: splitRuns p true s' [])
      else splitRuns p false s' (c :: cur)
  end.

Definition stopWords : list jsstring :=
  ["the"; "and"; "are"; "for"; "with"; "that"; "this"; "from"; "have"; "been"].

Definition capitalize (word : jsstring) : jsstring :=
  match word with
  | [] => []
  | c :: r => upperUnit c :: r
  end.

Definition startsWithLetter (s : jsstring) : bool :=
  match s with
  | c :: _ => isLower c || isUpper c
  | [] => false
  end.

Definition toCamelCase (str : jsstring) : jsstring :=
  match str with
  | [] => []
  | _ =>
      let cleaned := clean str in
      match cleaned with
      | [] => "item"
      | _ =>
          let s1 := replaceSeparators (length cleaned) cleaned in
          let s2 := match s1 with
                    | c :: r => if isUpper c then lowerUnit c :: r else s1
                    | [] => s1
                    end in
          let camelCase := match s2 with
                           | c :: r => if isDigit c then "n" ++ s2 else s2
                           | [] => s2
                           end in
          if (30 <? length camelCase)%nat then
            let words := splitRuns isSeparator false (map lowerUnit cleaned) [] in
            let importantWords :=
              filter (fun word => (3 <? length word)%nat && negb (mem word stopWords)) words in
            let shortened :=
              match firstn 3 importantWords with
              | first :: others => first ++ concat (map capitalize others)
              | [] => firstn 30 camelCase
              end in
            if negb (startsWithLetter shortened) then "item" ++ shortened else shortened
          else camelCase
      end
  end.

Definition reservedKeywords : list jsstring :=
  ["break"; "case"; "catch"; "class"; "const"; "continue"; "debugger"; "default";
   "delete"; "do"; "else"; "export"; "extends"; "finally"; "for"; "function";
   "if"; "import"; "in"; "instanceof"; "new"; "return"; "super"; "switch";
   "this"; "throw"; "try"; "typeof"; "var"; "void"; "while"; "with"; "yield";
   "enum"; "implements"; "interface"; "let"; "package"; "private"; "protected";
   "public"; "static"; "await"; "abstract"; "boolean"; "byte"; "char"; "double";
   "final"; "float"; "goto"; "int"; "long"; "native"; "short"; "synchronized";
   "throws"; "transient"; "volatile"].

Definition sanitizeVariableName (name : jsstring) : jsstring :=
  match name with
  | [] => "item"
  | _ => if mem name reservedKeywords then name ++ "Value" else name
  end.

End NameUtils.

(* ================================================================== *)
(** ** The design document *)
(* ================================================================== *)

Module Figma.

Record Color := { color_r : float; color_g : float; color_b : float }.

(** An entry of [fills] or [strokes]. *)
Record Paint := {
  paint_type : option jsstring;
  paint_visible : option bool;
  paint_color : option Color;
  paint_opacity : option float
}.

Record BoundingBox := {
  bbox_x : option float;
  bbox_y : option float;
  bbox_width : option float;
  bbox_height : option float
}.

Record Constraints := {
  constraint_horizontal : option jsstring;
  constraint_vertical : option jsstring
}.

Record TypeStyle := {
  fontFamily : option jsstring;
  fontSize : option float;
  fontWeight : option float;
  letterSpacing : option float;
  lineHeightPx : option float;
  lineHeightPercentFontSize : option float
}.

(** The value of [characters]: the text of a text node. A document that is
    not well formed may carry a number there; it is the one malformed shape
    the embedding keeps, and every string method called on it throws. *)
Inductive Characters :=
| CharsString (s : jsstring)
| CharsNumber (x : float).

(** The properties of a node the generator reads, under their names in the
    document. *)
Record Attrs := {
  node_id : option jsstring;
  node_name : option jsstring;
  node_type : option jsstring;
  node_characters : option Characters;
  node_visible : option bool;
  node_absoluteBoundingBox : option BoundingBox;
  node_relativeBoundingBox : option BoundingBox;
  node_constraints : option Constraints;
  node_minWidth : option float;
  node_maxWidth : option float;
  node_minHeight : option float;
  node_maxHeight : option float;
  node_fills : option (list Paint);
  node_strokes : option (list Paint);
  node_strokeWeight : option float;
  node_strokeAlign : option jsstring;
  node_cornerRadius : option float;
  node_opacity : option float;
  node_clipsContent : option bool;
  node_layoutMode : option jsstring;
  node_primaryAxisAlignItems : option jsstring;
  node_counterAxisAlignItems : option jsstring;
  node_itemSpacing : option float;
  node_layoutWrap : option jsstring;
  node_position : option jsstring;
  node_paddingTop : option float;
  node_paddingRight : option float;
  node_paddingBottom : option float;
  node_paddingLeft : option float;
  node_layoutPaddingTop : option float;
  node_layoutPaddingRight : option float;
  node_layoutPaddingBottom : option float;
  node_layoutPaddingLeft : option float;
  node_style : option TypeStyle;
  node_textAlignHorizontal : option jsstring;
  node_textDecoration : option jsstring
}.

(** A node with its children; [None] for a node with no [children]
    property. Every node is owned by its parent. *)
#[warnings="-register-all"]
Inductive node :=
| Node (a : Attrs) (children : option (list node)).

Definition attrs (n : node) : Attrs := match n with Node a _ => a end.
Definition children (n : node) : option (list node) := match n with Node _ cs => cs end.

(** Assignment to one property of a node. *)
Definition set_relativeBoundingBox (a : Attrs) (v : option BoundingBox) : Attrs :=
  {| node_id := node_id a;
     node_name := node_name a;
     node_type := node_type a;
     node_characters := node_characters a;
     node_visible := node_visible a;
     node_absoluteBoundingBox := node_absoluteBoundingBox a;
     node_relativeBoundingBox := v;
     node_constraints := node_constraints a;
     node_minWidth := node_minWidth a;
     node_maxWidth := node_maxWidth a;
     node_minHeight := node_minHeight a;
     node_maxHeight := node_maxHeight a;
     node_fills := node_fills a;
     node_strokes := node_strokes a;
     node_strokeWeight := node_strokeWeight a;
     node_strokeAlign := node_strokeAlign a;
     node_cornerRadius := node_cornerRadius a;
     node_opacity := node_opacity a;
     node_clipsContent := node_clipsContent a;
     node_layoutMode := node_layoutMode a;
     node_primaryAxisAlignItems := node_primaryAxisAlignItems a;
     node_counterAxisAlignItems := node_counterAxisAlignItems a;
     node_itemSpacing := node_itemSpacing a;
     node_layoutWrap := node_layoutWrap a;
     node_position := node_position a;
     node_paddingTop := node_paddingTop a;
     node_paddingRight := node_paddingRight a;
     node_paddingBottom := node_paddingBottom a;
     node_paddingLeft := node_paddingLeft a;
     node_layoutPaddingTop := node_layoutPaddingTop a;
     node_layoutPaddingRight := node_layoutPaddingRight a;
     node_layoutPaddingBottom := node_layoutPaddingBottom a;
     node_layoutPaddingLeft := node_layoutPaddingLeft a;
     node_style := node_style a;
     node_textAlignHorizontal := node_textAlignHorizontal a;
     node_textDecoration := node_textDecoration a |}.

Definition set_fills (a : Attrs) (v : option (list Paint)) : Attrs :=
  {| node_id := node_id a;
     node_name := node_name a;
     node_type := node_type a;
     node_characters := node_characters a;
     node_visible := node_visible a;
     node_absoluteBoundingBox := node_absoluteBoundingBox a;
     node_relativeBoundingBox := node_relativeBoundingBox a;
     node_constraints := node_constraints a;
     node_minWidth := node_minWidth a;
     node_maxWidth := node_maxWidth a;
     node_minHeight := node_minHeight a;
     node_maxHeight := node_maxHeight a;
     node_fills := v;
     node_strokes := node_strokes a;
     node_strokeWeight := node_strokeWeight a;
     node_strokeAlign := node_strokeAlign a;
     node_cornerRadius := node_cornerRadius a;
     node_opacity := node_opacity a;
     node_clipsContent := node_clipsContent a;
     node_layoutMode := node_layoutMode a;
     node_primaryAxisAlignItems := node_primaryAxisAlignItems a;
     node_counterAxisAlignItems := node_counterAxisAlignItems a;
     node_itemSpacing := node_itemSpacing a;
     node_layoutWrap := node_layoutWrap a;
     node_position := node_position a;
     node_paddingTop := node_paddingTop a;
     node_paddingRight := node_paddingRight a;
     node_paddingBottom := node_paddingBottom a;
     node_paddingLeft := node_paddingLeft a;
     node_layoutPaddingTop := node_layoutPaddingTop a;
     node_layoutPaddingRight := node_layoutPaddingRight a;
     node_layoutPaddingBottom := node_layoutPaddingBottom a;
     node_layoutPaddingLeft := node_layoutPaddingLeft a;
     node_style := node_style a;
     node_textAlignHorizontal := node_textAlignHorizontal a;
     node_textDecoration := node_textDecoration a |}.

Definition set_strokes (a : Attrs) (v : option (list Paint)) : Attrs :=
  {| node_id := node_id a;
     node_name := node_name a;
     node_type := node_type a;
     node_characters := node_characters a;
     node_visible := node_visible a;
     node_absoluteBoundingBox := node_absoluteBoundingBox a;
     node_relativeBoundingBox := node_relativeBoundingBox a;
     node_constraints := node_constraints a;
     node_minWidth := node_minWidth a;
     node_maxWidth := node_maxWidth a;
     node_minHeight := node_minHeight a;
     node_maxHeight := node_maxHeight a;
     node_fills := node_fills a;
     node_strokes := v;
     node_strokeWeight := node_strokeWeight a;
     node_strokeAlign := node_strokeAlign a;
     node_cornerRadius := node_cornerRadius a;
     node_opacity := node_opacity a;
     node_clipsContent := node_clipsContent a;
     node_layoutMode := node_layoutMode a;
     node_primaryAxisAlignItems := node_primaryAxisAlignItems a;
     node_counterAxisAlignItems := node_counterAxisAlignItems a;
     node_itemSpacing := node_itemSpacing a;
     node_layoutWrap := node_layoutWrap a;
     node_position := node_position a;
     node_paddingTop := node_paddingTop a;
     node_paddingRight := node_paddingRight a;
     node_paddingBottom := node_paddingBottom a;
     node_paddingLeft := node_paddingLeft a;
     node_layoutPaddingTop := node_layoutPaddingTop a;
     node_layoutPaddingRight := node_layoutPaddingRight a;
     node_layoutPaddingBottom := node_layoutPaddingBottom a;
     node_layoutPaddingLeft := node_layoutPaddingLeft a;
     node_style := node_style a;
     node_textAlignHorizontal := node_textAlignHorizontal a;
     node_textDecoration := node_textDecoration a |}.

Definition set_characters (a : Attrs) (v : option Characters) : Attrs :=
  {| node_id := node_id a;
     node_name := node_name a;
     node_type := node_type a;
     node_characters := v;
     node_visible := node_visible a;
     node_absoluteBoundingBox := node_absoluteBoundingBox a;
     node_relativeBoundingBox := node_relativeBoundingBox a;
     node_constraints := node_constraints a;
     node_minWidth := node_minWidth a;
     node_maxWidth := node_maxWidth a;
     node_minHeight := node_minHeight a;
     node_maxHeight := node_maxHeight a;
     node_fills := node_fills a;
     node_strokes := node_strokes a;
     node_strokeWeight := node_strokeWeight a;
     node_strokeAlign := node_strokeAlign a;
     node_cornerRadius := node_cornerRadius a;
     node_opacity := node_opacity a;
     node_clipsContent := node_clipsContent a;
     node_layoutMode := node_layoutMode a;
     node_primaryAxisAlignItems := node_primaryAxisAlignItems a;
     node_counterAxisAlignItems := node_counterAxisAlignItems a;
     node_itemSpacing := node_itemSpacing a;
     node_layoutWrap := node_layoutWrap a;
     node_position := node_position a;
     node_paddingTop := node_paddingTop a;
     node_paddingRight := node_paddingRight a;
     node_paddingBottom := node_paddingBottom a;
     node_paddingLeft := node_paddingLeft a;
     node_layoutPaddingTop := node_layoutPaddingTop a;
     node_layoutPaddingRight := node_layoutPaddingRight a;
     node_layoutPaddingBottom := node_layoutPaddingBottom a;
     node_layoutPaddingLeft := node_layoutPaddingLeft a;
     node_style := node_style a;
     node_textAlignHorizontal := node_textAlignHorizontal a;
     node_textDecoration := node_textDecoration a |}.

Definition set_absoluteBoundingBox (a : Attrs) (v : option BoundingBox) : Attrs :=
  {| node_id := node_id a;
     node_name := node_name a;
     node_type := node_type a;
     node_characters := node_characters a;
     node_visible := node_visible a;
     node_absoluteBoundingBox := v;
     node_relativeBoundingBox := node_relativeBoundingBox a;
     node_constraints := node_constraints a;
     node_minWidth := node_minWidth a;
     node_maxWidth := node_maxWidth a;
     node_minHeight := node_minHeight a;
     node_maxHeight := node_maxHeight a;
     node_fills := node_fills a;
     node_strokes := node_strokes a;
     node_strokeWeight := node_strokeWeight a;
     node_strokeAlign := node_strokeAlign a;
     node_cornerRadius := node_cornerRadius a;
     node_opacity := node_opacity a;
     node_clipsContent := node_clipsContent a;
     node_layoutMode := node_layoutMode a;
     node_primaryAxisAlignItems := node_primaryAxisAlignItems a;
     node_counterAxisAlignItems := node_counterAxisAlignItems a;
     node_itemSpacing := node_itemSpacing a;
     node_layoutWrap := node_layoutWrap a;
     node_position := node_position a;
     node_paddingTop := node_paddingTop a;
     node_paddingRight := node_paddingRight a;
     node_paddingBottom := node_paddingBottom a;
     node_paddingLeft := node_paddingLeft a;
     node_layoutPaddingTop := node_layoutPaddingTop a;
     node_layoutPaddingRight := node_layoutPaddingRight a;
     node_layoutPaddingBottom := node_layoutPaddingBottom a;
     node_layoutPaddingLeft := node_layoutPaddingLeft a;
     node_style := node_style a;
     node_textAlignHorizontal := node_textAlignHorizontal a;
     node_textDecoration := node_textDecoration a |}.

(** A node object with three properties: [id], [name] and [type]. *)
Definition attributes (id name type : jsstring) : Attrs :=
  {| node_id := Some id;
     node_name := Some name;
     node_type := Some type;
     node_characters := None;
     node_visible := None;
     node_absoluteBoundingBox := None;
     node_relativeBoundingBox := None;
     node_constraints := None;
     node_minWidth := None;
     node_maxWidth := None;
     node_minHeight := None;
     node_maxHeight := None;
     node_fills := None;
     node_strokes := None;
     node_strokeWeight := None;
     node_strokeAlign := None;
     node_cornerRadius := None;
     node_opacity := None;
     node_clipsContent := None;
     node_layoutMode := None;
     node_primaryAxisAlignItems := None;
     node_counterAxisAlignItems := None;
     node_itemSpacing := None;
     node_layoutWrap := None;
     node_position := None;
     node_paddingTop := None;
     node_paddingRight := None;
     node_paddingBottom := None;
     node_paddingLeft := None;
     node_layoutPaddingTop := None;
     node_layoutPaddingRight := None;
     node_layoutPaddingBottom := None;
     node_layoutPaddingLeft := None;
     node_style := None;
     node_textAlignHorizontal := None;
     node_textDecoration := None |}.

End Figma.
Import Figma.


(* ================================================================== *)
(** ** utils/styleUtils.js *)
(* ================================================================== *)

Module StyleUtils.
Section WithRuntime.
Context {rt : Runtime}.

Definition nl : jsstring := [10].

Definition rgbaToCSS (color : option Color) (opacity : option float) : jsstring :=
  match color with
  | None => "transparent"
  | Some c =>
      let r := Math_round (PrimFloat.mul (color_r c) 255) in
      let g := Math_round (PrimFloat.mul (color_g c) 255) in
      let b := Math_round (PrimFloat.mul (color_b c) 255) in
      let a := match opacity with Some o => o | None => 1%float end in
      "rgba(" ++ Number_toString r ++ ", " ++ Number_toString g ++ ", "
        ++ Number_toString b ++ ", " ++ Number_toString a ++ ")"
  end.

Definition getSpacingVar (val : float) : jsstring :=
  if PrimFloat.eqb val 4 then "var(--spacing-xs)"
  else if PrimFloat.eqb val 8 then "var(--spacing-sm)"
  else if PrimFloat.eqb val 16 then "var(--spacing-md)"
  else if PrimFloat.eqb val 24 then "var(--spacing-lg)"
  else if PrimFloat.eqb val 32 then "var(--spacing-xl)"
  else Number_toString val ++ "px".

Definition getRadiusVar (val : float) : jsstring :=
  if PrimFloat.eqb val 4 then "var(--border-radius-sm)"
  else if PrimFloat.eqb val 8 then "var(--border-radius-md)"
  else if PrimFloat.eqb val 12 then "var(--border-radius-lg)"
  else Number_toString val ++ "px".

Definition getBaseResetStyles : jsstring :=
  join nl
    [ "/* CSS" ++ [0x53d8; 0x91cf; 0x5b9a; 0x4e49] ++ " */";
      ":root {";
      "  --spacing-xs: 4px;";
      "  --spacing-sm: 8px;";
      "  --spacing-md: 16px;";
      "  --spacing-lg: 24px;";
      "  --spacing-xl: 32px;";
      "  --border-radius-sm: 4px;";
      "  --border-radius-md: 8px;";
      "  --border-radius-lg: 12px;";
      "  --transition-base: 0.2s ease;";
      "}";
      [];
      "/* " ++ [0x57fa; 0x7840; 0x91cd; 0x7f6e; 0x6837; 0x5f0f] ++ " */";
      "* {";
      "  box-sizing: border-box;";
      "  margin: 0;";
      "  padding: 0;";
      "}";
      [];
      "*,";
      "*::before,";
      "*::after {";
      "  box-sizing: inherit;";
      "}" ].

End WithRuntime.
End StyleUtils.

(* ================================================================== *)
(** ** utils/nodeUtils.js *)
(* ================================================================== *)

Module NodeUtils.
Section WithRuntime.
Context {rt : Runtime}.

(** A number read from a property that may be absent: [undefined] in
    arithmetic is [NaN]. *)
Definition num (x : option float) : float :=
  match x with
  | Some f => f
  | None => PrimFloat.nan
  end.

(** [paint.visible !== false]. *)
Definition notHidden (p : Paint) : bool :=
  match paint_visible p with
  | Some false => false
  | _ => true
  end.

(** [.filter(child => child !== null)]. *)
Definition omitNull {A} (l : list (option A)) : list A :=
  flat_map (fun o => match o with Some x => [x] | None => [] end) l.

(** Lines 16 to 31 of [preprocessNode]: the assignments to the node's own
    properties. [parentNode] is read for its [absoluteBoundingBox] only. *)
Definition ownProperties (a : Attrs) (parentNode : option node) : Attrs :=
  let a1 :=
    match parentNode with
    | Some p =>
        match node_absoluteBoundingBox a, node_absoluteBoundingBox (attrs p) with
        | Some box, Some pbox =>
            set_relativeBoundingBox a
              (Some {| bbox_x := Some (PrimFloat.sub (num (bbox_x box)) (num (bbox_x pbox)));
                       bbox_y := Some (PrimFloat.sub (num (bbox_y box)) (num (bbox_y pbox)));
                       bbox_width := bbox_width box;
                       bbox_height := bbox_height box |})
        | _, _ => a
        end
    | None => a
    end in
  let a2 :=
    match node_fills a1 with
    | Some fills => set_fills a1 (Some (filter notHidden fills))
    | None => a1
    end in
  match node_strokes a2 with
  | Some strokes => set_strokes a2 (Some (filter notHidden strokes))
  | None => a2
  end.

(** [preprocessNode] on a node object. The function assigns to the
    properties of the object it is given and returns that object (line 40,
    [return node]): it allocates no node. The value computed here is the
    content of that one object when the call returns; it is what the caller's
    document holds from then on and what the returned reference designates. *)
Fixpoint preprocessObject (n : node) (parentNode : option node) : node :=
  match n with
  | Node a cs =>
      let a' := ownProperties a parentNode in
      match cs with
      | Some (c :: l) =>
          Node a'
            (Some (omitNull
                     (map (fun child => Some (preprocessObject child (Some (Node a' cs))))
                          (c :: l))))
      | _ => Node a' cs
      end
  end.

(** [preprocessNode(node, parentNode = null)]: [None] is [null]. *)
Definition preprocessNode (n : option node) (parentNode : option node) : option node :=
  match n with
  | None => None
  | Some o => Some (preprocessObject o parentNode)
  end.

(** Node types that name an inherited property of [Object] are outside the
    embedding: the lookup is in the table alone. *)
Definition mapFigmaTypeToHTML (type : option jsstring) : jsstring :=
  match type with
  | None => "div"
  | Some t =>
      let k := String_toLowerCase t in
      if str_eqb k "frame" then "div"
      else if str_eqb k "group" then "div"
      else if str_eqb k "text" then "p"
      else if str_eqb k "rectangle" then "div"
      else if str_eqb k "ellipse" then "div"
      else if str_eqb k "vector" then "svg"
      else if str_eqb k "component" then "div"
      else if str_eqb k "instance" then "div"
      else if str_eqb k "page" then "div"
      else "div"
  end.

Definition isSelfClosing (tagName : jsstring) : bool :=
  mem tagName ["img"; "input"; "br"; "hr"; "meta"; "link"].

(** [.replace(/c/g, repl)] for one code unit [c]. *)
Definition replaceUnit (c : N) (repl : jsstring) (s : jsstring) : jsstring :=
  flat_map (fun x => if x =? c then repl else [x]) s.

Definition truthy_chars (text : option Characters) : bool :=
  match text with
  | Some (CharsString (_ :: _)) => true
  | Some (CharsNumber x) => truthy_num (Some x)
  | _ => false
  end.

Definition escapeHTML (text : option Characters) : result jsstring :=
  match text with
  | Some (CharsString (c :: r)) =>
      Ok (replaceUnit 39 "&#039;"
            (replaceUnit 34 "&quot;"
               (replaceUnit 62 "&gt;"
                  (replaceUnit 60 "&lt;"
                     (replaceUnit 38 "&amp;" (c :: r))))))
  | Some (CharsNumber x) =>
      if truthy_num (Some x) then Throw (TypeError "text.replace is not a function")
      else Ok []
  | _ => Ok []
  end.

Definition detectHorizontalLayout (n : node) : bool :=
  match children n with
  | Some (firstChild :: secondChild :: _) =>
      match node_absoluteBoundingBox (attrs firstChild),
            node_absoluteBoundingBox (attrs secondChild) with
      | Some b1, Some b2 =>
          let yDiff := PrimFloat.abs (PrimFloat.sub (num (bbox_y b2)) (num (bbox_y b1))) in
          let xDiff := PrimFloat.abs (PrimFloat.sub (num (bbox_x b2)) (num (bbox_x b1))) in
          PrimFloat.ltb yDiff 10 && PrimFloat.ltb 10 xDiff
      | _, _ => false
      end
  | _ => false
  end.

End WithRuntime.
End NodeUtils.

(* ================================================================== *)
(** ** analyzers/InteractiveElementAnalyzer.js *)
(* ================================================================== *)

Module InteractiveElementAnalyzer.

Inductive InteractiveType := button | input | accordion | toggle.

(** An entry of the [interactiveElements] map. *)
Record InteractiveElement := {
  ie_type : InteractiveType;
  ie_id : jsstring;
  ie_name : option jsstring
}.

Inductive DefaultValue :=
| DefaultString (s : jsstring)
| DefaultBoolean (b : bool).

Record StateVariable := {
  sv_id : jsstring;
  sv_type : jsstring;
  sv_defaultValue : DefaultValue
}.

Record EventHandler := {
  eh_id : jsstring;
  eh_handlerName : jsstring
}.

(** The three collections [analyze] writes to. *)
Record Collections := {
  interactiveElements : jsmap InteractiveElement;
  stateVariables : list StateVariable;
  eventHandlers : list EventHandler
}.

Definition noCollections : Collections :=
  {| interactiveElements := []; stateVariables := []; eventHandlers := [] |}.

Definition someIncludes (keywords : list jsstring) (name : jsstring) : bool :=
  existsb (fun keyword => includes name keyword) keywords.

Definition isButton (name : jsstring) : bool :=
  someIncludes ["button"; "btn"; "click"; "submit"; "confirm"; "cancel"; "ok"; "apply"] name.

Definition isInput (name : jsstring) : bool :=
  someIncludes ["input"; "textfield"; "text-field"; "form"; "search"; "textarea"] name.

Definition isAccordion (name : jsstring) : bool :=
  includes name "accordion" || includes name [0x6298; 0x53e0] || includes name [0x5c55; 0x5f00].

Definition isCollapsible (name : jsstring) : bool :=
  includes name "collapse" || includes name "collapsible" || includes name "expand".

Definition isToggle (name : jsstring) : bool :=
  includes name "toggle" || includes name "switch".

Definition isSwitch (name : jsstring) : bool :=
  includes name "switch" || includes name [0x5f00; 0x5173].

Section WithRuntime.
Context {rt : Runtime}.

(** The derived identifier: [sanitizeVariableName(toCamelCase(node.name || fallback))]. *)
Definition identifier (a : Attrs) (fallback : jsstring) : jsstring :=
  NameUtils.sanitizeVariableName (NameUtils.toCamelCase (str_or (node_name a) fallback)).

(** The four detections on one node, in the order of the source. *)
Definition analyzeOne (a : Attrs) (c : Collections) : Collections :=
  let nodeName := String_toLowerCase (str_or (node_name a) []) in
  let nodeId := node_id a in
  let c1 :=
    if isButton nodeName then
      let buttonId := identifier a "button" in
      {| interactiveElements :=
           map_set (interactiveElements c) nodeId
             {| ie_type := button; ie_id := buttonId; ie_name := node_name a |};
         stateVariables := stateVariables c;
         eventHandlers :=
           eventHandlers c ++ [{| eh_id := buttonId; eh_handlerName := "handleClick" |}] |}
    else c in
  let c2 :=
    if isInput nodeName then
      let inputId := identifier a "input" in
      {| interactiveElements :=
           map_set (interactiveElements c1) nodeId
             {| ie_type := input; ie_id := inputId; ie_name := node_name a |};
         stateVariables :=
           stateVariables c1
             ++ [{| sv_id := inputId; sv_type := "string"; sv_defaultValue := DefaultString [] |}];
         eventHandlers :=
           eventHandlers c1 ++ [{| eh_id := inputId; eh_handlerName := "handleChange" |}] |}
    else c1 in
  let c3 :=
    if isAccordion nodeName || isCollapsible nodeName then
      let accordionId := identifier a "accordion" in
      {| interactiveElements :=
           map_set (interactiveElements c2) nodeId
             {| ie_type := accordion; ie_id := accordionId; ie_name := node_name a |};
         stateVariables :=
           stateVariables c2
             ++ [{| sv_id := accordionId; sv_type := "boolean";
                    sv_defaultValue := DefaultBoolean false |}];
         eventHandlers :=
           eventHandlers c2 ++ [{| eh_id := accordionId; eh_handlerName := "handleToggle" |}] |}
    else c2 in
  if isToggle nodeName || isSwitch nodeName then
    let toggleId := identifier a "toggle" in
    {| interactiveElements :=
         map_set (interactiveElements c3) nodeId
           {| ie_type := toggle; ie_id := toggleId; ie_name := node_name a |};
       stateVariables :=
         stateVariables c3
           ++ [{| sv_id := toggleId; sv_type := "boolean";
                  sv_defaultValue := DefaultBoolean false |}];
       eventHandlers :=
         eventHandlers c3 ++ [{| eh_id := toggleId; eh_handlerName := "handleToggle" |}] |}
  else c3.

(** [analyze]: the node, then its children from left to right. The three
    collections are updated in place; the embedding passes them along. *)
Fixpoint analyze (n : node) (c : Collections) : Collections :=
  match n with
  | Node a cs =>
      let c' := analyzeOne a c in
      match cs with
      | Some l => fold_left (fun acc child => analyze child acc) l c'
      | None => c'
      end
  end.

End WithRuntime.
End InteractiveElementAnalyzer.

(* ================================================================== *)
(** ** analyzers/ComponentAnalyzer.js *)
(* ================================================================== *)

Module ComponentAnalyzer.

(** [parentId]: [null] at the root of a pass, else the identifier (possibly
    absent) of the parent. *)
Inductive ParentId :=
| NoParent
| ParentKey (k : key).

Record ComponentInfo := {
  ci_name : jsstring;
  ci_node : node;
  ci_parentId : ParentId
}.

Definition componentKeywords : list jsstring :=
  ["card"; "item"; "list-item"; "listitem"; "row"; "cell";
   "header"; "footer"; "sidebar"; "nav"; "menu"; "button-group";
   "form-group"; "input-group"; "modal"; "dialog"; "popup";
   "accordion"; "tab"; "tab-item"; "panel"; "section";
   "widget"; "block"; "box"; "container"; "wrapper"].

Definition isComponentCandidate (name : jsstring) : bool :=
  existsb (fun keyword => includes name keyword) componentKeywords.

Definition opt_str_eqb (a b : option jsstring) : bool := key_eqb a b.

(** [child.children?.length || 0]. *)
Definition childCount (n : node) : nat :=
  match children n with
  | Some l => length l
  | None => O
  end.

Definition hasRepeatedStructure (n : node) : bool :=
  match children n with
  | Some (firstChild :: secondChild :: _) =>
      let firstChildCount := childCount firstChild in
      let secondChildCount := childCount secondChild in
      opt_str_eqb (node_type (attrs firstChild)) (node_type (attrs secondChild))
      && ((firstChildCount - secondChildCount) + (secondChildCount - firstChildCount) <=? 1)%nat
  | _ => false
  end.

Section WithRuntime.
Context {rt : Runtime}.

(** Which of the three rules fires on a node at a depth. *)
Definition shouldComponentize (n : node) (depth : nat) : bool :=
  let nodeName := String_toLowerCase (str_or (node_name (attrs n)) []) in
  let nodeType := option_map String_toLowerCase (node_type (attrs n)) in
  if opt_str_eqb nodeType (Some "component") || opt_str_eqb nodeType (Some "instance") then true
  else if isComponentCandidate nodeName then true
  else
    match children n with
    | Some l => (3 <=? length l)%nat && (depth <? 3)%nat && hasRepeatedStructure n
    | None => false
    end.

(** [toPascalCase(node.name || `Component${++componentCounter.value}`)]: the
    counter moves only when the node has no name. *)
Definition componentNameFor (a : Attrs) (counter : N) : jsstring * N :=
  if truthy_str (node_name a) then (NameUtils.toPascalCase (str_or (node_name a) []), counter)
  else (NameUtils.toPascalCase ("Component" ++ decimal (counter + 1)), counter + 1).

(** [identify]: the [components] map and the counter are updated in place;
    the embedding passes them along. *)
Fixpoint identify (n : node) (depth : nat) (parentId : ParentId)
  (st : jsmap ComponentInfo * N) : jsmap ComponentInfo * N :=
  match n with
  | Node a cs =>
      let '(components, counter) := st in
      let nodeId := node_id a in
      let fires := shouldComponentize n depth in
      let '(componentName, counter') :=
        if fires then componentNameFor a counter else ([], counter) in
      if fires && negb (str_eqb componentName []) then
        (map_set components nodeId
           {| ci_name := componentName; ci_node := n; ci_parentId := parentId |},
         counter')
      else
        match cs with
        | Some l =>
            fold_left (fun acc child => identify child (S depth) (ParentKey nodeId) acc)
                      l (components, counter')
        | None => (components, counter')
        end
  end.

End WithRuntime.
End ComponentAnalyzer.

(* ================================================================== *)
(** ** The class name of a node

    [getClassName] and [inferSemanticName] are methods of both transformers,
    with the same text in [JSXTransformer.js] and [CSSTransformer.js]. *)
(* ================================================================== *)

Module ClassNames.
Section WithRuntime.
Context {rt : Runtime}.

Definition isTEXT (n : node) : bool :=
  ComponentAnalyzer.opt_str_eqb (node_type (attrs n)) (Some "TEXT").

(** [/^frame-\d+$/.test(name)]. *)
Definition isFrameNumber (name : jsstring) : bool :=
  startsWith name "frame-" &&
  match skipn 6 name with
  | [] => false
  | digits => forallb isDigit digits
  end.

Definition nameIncludes (keyword : jsstring) (c : node) : bool :=
  includes (String_toLowerCase (str_or (node_name (attrs c)) [])) keyword.

(** [null] is [None]. *)
Definition inferSemanticName (n : node) : result (option jsstring) :=
  let byLayout :=
    if ComponentAnalyzer.opt_str_eqb (node_layoutMode (attrs n)) (Some "HORIZONTAL")
    then Some "row"
    else if ComponentAnalyzer.opt_str_eqb (node_layoutMode (attrs n)) (Some "VERTICAL")
    then Some "column"
    else None in
  match children n with
  | Some (firstChild :: rest) =>
      if isTEXT firstChild && NodeUtils.truthy_chars (node_characters (attrs firstChild)) then
        match node_characters (attrs firstChild) with
        | Some (CharsString chars) =>
            let text := firstn 20 (String_toLowerCase chars) in
            match NameUtils.toKebabCase text with
            | [] => Ok None
            | k => Ok (Some k)
            end
        | _ => Throw (TypeError "firstChild.characters.toLowerCase is not a function")
        end
      else if existsb (nameIncludes "button") (firstChild :: rest) then Ok (Some "button-group")
      else if existsb (nameIncludes "input") (firstChild :: rest) then Ok (Some "input-group")
      else Ok byLayout
  | _ => Ok byLayout
  end.

(** [node.id.replace(/[^a-zA-Z0-9]/g, '-').substring(0, 20)]. *)
Definition idFragment (id : jsstring) : jsstring :=
  firstn 20 (map (fun c => if isAlnum c then c else 45) id).

Definition getClassName (n : node) (cssClass : bool) : result jsstring :=
  if negb (truthy_str (node_name (attrs n))) then Ok []
  else
    let name0 := NameUtils.toKebabCase (str_or (node_name (attrs n)) []) in
    name1 <-
      (if isFrameNumber name0 || str_eqb name0 "group" || str_eqb name0 "container"
       then (inferred <- inferSemanticName n ;;
             Ok (match inferred with
                 | Some (c :: r) => c :: r
                 | _ => "wrapper"
                 end))
       else Ok name0) ;;
    let name2 :=
      match name1 with
      | c :: _ => if isDigit c then "el-" ++ name1 else name1
      | [] => name1
      end in
    let name3 :=
      match name2 with
      | [] =>
          match node_id (attrs n) with
          | Some (c :: r) => "node-" ++ idFragment (c :: r)
          | _ => "element"
          end
      | _ => name2
      end in
    Ok (if cssClass then "." ++ name3 else " className=" ++ dquote ++ name3 ++ dquote).

End WithRuntime.
End ClassNames.

(* ================================================================== *)
(** ** transformers/JSXTransformer.js *)
(* ================================================================== *)

Module JSXTransformer.
Import InteractiveElementAnalyzer ComponentAnalyzer.

(** The fields of a transformer. *)
Record JSXTransformer := {
  jsx_interactiveElements : jsmap InteractiveElement;
  jsx_components : jsmap ComponentInfo;
  jsx_useObjectState : bool
}.

(** [x > 0] and [x !== undefined && x < 1] on a property that may be absent. *)
Definition positive (x : option float) : bool :=
  match x with
  | Some f => PrimFloat.ltb 0 f
  | None => false
  end.
Definition belowOne (x : option float) : bool :=
  match x with
  | Some f => PrimFloat.ltb f 1
  | None => false
  end.

(** [list?.length > 0]. *)
Definition nonEmpty {A} (l : option (list A)) : bool :=
  match l with
  | Some (_ :: _) => true
  | _ => false
  end.

Definition hasMeaningfulStyle (n : node) : bool :=
  let a := attrs n in
  let hasFills := nonEmpty (node_fills a) in
  let hasStrokes := nonEmpty (node_strokes a) in
  let hasCornerRadius := positive (node_cornerRadius a) in
  let hasLayout := opt_str_eqb (node_layoutMode a) (Some "HORIZONTAL")
                   || opt_str_eqb (node_layoutMode a) (Some "VERTICAL") in
  let hasPadding := truthy_num (node_paddingTop a) || truthy_num (node_paddingRight a)
                    || truthy_num (node_paddingBottom a) || truthy_num (node_paddingLeft a)
                    || truthy_num (node_layoutPaddingTop a)
                    || truthy_num (node_layoutPaddingRight a)
                    || truthy_num (node_layoutPaddingBottom a)
                    || truthy_num (node_layoutPaddingLeft a) in
  let hasOpacity := belowOne (node_opacity a) in
  let hasPosition := opt_str_eqb (node_position a) (Some "ABSOLUTE")
                     || opt_str_eqb (node_position a) (Some "RELATIVE") in
  hasFills || hasStrokes || hasCornerRadius || hasLayout || hasPadding || hasOpacity
  || hasPosition
  || match node_absoluteBoundingBox a with
     | Some bbox =>
         match bbox_width bbox, bbox_height bbox with
         | None, None => false
         | _, _ => true
         end
     | None => false
     end.

(** [JSXTransformer.format]. *)
Definition isBlank (line : jsstring) : bool :=
  match trim line with
  | [] => true
  | _ => false
  end.

Fixpoint dropBlankBeforeBlank (lines : list jsstring) : list jsstring :=
  match lines with
  | [] => []
  | line :: rest =>
      let nextBlank := match rest with next :: _ => isBlank next | [] => false end in
      if isBlank line && nextBlank then dropBlankBeforeBlank rest
      else line :: dropBlankBeforeBlank rest
  end.

Definition format (jsx : jsstring) : jsstring :=
  match jsx with
  | [] => []
  | _ => join StyleUtils.nl (dropBlankBeforeBlank (split 10 jsx))
  end.

Section WithRuntime.
Context {rt : Runtime}.

Definition shouldSkipNode (t : JSXTransformer) (n : node) : bool :=
  let a := attrs n in
  let nodeType := option_map String_toLowerCase (node_type a) in
  if opt_str_eqb nodeType (Some "group") then
    let hasStyle := nonEmpty (node_fills a) || nonEmpty (node_strokes a)
                    || positive (node_cornerRadius a) || belowOne (node_opacity a) in
    let hasInteraction := map_has (jsx_interactiveElements t) (node_id a) in
    let childCount := ComponentAnalyzer.childCount n in
    negb hasStyle && negb hasInteraction && (childCount =? 1)%nat
  else false.

Definition getClassName (n : node) (cssClass : bool) : result jsstring :=
  ClassNames.getClassName n cssClass.

Definition getComponentProps (n : node) : result jsstring :=
  className <- getClassName n false ;;
  let props := match className with
               | [] => []
               | _ => [trim className]
               end in
  Ok (match props with
      | [] => []
      | _ => " " ++ join " " props
      end).

(** The tag, the props and the event handlers of an interactive element. *)
Definition remap (t : JSXTransformer) (interactiveElement : option InteractiveElement)
  (tagName : jsstring) : jsstring * list jsstring * list jsstring :=
  match interactiveElement with
  | Some el =>
      match ie_type el with
      | button =>
          ("button", [],
           ["onClick={handle" ++ NameUtils.toPascalCase (ie_id el) ++ "}"])
      | input =>
          let safeInputId := NameUtils.sanitizeVariableName (ie_id el) in
          let inputValueRef :=
            if jsx_useObjectState t then "state." ++ safeInputId else safeInputId in
          ("input",
           ["type=" ++ dquote ++ "text" ++ dquote; "value={" ++ inputValueRef ++ "}"],
           ["onChange={handle" ++ NameUtils.toPascalCase (ie_id el) ++ "Change}"])
      | accordion | toggle =>
          (tagName, [],
           ["onClick={handle" ++ NameUtils.toPascalCase (ie_id el) ++ "Toggle}"])
      end
  | None => (tagName, [], [])
  end.

(** [list.filter(Boolean)] on strings. *)
Definition filterBoolean (l : list jsstring) : list jsstring :=
  filter (fun s => match s with [] => false | _ => true end) l.

Definition spaced (s : jsstring) : jsstring :=
  match s with
  | [] => []
  | _ => " " ++ s
  end.

Definition spacedJoin (l : list jsstring) : jsstring :=
  match l with
  | [] => []
  | _ => " " ++ join " " l
  end.

(** Lines 51 to 121 of [transform]: the element of a node that is not
    replaced by a component tag. [rendered] is the rendering of the children
    (lines 91 to 96); it is passed unevaluated and demanded where the source
    computes it, after the class name and the text test. *)
Definition renderElement (t : JSXTransformer) (n : node) (depth : nat)
  (rendered : result jsstring) : result jsstring :=
  let a := attrs n in
  let indent := repeat_str "  " depth in
  let nodeType := str_or (option_map String_toLowerCase (node_type a)) "div" in
  let interactiveElement := map_get (jsx_interactiveElements t) (node_id a) in
  let '(tagName, props, eventHandlers) :=
    remap t interactiveElement (NodeUtils.mapFigmaTypeToHTML (Some nodeType)) in
  className <- getClassName n false ;;
  let allProps := join " " (filterBoolean (className :: props ++ eventHandlers)) in
  if str_eqb nodeType "text" && NodeUtils.truthy_chars (node_characters a) then
    text <- NodeUtils.escapeHTML (node_characters a) ;;
    Ok (indent ++ "<" ++ tagName ++ spaced allProps ++ ">" ++ text ++ "</" ++ tagName ++ ">")
  else
    childrenText <- rendered ;;
    if NodeUtils.isSelfClosing tagName then
      match trim childrenText with
      | _ :: _ =>
          Ok (indent ++ "<div" ++ className ++ ">" ++ StyleUtils.nl ++ indent ++ "  <"
                ++ tagName ++ spacedJoin props ++ spacedJoin eventHandlers ++ " />"
                ++ childrenText ++ StyleUtils.nl ++ indent ++ "</div>")
      | [] => Ok (indent ++ "<" ++ tagName ++ spaced allProps ++ " />")
      end
    else
      let noContent := match trim childrenText with [] => true | _ => false end in
      if negb (hasMeaningfulStyle n) && noContent
         && match interactiveElement with None => true | Some _ => false end
      then Ok []
      else
        let cleanProps := trim allProps in
        let usual :=
          Ok (indent ++ "<" ++ tagName ++ spaced cleanProps ++ ">" ++ childrenText
                ++ "</" ++ tagName ++ ">") in
        match children n with
        | Some [only] =>
            if negb noContent && negb (hasMeaningfulStyle n)
               && ClassNames.isTEXT only
               && NodeUtils.truthy_chars (node_characters (attrs only))
            then
              text <- NodeUtils.escapeHTML (node_characters (attrs only)) ;;
              Ok (indent ++ text)
            else usual
        | _ => usual
        end.

(** The self-closing tag that stands for a registered component. *)
Definition componentTag (n : node) (depth : nat) (componentName : jsstring)
  : result jsstring :=
  componentProps <- getComponentProps n ;;
  Ok (repeat_str "  " depth ++ "<" ++ componentName ++ componentProps ++ " />").

(** [transform(node, depth, currentComponentName)]. *)
Fixpoint transform (t : JSXTransformer) (n : node) (depth : nat)
  (currentComponentName : jsstring) : result jsstring :=
  match n with
  | Node a cs =>
      let rendered : result jsstring :=
        match cs with
        | Some (c :: l) =>
            parts <- mapM (fun child => transform t child (S depth) currentComponentName)
                          (c :: l) ;;
            Ok (StyleUtils.nl ++ join StyleUtils.nl parts ++ StyleUtils.nl
                  ++ repeat_str "  " depth)
        | _ => Ok []
        end in
      let render : result jsstring :=
        match map_get (jsx_components t) (node_id a) with
        | Some componentInfo =>
            if str_eqb (ci_name componentInfo) currentComponentName
            then renderElement t n depth rendered
            else componentTag n depth (ci_name componentInfo)
        | None => renderElement t n depth rendered
        end in
      match cs with
      | Some [only] =>
          if shouldSkipNode t n then transform t only depth currentComponentName
          else render
      | _ => render
      end
  end.

End WithRuntime.
End JSXTransformer.

(* ================================================================== *)
(** ** transformers/CSSTransformer.js *)
(* ================================================================== *)

Module CSSTransformer.
Import ComponentAnalyzer JSXTransformer.

(** A group of classes that share a style key. *)
Record StyleGroup := {
  sg_classes : list jsstring;
  sg_style : jsstring
}.

(** What [extractStyles] writes to: the array [styles], the set
    [processedClasses], the maps [styleMap] and [styleGroups] (both keyed by
    style key). *)
Record Extraction := {
  singleStyles : list jsstring;
  processedClasses : list jsstring;
  styleMap : jsmap jsstring;
  styleGroups : jsmap StyleGroup
}.

Definition emptyExtraction : Extraction :=
  {| singleStyles := []; processedClasses := []; styleMap := []; styleGroups := [] |}.

(** The text between the first opening brace and the last closing brace
    after it: what the regular expression of [extractCSSRulesFromStyle]
    captures (an opening brace, any text taken greedily, a closing brace). *)
Fixpoint uptoLastBrace (s : jsstring) : option jsstring :=
  match s with
  | [] => None
  | c :: s' =>
      match uptoLastBrace s' with
      | Some inner => Some (c :: inner)
      | None => if c =? 125 then Some [] else None
      end
  end.

Fixpoint braced (s : jsstring) : option jsstring :=
  match s with
  | [] => None
  | c :: s' => if c =? 123 then uptoLastBrace s' else braced s'
  end.

Definition extractCSSRulesFromStyle (styleString : jsstring) : list jsstring :=
  match braced styleString with
  | Some (c :: inner) => filterBoolean (map trim (split 10 (c :: inner)))
  | _ => []
  end.

Section WithRuntime.
Context {rt : Runtime}.

Definition getClassName (n : node) (cssClass : bool) : result jsstring :=
  ClassNames.getClassName n cssClass.

Definition isSolid (p : Paint) : bool := opt_str_eqb (paint_type p) (Some "SOLID").

(** [a || b || 0] on two numbers that may be absent. *)
Definition firstTruthy (x y : option float) : float :=
  if truthy_num x then NodeUtils.num x
  else if truthy_num y then NodeUtils.num y
  else 0%float.

(** [x || d] on a number that may be absent. *)
Definition num_or (x : option float) (d : float) : float :=
  if truthy_num x then NodeUtils.num x else d.

Definition truthyF (x : float) : bool := truthy_num (Some x).

Definition horizontalIs (a : Attrs) (v : jsstring) : bool :=
  match node_constraints a with
  | Some c => opt_str_eqb (constraint_horizontal c) (Some v)
  | None => false
  end.

Definition verticalIs (a : Attrs) (v : jsstring) : bool :=
  match node_constraints a with
  | Some c => opt_str_eqb (constraint_vertical c) (Some v)
  | None => false
  end.

Definition widthOf (a : Attrs) : option float :=
  match node_absoluteBoundingBox a with
  | Some bbox => bbox_width bbox
  | None => None
  end.

Definition heightOf (a : Attrs) : option float :=
  match node_absoluteBoundingBox a with
  | Some bbox => bbox_height bbox
  | None => None
  end.

Definition typeIsTEXT (a : Attrs) : bool := opt_str_eqb (node_type a) (Some "TEXT").

Definition when (b : bool) (rules : list jsstring) : list jsstring :=
  if b then rules else [].

(** The colour of the first paint of a list, when that paint is solid and
    (if [checkVisible]) not hidden, and the colour is not transparent. *)
Definition solidColour (paints : option (list Paint)) (checkVisible : bool) : option jsstring :=
  match paints with
  | Some (paint :: _) =>
      if isSolid paint && (negb checkVisible || NodeUtils.notHidden paint) then
        Some (StyleUtils.rgbaToCSS (paint_color paint) (paint_opacity paint))
      else None
  | _ => None
  end.

Definition visibleColour (c : jsstring) : bool :=
  negb (str_eqb c "rgba(0, 0, 0, 0)") && negb (str_eqb c "transparent").

Definition sizeRules (a : Attrs) : list jsstring :=
  match node_absoluteBoundingBox a with
  | Some bbox =>
      let needsFixedSize := horizontalIs a "FIXED" || verticalIs a "FIXED"
                            || truthy_num (node_minWidth a) || truthy_num (node_minHeight a) in
      (if truthy_num (bbox_width bbox) && (needsFixedSize || typeIsTEXT a)
       then ["  width: " ++ Number_toString (NodeUtils.num (bbox_width bbox)) ++ "px;"]
       else when (truthy_num (bbox_width bbox) && horizontalIs a "STRETCH") ["  width: 100%;"])
      ++
      (if truthy_num (bbox_height bbox) && (needsFixedSize || typeIsTEXT a)
       then ["  height: " ++ Number_toString (NodeUtils.num (bbox_height bbox)) ++ "px;"]
       else when (truthy_num (bbox_height bbox) && verticalIs a "STRETCH") ["  height: 100%;"])
  | None => []
  end.

Definition backgroundRules (a : Attrs) : list jsstring :=
  if negb (typeIsTEXT a) then
    match solidColour (node_fills a) true with
    | Some color => when (visibleColour color) ["  background-color: " ++ color ++ ";"]
    | None => []
    end
  else [].

Definition borderRules (a : Attrs) : list jsstring :=
  match solidColour (node_strokes a) false with
  | Some color =>
      let width := num_or (node_strokeWeight a) 1 in
      ["  border: " ++ Number_toString width ++ "px solid " ++ color ++ ";"]
      ++ when (opt_str_eqb (node_strokeAlign a) (Some "CENTER")) ["  box-sizing: border-box;"]
  | None => []
  end.

Definition radiusRules (a : Attrs) : list jsstring :=
  match node_cornerRadius a with
  | Some radius =>
      when (PrimFloat.ltb 0 radius) ["  border-radius: " ++ StyleUtils.getRadiusVar radius ++ ";"]
  | None => []
  end.

Definition paddingRules (a : Attrs) : list jsstring :=
  let paddingTop := firstTruthy (node_paddingTop a) (node_layoutPaddingTop a) in
  let paddingRight := firstTruthy (node_paddingRight a) (node_layoutPaddingRight a) in
  let paddingBottom := firstTruthy (node_paddingBottom a) (node_layoutPaddingBottom a) in
  let paddingLeft := firstTruthy (node_paddingLeft a) (node_layoutPaddingLeft a) in
  if truthyF paddingTop || truthyF paddingRight || truthyF paddingBottom || truthyF paddingLeft
  then
    if PrimFloat.eqb paddingTop paddingRight && PrimFloat.eqb paddingRight paddingBottom
       && PrimFloat.eqb paddingBottom paddingLeft
    then ["  padding: " ++ StyleUtils.getSpacingVar paddingTop ++ ";"]
    else ["  padding: " ++ StyleUtils.getSpacingVar paddingTop ++ " "
            ++ StyleUtils.getSpacingVar paddingRight ++ " "
            ++ StyleUtils.getSpacingVar paddingBottom ++ " "
            ++ StyleUtils.getSpacingVar paddingLeft ++ ";"]
  else [].

Definition textAlignOf (v : jsstring) : option jsstring :=
  if str_eqb v "LEFT" then Some "left"
  else if str_eqb v "CENTER" then Some "center"
  else if str_eqb v "RIGHT" then Some "right"
  else if str_eqb v "JUSTIFIED" then Some "justify"
  else None.

Definition fontRules (a : Attrs) : list jsstring :=
  match node_style a with
  | Some st =>
      (match fontFamily st with
       | Some (c :: r) =>
           let family := c :: r in
           let quoted := if includes family " " then dquote ++ family ++ dquote else family in
           ["  font-family: " ++ quoted ++ ", sans-serif;"]
       | _ => []
       end)
      ++ when (truthy_num (fontSize st))
              ["  font-size: " ++ Number_toString (NodeUtils.num (fontSize st)) ++ "px;"]
      ++ when (truthy_num (fontWeight st))
              ["  font-weight: " ++ Number_toString (NodeUtils.num (fontWeight st)) ++ ";"]
      ++ (match letterSpacing st with
          | Some spacing => ["  letter-spacing: " ++ Number_toString spacing ++ "px;"]
          | None => []
          end)
      ++ (if truthy_num (lineHeightPx st)
          then ["  line-height: " ++ Number_toString (NodeUtils.num (lineHeightPx st)) ++ "px;"]
          else
            when (truthy_num (lineHeightPercentFontSize st))
                 (let lineHeight :=
                    PrimFloat.mul
                      (PrimFloat.div (NodeUtils.num (lineHeightPercentFontSize st)) 100)
                      (num_or (fontSize st) 16) in
                  ["  line-height: " ++ Number_toString lineHeight ++ "px;"]))
      ++ (if typeIsTEXT a then
            match solidColour (node_fills a) true with
            | Some color => when (visibleColour color) ["  color: " ++ color ++ ";"]
            | None => []
            end
          else [])
      ++ (match node_textAlignHorizontal a with
          | Some (c :: r) =>
              match textAlignOf (c :: r) with
              | Some v => ["  text-align: " ++ v ++ ";"]
              | None => []
              end
          | _ => []
          end)
      ++ (if opt_str_eqb (node_textDecoration a) (Some "UNDERLINE")
          then ["  text-decoration: underline;"]
          else when (opt_str_eqb (node_textDecoration a) (Some "STRIKETHROUGH"))
                    ["  text-decoration: line-through;"])
  | None => []
  end.

Definition justifyOf (v : jsstring) : option jsstring :=
  if str_eqb v "CENTER" then Some "center"
  else if str_eqb v "MAX" then Some "flex-end"
  else if str_eqb v "SPACE_BETWEEN" then Some "space-between"
  else if str_eqb v "SPACE_AROUND" then Some "space-around"
  else None.

Definition alignItemsOf (v : jsstring) : option jsstring :=
  if str_eqb v "CENTER" then Some "center"
  else if str_eqb v "MAX" then Some "flex-end"
  else if str_eqb v "STRETCH" then Some "stretch"
  else if str_eqb v "BASELINE" then Some "baseline"
  else None.

Definition axisRule (property : jsstring) (table : jsstring -> option jsstring)
  (v : option jsstring) : list jsstring :=
  match v with
  | Some (c :: r) =>
      if negb (str_eqb (c :: r) "MIN") then
        match table (c :: r) with
        | Some css => ["  " ++ property ++ ": " ++ css ++ ";"]
        | None => []
        end
      else []
  | _ => []
  end.

Definition layoutRules (n : node) : list jsstring :=
  let a := attrs n in
  let horizontal := opt_str_eqb (node_layoutMode a) (Some "HORIZONTAL") in
  if horizontal || opt_str_eqb (node_layoutMode a) (Some "VERTICAL") then
    ["  display: flex;";
     "  flex-direction: " ++ (if horizontal then "row" else "column") ++ ";"]
    ++ axisRule "justify-content" justifyOf (node_primaryAxisAlignItems a)
    ++ axisRule "align-items" alignItemsOf (node_counterAxisAlignItems a)
    ++ (match node_itemSpacing a with
        | Some spacing =>
            when (PrimFloat.ltb 0 spacing)
                 (let spacingVar :=
                    if PrimFloat.eqb spacing 8 then "var(--spacing-sm)"
                    else if PrimFloat.eqb spacing 16 then "var(--spacing-md)"
                    else if PrimFloat.eqb spacing 24 then "var(--spacing-lg)"
                    else Number_toString spacing ++ "px" in
                  ["  gap: " ++ spacingVar ++ ";"])
        | None => []
        end)
    ++ when (opt_str_eqb (node_layoutWrap a) (Some "WRAP")) ["  flex-wrap: wrap;"]
  else
    match children n with
    | Some l =>
        if (1 <? length l)%nat then
          if NodeUtils.detectHorizontalLayout n
          then ["  display: flex;"; "  flex-direction: row;"]
          else when (2 <? length l)%nat ["  display: flex;"; "  flex-direction: column;"]
        else []
    | None => []
    end.

Definition positionRules (a : Attrs) : list jsstring :=
  if opt_str_eqb (node_position a) (Some "ABSOLUTE") then ["  position: absolute;"]
  else when (opt_str_eqb (node_position a) (Some "RELATIVE")) ["  position: relative;"].

Definition axisConstraintRules (v : option jsstring) (extent : option float)
  (full : jsstring) : list jsstring :=
  if opt_str_eqb v (Some "MIN") then ["  align-self: flex-start;"]
  else if opt_str_eqb v (Some "CENTER") then ["  align-self: center;"]
  else if opt_str_eqb v (Some "MAX") then ["  align-self: flex-end;"]
  else if opt_str_eqb v (Some "STRETCH")
  then "  align-self: stretch;" :: when (truthy_num extent) [full]
  else when (opt_str_eqb v (Some "SCALE") && truthy_num extent) [full].

Definition constraintRules (a : Attrs) : list jsstring :=
  match node_constraints a with
  | Some constraints =>
      axisConstraintRules (constraint_horizontal constraints) (widthOf a) "  width: 100%;"
      ++ axisConstraintRules (constraint_vertical constraints) (heightOf a) "  height: 100%;"
  | None => []
  end.

Definition limitRule (property : jsstring) (x : option float) : list jsstring :=
  when (truthy_num x) ["  " ++ property ++ ": " ++ Number_toString (NodeUtils.num x) ++ "px;"].

Definition tailRules (a : Attrs) : list jsstring :=
  (match node_clipsContent a with
   | Some clips => ["  overflow: " ++ (if clips then "hidden" else "visible") ++ ";"]
   | None => []
   end)
  ++ (match node_opacity a with
      | Some o => when (PrimFloat.ltb o 1) ["  opacity: " ++ Number_toString o ++ ";"]
      | None => []
      end)
  ++ (match node_visible a with
      | Some false => ["  display: none;"]
      | _ => []
      end)
  ++ limitRule "min-width" (node_minWidth a)
  ++ limitRule "max-width" (node_maxWidth a)
  ++ limitRule "min-height" (node_minHeight a)
  ++ limitRule "max-height" (node_maxHeight a)
  ++ when (typeIsTEXT a) ["  white-space: pre-wrap;"; "  word-wrap: break-word;"].

(** The array [rules] of [nodeToCSS], in the order the source pushes to it. *)
Definition rulesOf (n : node) : list jsstring :=
  let a := attrs n in
  let needsBoxSizing := nonEmpty (node_strokes a)
                        || truthy_num (node_paddingTop a) || truthy_num (node_paddingRight a)
                        || truthy_num (node_paddingBottom a)
                        || truthy_num (node_paddingLeft a) in
  when needsBoxSizing ["  box-sizing: border-box;"]
  ++ sizeRules a
  ++ backgroundRules a
  ++ borderRules a
  ++ radiusRules a
  ++ paddingRules a
  ++ fontRules a
  ++ layoutRules n
  ++ positionRules a
  ++ constraintRules a
  ++ tailRules a.

Definition nodeToCSS (n : node) (className : jsstring) : jsstring :=
  match rulesOf n with
  | [] => []
  | rules => className ++ " {" ++ StyleUtils.nl ++ join StyleUtils.nl rules ++ StyleUtils.nl ++ "}"
  end.

(** [getStyleKey]: [None] is [null]. *)
Definition getStyleKey (n : node) : option jsstring :=
  let a := attrs n in
  let colourPart (label : jsstring) (paints : option (list Paint)) (suffix : jsstring) :=
    match paints with
    | Some (paint :: _) =>
        when (isSolid paint && NodeUtils.notHidden paint)
             [label ++ StyleUtils.rgbaToCSS (paint_color paint) (paint_opacity paint) ++ suffix]
    | _ => []
    end in
  let numberPart (label : jsstring) (x : option float) :=
    when (truthy_num x) [label ++ Number_toString (NodeUtils.num x)] in
  let paddingTop := firstTruthy (node_paddingTop a) (node_layoutPaddingTop a) in
  let paddingRight := firstTruthy (node_paddingRight a) (node_layoutPaddingRight a) in
  let paddingBottom := firstTruthy (node_paddingBottom a) (node_layoutPaddingBottom a) in
  let paddingLeft := firstTruthy (node_paddingLeft a) (node_layoutPaddingLeft a) in
  let parts :=
    numberPart "w:" (widthOf a)
    ++ numberPart "h:" (heightOf a)
    ++ colourPart "bg:" (node_fills a) []
    ++ (if typeIsTEXT a then
          (match node_style a with
           | Some st =>
               (match fontFamily st with
                | Some (c :: r) => ["font:" ++ c :: r]
                | _ => []
                end)
               ++ numberPart "size:" (fontSize st)
               ++ numberPart "weight:" (fontWeight st)
               ++ numberPart "spacing:" (letterSpacing st)
               ++ numberPart "line:" (lineHeightPx st)
           | None => []
           end)
          ++ colourPart "color:" (node_fills a) []
        else [])
    ++ numberPart "radius:" (node_cornerRadius a)
    ++ (match node_layoutMode a with
        | Some (c :: r) => ["layout:" ++ c :: r]
        | _ => []
        end)
    ++ colourPart "border:" (node_strokes a)
         ("-" ++ Number_toString (num_or (node_strokeWeight a) 1))
    ++ when (truthyF paddingTop || truthyF paddingRight || truthyF paddingBottom
             || truthyF paddingLeft)
            ["pad:" ++ Number_toString paddingTop ++ "-" ++ Number_toString paddingRight
               ++ "-" ++ Number_toString paddingBottom ++ "-" ++ Number_toString paddingLeft] in
  match parts with
  | [] => None
  | _ => Some (join "|" parts)
  end.

(** The work of [extractStyles] on one node, its class name known. *)
Definition register (n : node) (className : jsstring) (e : Extraction) : Extraction :=
  if match className with [] => false | _ => true end
     && negb (mem className (processedClasses e))
  then
    let e1 := {| singleStyles := singleStyles e;
                 processedClasses := processedClasses e ++ [className];
                 styleMap := styleMap e;
                 styleGroups := styleGroups e |} in
    if typeIsTEXT (attrs n)
       || match node_absoluteBoundingBox (attrs n) with Some _ => true | None => false end
    then
      let style := nodeToCSS n className in
      if match style with [] => false | _ => true end
         && (length className + 5 <? length (trim style))%nat
      then
        let styleKey := getStyleKey n in
        if truthy_str styleKey && map_has (styleMap e1) styleKey then
          let existingClass := match map_get (styleMap e1) styleKey with
                               | Some c => c
                               | None => []
                               end in
          let groups1 :=
            if negb (map_has (styleGroups e1) styleKey)
            then map_set (styleGroups e1) styleKey
                   {| sg_classes := [existingClass]; sg_style := style |}
            else styleGroups e1 in
          let groups2 :=
            match map_get groups1 styleKey with
            | Some group =>
                if negb (mem className (sg_classes group))
                then map_set groups1 styleKey
                       {| sg_classes := sg_classes group ++ [className];
                          sg_style := sg_style group |}
                else groups1
            | None => groups1
            end in
          {| singleStyles := singleStyles e1;
             processedClasses := processedClasses e1;
             styleMap := styleMap e1;
             styleGroups := groups2 |}
        else if truthy_str styleKey then
          {| singleStyles := singleStyles e1;
             processedClasses := processedClasses e1;
             styleMap := map_set (styleMap e1) styleKey className;
             styleGroups := map_set (styleGroups e1) styleKey
                              {| sg_classes := [className]; sg_style := style |} |}
        else
          {| singleStyles := singleStyles e1 ++ [style];
             processedClasses := processedClasses e1;
             styleMap := styleMap e1;
             styleGroups := styleGroups e1 |}
      else e1
    else e1
  else e.

(** [forEach] with a callback that may throw. *)
Fixpoint foldM {A S} (f : A -> S -> result S) (l : list A) (s : S) : result S :=
  match l with
  | [] => Ok s
  | x :: l' => s' <- f x s ;; foldM f l' s'
  end.

(** [extractStyles]: the four collections are updated in place; the
    embedding passes them along. *)
Fixpoint extractStyles (n : node) (e : Extraction) : result Extraction :=
  match n with
  | Node a cs =>
      className <- getClassName n true ;;
      let e' := register n className e in
      match cs with
      | Some l => foldM extractStyles l e'
      | None => Ok e'
      end
  end.

(** The rule of one style group in the style sheet, if it has one. *)
Definition groupRule (group : StyleGroup) : list jsstring :=
  if (1 <? length (sg_classes group))%nat then
    let selector := join ", " (sg_classes group) in
    let cssRules := extractCSSRulesFromStyle (sg_style group) in
    match cssRules with
    | [] => []
    | _ => [selector ++ " {" ++ StyleUtils.nl ++ join StyleUtils.nl cssRules
              ++ StyleUtils.nl ++ "}"]
    end
  else if (length (sg_classes group) =? 1)%nat then [sg_style group]
  else [].

(** The array [styles] of [generate] before it is joined. *)
Definition styleBlocks (e : Extraction) : list jsstring :=
  [StyleUtils.getBaseResetStyles]
  ++ flat_map (fun entry => groupRule (snd entry)) (styleGroups e)
  ++ singleStyles e.

(** [generate(node, componentName)]: the component name is passed on as
    [prefix] and never read. *)
Definition generate (n : node) (componentName : jsstring) : result jsstring :=
  e <- extractStyles n emptyExtraction ;;
  Ok (join (StyleUtils.nl ++ StyleUtils.nl) (styleBlocks e)).

End WithRuntime.
End CSSTransformer.

(* ================================================================== *)
(** ** templates/ReactTemplateGenerator.js *)
(* ================================================================== *)

Module ReactTemplateGenerator.
Import InteractiveElementAnalyzer ComponentAnalyzer.

Definition nl : jsstring := StyleUtils.nl.

(** [Set.prototype.has] on node identifiers. *)
Definition has_key (ids : list key) (k : key) : bool := existsb (key_eqb k) ids.

Definition componentImports (componentName : jsstring) (components : jsmap ComponentInfo)
  (isSubComponent : bool) (usedComponentIds : list key) : list jsstring :=
  flat_map
    (fun entry : key * ComponentInfo =>
       let (componentId, componentInfo) := entry in
       if negb (has_key usedComponentIds componentId) then []
       else
         let subComponentName := ci_name componentInfo in
         if str_eqb subComponentName componentName then []
         else
           let importPath :=
             if isSubComponent
             then "../" ++ subComponentName ++ "/" ++ subComponentName
             else "./components/" ++ subComponentName ++ "/" ++ subComponentName in
           ["import { " ++ subComponentName ++ " } from '" ++ importPath ++ "';"])
    components.

(** A default value in a template literal. *)
Definition printDefault (v : DefaultValue) : jsstring :=
  match v with
  | DefaultString s => "'" ++ s ++ "'"
  | DefaultBoolean true => "true"
  | DefaultBoolean false => "false"
  end.

(** The aggregated form: one state object that holds every variable. *)
Definition objectState (componentName : jsstring) (stateVariables : list StateVariable)
  (useTypeScript : bool) : jsstring :=
  let stateType := if useTypeScript then "<" ++ componentName ++ "State>" else [] in
  let stateInit :=
    join ("," ++ nl)
      (map (fun v =>
              let safeId := NameUtils.sanitizeVariableName (sv_id v) in
              "    " ++ safeId ++ ": " ++ printDefault (sv_defaultValue v))
           stateVariables) in
  "  const [state, setState] = useState" ++ stateType ++ "({" ++ nl ++ stateInit ++ nl ++ "  });".

(** The independent form: one state slot for each variable. *)
Definition separateState (stateVariables : list StateVariable) (useTypeScript : bool)
  : jsstring :=
  join nl
    (map (fun v =>
            let safeId := NameUtils.sanitizeVariableName (sv_id v) in
            let typeAnnotation := if useTypeScript then "<" ++ sv_type v ++ ">" else [] in
            "  const [" ++ safeId ++ ", set" ++ NameUtils.toPascalCase safeId ++ "] = useState"
              ++ typeAnnotation ++ "(" ++ printDefault (sv_defaultValue v) ++ ");")
         stateVariables).

Definition stateDeclarations (componentName : jsstring) (stateVariables : list StateVariable)
  (useObjectState useTypeScript : bool) : jsstring :=
  match stateVariables with
  | [] => []
  | _ =>
      if useObjectState then objectState componentName stateVariables useTypeScript
      else separateState stateVariables useTypeScript
  end.

(** [Array.from(interactiveElements.values()).find(el => el.id === h.id)]. *)
Definition elementWithId (interactiveElements : jsmap InteractiveElement) (id : jsstring)
  : option InteractiveElement :=
  find (fun el => str_eqb (ie_id el) id) (map snd interactiveElements).

Definition handler (componentName : jsstring)
  (interactiveElements : jsmap InteractiveElement) (stateVariables : list StateVariable)
  (useObjectState needsOptimization : bool) (h : EventHandler) : jsstring :=
  let stateVar := find (fun v => str_eqb (sv_id v) (eh_id h)) stateVariables in
  let interactiveElement := elementWithId interactiveElements (eh_id h) in
  let handlerName := "handle" ++ NameUtils.toPascalCase (eh_id h) in
  let useCallbackWrapper := if needsOptimization then "useCallback(" else [] in
  let useCallbackDeps := if needsOptimization then ", [])" else [] in
  let safeId := NameUtils.sanitizeVariableName (eh_id h) in
  let toggleSetter :=
    if useObjectState
    then "setState((prev: " ++ componentName ++ "State) => ({ ...prev, " ++ safeId
           ++ ": !prev." ++ safeId ++ " }))"
    else "set" ++ NameUtils.toPascalCase (eh_id h) ++ "(prev => !prev)" in
  let body (name params setter : jsstring) :=
    "  const " ++ name ++ " = " ++ useCallbackWrapper ++ "(" ++ params ++ ") => {" ++ nl
      ++ "    " ++ setter ++ nl ++ "  }" ++ useCallbackDeps ++ ";" in
  match option_map ie_type interactiveElement with
  | Some input =>
      match stateVar with
      | None => []
      | Some _ =>
          let setterName :=
            if useObjectState
            then "setState((prev: " ++ componentName ++ "State) => ({ ...prev, " ++ safeId
                   ++ ": e.target.value }))"
            else "set" ++ NameUtils.toPascalCase (eh_id h) ++ "(e.target.value)" in
          body (handlerName ++ "Change") "e: React.ChangeEvent<HTMLInputElement>"
               (setterName ++ ";")
      end
  | Some accordion | Some toggle =>
      match stateVar with
      | None => []
      | Some _ => body (handlerName ++ "Toggle") [] (toggleSetter ++ ";")
      end
  | Some button =>
      body handlerName []
           ("// TODO: " ++ [0x5b9e; 0x73b0; 0x6309; 0x94ae; 0x70b9; 0x51fb; 0x903b; 0x8f91])
  | None =>
      match stateVar with
      | None =>
          body handlerName []
               ("// TODO: " ++ [0x5b9e; 0x73b0; 0x4e8b; 0x4ef6; 0x5904; 0x7406; 0x903b; 0x8f91])
      | Some _ => body handlerName [] (toggleSetter ++ ";")
      end
  end.

Definition needsOptimization (stateVariables : list StateVariable)
  (eventHandlers : list EventHandler) : bool :=
  (3 <? length stateVariables)%nat || (3 <? length eventHandlers)%nat.

Definition imports (componentName : jsstring) (stateVariables : list StateVariable)
  (eventHandlers : list EventHandler) (components : jsmap ComponentInfo)
  (useObjectState useTypeScript isSubComponent : bool) (usedComponentIds : list key)
  : jsstring :=
  let imported := componentImports componentName components isSubComponent usedComponentIds in
  let componentImportsStr :=
    match imported with
    | [] => []
    | _ => join nl imported ++ nl
    end in
  let optimized := needsOptimization stateVariables eventHandlers in
  let useMemoImport := if optimized then ", useMemo" else [] in
  let useCallbackImport := if optimized then ", useCallback" else [] in
  let reactImport :=
    "import React, { useState" ++ useMemoImport ++ useCallbackImport ++ " } from 'react';"
      ++ nl ++ componentImportsStr ++ "import './" ++ componentName ++ ".css';" in
  if useTypeScript
  then reactImport ++ nl ++ "import type { " ++ componentName ++ "Props"
         ++ (if useObjectState then ", " ++ componentName ++ "State" else [])
         ++ " } from './" ++ componentName ++ ".types';"
  else reactImport.

Definition componentSignature (componentName : jsstring) (useTypeScript : bool) : jsstring :=
  if useTypeScript
  then "const " ++ componentName ++ ": React.FC<" ++ componentName ++ "Props> = () => {"
  else "const " ++ componentName ++ " = () => {".

Definition handlers (componentName : jsstring)
  (interactiveElements : jsmap InteractiveElement)
  (stateVariables : list StateVariable) (eventHandlers : list EventHandler)
  (useObjectState : bool) : jsstring :=
  join (nl ++ nl)
    (JSXTransformer.filterBoolean
       (map (handler componentName interactiveElements stateVariables useObjectState
                     (needsOptimization stateVariables eventHandlers))
            eventHandlers)).

Definition exportStatement (componentName : jsstring) (isSubComponent : bool) : jsstring :=
  if isSubComponent
  then "export { " ++ componentName ++ " };" ++ nl ++ "export default " ++ componentName ++ ";"
  else "export default " ++ componentName ++ ";".

(** [text ? text + '\n' : '']. *)
Definition section (text : jsstring) : jsstring :=
  match text with
  | [] => []
  | _ => text ++ nl
  end.

Definition generate (componentName jsx : jsstring)
  (interactiveElements : jsmap InteractiveElement)
  (stateVariables : list StateVariable) (eventHandlers : list EventHandler)
  (components : jsmap ComponentInfo) (useObjectState useTypeScript isSubComponent : bool)
  (usedComponentIds : list key) : jsstring :=
  let stateSection :=
    section (stateDeclarations componentName stateVariables useObjectState useTypeScript) in
  let handlersSection :=
    section (handlers componentName interactiveElements stateVariables eventHandlers
                      useObjectState) in
  let formattedJSX := JSXTransformer.format jsx in
  imports componentName stateVariables eventHandlers components useObjectState useTypeScript
          isSubComponent usedComponentIds
    ++ nl ++ nl
    ++ componentSignature componentName useTypeScript ++ nl
    ++ stateSection ++ handlersSection ++ "  return (" ++ nl
    ++ formattedJSX ++ nl
    ++ "  );" ++ nl
    ++ "};" ++ nl ++ nl
    ++ exportStatement componentName isSubComponent ++ nl.

End ReactTemplateGenerator.

(* ================================================================== *)
(** ** templates/HTMLTemplateGenerator.js, templates/VueTemplateGenerator.js *)
(* ================================================================== *)

(** The files a generation returns: an object from paths to contents, its
    keys in insertion order. *)
Definition Files := list (jsstring * jsstring).

(** [result[path] = content]. *)
Fixpoint file_set (files : Files) (path content : jsstring) : Files :=
  match files with
  | [] => [(path, content)]
  | (p, c) :: files' =>
      if str_eqb p path then (p, content) :: files' else (p, c) :: file_set files' path content
  end.

(** [Object.assign(result, subResult)]. *)
Definition file_assign (files sub : Files) : Files :=
  fold_left (fun acc entry => file_set acc (fst entry) (snd entry)) sub files.

Module HTMLTemplateGenerator.

Definition generate : Files :=
  [("index.html",
    join StyleUtils.nl
      ["<!DOCTYPE html>"; "<html>"; "<head>"; "<title>Figma Design</title>"; "</head>";
       "<body>"; "</body>"; "</html>"])].

End HTMLTemplateGenerator.

Module VueTemplateGenerator.

Definition generate : Files :=
  [("Component.vue",
    join StyleUtils.nl
      ["<template>"; "</template>"; "<script>"; "export default {}"; "</script>";
       "<style scoped>"; "</style>"])].

End VueTemplateGenerator.

(* ================================================================== *)
(** ** generators/CodeGenerator.js *)
(* ================================================================== *)

Module CodeGenerator.
Import InteractiveElementAnalyzer ComponentAnalyzer JSXTransformer.

Definition nl : jsstring := StyleUtils.nl.

(** The generation context: the six fields [resetState], [saveState] and
    [restoreState] deal with. *)
Record Context := {
  interactiveElements : jsmap InteractiveElement;
  stateVariables : list StateVariable;
  eventHandlers : list EventHandler;
  components : jsmap ComponentInfo;
  componentCounter : N;
  useObjectState : bool
}.

(** A generator object: its configuration, its context, its markup
    transformer ([null] until the first generation). The style transformer has
    no field. *)
Record CodeGenerator := {
  format : jsstring;
  outputDir : jsstring;
  cssFramework : jsstring;
  useTypeScript : bool;
  componentize : bool;
  componentName : option jsstring;
  context : Context;
  jsxTransformer : option JSXTransformer.JSXTransformer
}.

Definition emptyContext : Context :=
  {| interactiveElements := []; stateVariables := []; eventHandlers := [];
     components := []; componentCounter := 0; useObjectState := false |}.

Definition withContext (g : CodeGenerator) (c : Context) : CodeGenerator :=
  {| format := format g; outputDir := outputDir g; cssFramework := cssFramework g;
     useTypeScript := useTypeScript g; componentize := componentize g;
     componentName := componentName g; context := c; jsxTransformer := jsxTransformer g |}.

Definition withTransformer (g : CodeGenerator) (t : JSXTransformer.JSXTransformer)
  : CodeGenerator :=
  {| format := format g; outputDir := outputDir g; cssFramework := cssFramework g;
     useTypeScript := useTypeScript g; componentize := componentize g;
     componentName := componentName g; context := context g; jsxTransformer := Some t |}.

(** [new CodeGenerator(config)], the fields of [config] given. *)
Definition constructor (format' : option jsstring) (useTypeScript' componentize' : bool)
  (componentName' : option jsstring) : CodeGenerator :=
  {| format := str_or format' "react"; outputDir := "./output"; cssFramework := "none";
     useTypeScript := useTypeScript'; componentize := componentize';
     componentName := if truthy_str componentName' then componentName' else None;
     context := emptyContext; jsxTransformer := None |}.

Definition resetState (g : CodeGenerator) : CodeGenerator := withContext g emptyContext.

(** [saveState]: copies of the four collections, the counter, the flag. *)
Definition saveState (g : CodeGenerator) : Context := context g.

Definition restoreState (g : CodeGenerator) (state : Context) : CodeGenerator :=
  withContext g state.

Section WithRuntime.
Context {rt : Runtime}.

Definition analyzeInteractiveElements (g : CodeGenerator) (n : node) : CodeGenerator :=
  let c := context g in
  let analyzed :=
    analyze n {| InteractiveElementAnalyzer.interactiveElements := interactiveElements c;
                 InteractiveElementAnalyzer.stateVariables := stateVariables c;
                 InteractiveElementAnalyzer.eventHandlers := eventHandlers c |} in
  withContext g
    {| interactiveElements := InteractiveElementAnalyzer.interactiveElements analyzed;
       stateVariables := InteractiveElementAnalyzer.stateVariables analyzed;
       eventHandlers := InteractiveElementAnalyzer.eventHandlers analyzed;
       components := components c;
       componentCounter := componentCounter c;
       useObjectState := (3 <? length (InteractiveElementAnalyzer.stateVariables analyzed))%nat |}.

(** The call of [ComponentAnalyzer.identify] on the generator's map and counter. *)
Definition identifyComponents (g : CodeGenerator) (n : node) (parentId : ParentId)
  : CodeGenerator :=
  let c := context g in
  let '(components', counter') := identify n 0 parentId (components c, componentCounter c) in
  withContext g
    {| interactiveElements := interactiveElements c;
       stateVariables := stateVariables c;
       eventHandlers := eventHandlers c;
       components := components';
       componentCounter := counter';
       useObjectState := useObjectState c |}.

Definition setUseObjectState (g : CodeGenerator) (b : bool) : CodeGenerator :=
  let c := context g in
  withContext g
    {| interactiveElements := interactiveElements c;
       stateVariables := stateVariables c;
       eventHandlers := eventHandlers c;
       components := components c;
       componentCounter := componentCounter c;
       useObjectState := b |}.

Definition newTransformer (g : CodeGenerator) : JSXTransformer.JSXTransformer :=
  {| jsx_interactiveElements := interactiveElements (context g);
     jsx_components := components (context g);
     jsx_useObjectState := useObjectState (context g) |}.

(** [Set.prototype.add]. *)
Definition add_key (ids : list key) (k : key) : list key :=
  if ReactTemplateGenerator.has_key ids k then ids else ids ++ [k].

Fixpoint collectUsedComponents (g : CodeGenerator) (n : node) (usedIds : list key)
  : list key :=
  match n with
  | Node a cs =>
      let usedIds' :=
        if map_has (components (context g)) (node_id a) then add_key usedIds (node_id a)
        else usedIds in
      match cs with
      | Some l => fold_left (fun acc child => collectUsedComponents g child acc) l usedIds'
      | None => usedIds'
      end
  end.

Definition generateTypesFile (g : CodeGenerator) (componentName : jsstring) : jsstring :=
  let c := context g in
  let stateInterface :=
    match stateVariables c with
    | [] => []
    | vars =>
        "export interface " ++ componentName ++ "State {" ++ nl
          ++ join nl
               (map (fun v => "  " ++ NameUtils.sanitizeVariableName (sv_id v) ++ ": "
                                ++ sv_type v ++ ";")
                    vars)
          ++ nl ++ "}" ++ nl ++ nl
    end in
  "/**" ++ nl
    ++ " * " ++ componentName ++ " " ++ [0x7ec4; 0x4ef6; 0x5c5e; 0x6027] ++ nl
    ++ " */" ++ nl
    ++ "export interface " ++ componentName ++ "Props {" ++ nl
    ++ "  className?: string;" ++ nl
    ++ "  // TODO: " ++ [0x6839; 0x636e; 0x5b9e; 0x9645; 0x9700; 0x6c42; 0x6dfb; 0x52a0]
    ++ "props" ++ nl
    ++ "}" ++ nl ++ nl
    ++ stateInterface ++ "/**" ++ nl
    ++ " * " ++ componentName ++ " "
    ++ [0x7ec4; 0x4ef6; 0x4e8b; 0x4ef6; 0x5904; 0x7406; 0x5668; 0x7c7b; 0x578b] ++ nl
    ++ " */" ++ nl
    ++ "export interface " ++ componentName ++ "Handlers {" ++ nl
    ++ join nl
         (map (fun h =>
                 match option_map ie_type
                         (ReactTemplateGenerator.elementWithId (interactiveElements c) (eh_id h))
                 with
                 | Some input =>
                     "  handle" ++ NameUtils.toPascalCase (eh_id h)
                       ++ "Change: (e: React.ChangeEvent<HTMLInputElement>) => void;"
                 | _ => "  handle" ++ NameUtils.toPascalCase (eh_id h) ++ ": () => void;"
                 end)
              (eventHandlers c))
    ++ nl ++ "}" ++ nl.

Definition extension (g : CodeGenerator) : jsstring :=
  if useTypeScript g then "tsx" else "jsx".

Definition unitPath (name ext : jsstring) : jsstring :=
  "components/" ++ name ++ "/" ++ name ++ "." ++ ext.

(** The call of [ReactTemplateGenerator.generate] on the generator's context. *)
Definition assemble (g : CodeGenerator) (name jsx : jsstring) (isSubComponent : bool)
  (usedComponentIds : list key) : jsstring :=
  let c := context g in
  ReactTemplateGenerator.generate name jsx (interactiveElements c) (stateVariables c)
    (eventHandlers c) (components c) (useObjectState c) (useTypeScript g) isSubComponent
    usedComponentIds.

(** What a call of [generateSubComponent] leaves behind. *)
Record SubGeneration := {
  returned : result Files;
  (** the generator when the call returns or throws *)
  generator : CodeGenerator;
  (** the content of the [Map] object that was [this.components] when the
      call began: [resetState] clears that object and the nested analysis
      fills it, and [restoreState] puts another object (the copy made by
      [saveState]) in the field *)
  enteredMap : jsmap ComponentInfo
}.

(** Lines 183 to 210 of [generateSubComponent]: the generator once the
    context is reset, the sub-tree analysed and the transformer replaced. *)
Definition enterSubComponent (g : CodeGenerator) (componentInfo : ComponentInfo)
  : CodeGenerator :=
  let g1 := resetState g in
  let g2 := analyzeInteractiveElements g1 (ci_node componentInfo) in
  let g3 :=
    if componentize g2
    then identifyComponents g2 (ci_node componentInfo)
           (ParentKey (node_id (attrs (ci_node componentInfo))))
    else g2 in
  let g4 := setUseObjectState g3 (3 <? length (stateVariables (context g3)))%nat in
  withTransformer g4 (newTransformer g4).

(** The files of a sub-component, from its markup and its style sheet. *)
Definition subComponentFiles (g : CodeGenerator) (componentInfo : ComponentInfo)
  (subComponentName subJsx subCss : jsstring) : Files :=
  let subUsedComponentIds := collectUsedComponents g (ci_node componentInfo) [] in
  let result0 : Files :=
    file_set
      (file_set [] (unitPath subComponentName (extension g))
         (assemble g subComponentName subJsx true subUsedComponentIds))
      (unitPath subComponentName "css") subCss in
  if useTypeScript g
  then file_set result0 (unitPath subComponentName "types.ts")
         (generateTypesFile g subComponentName)
  else result0.

(** [generateSubComponent(componentInfo, subComponentName)]. There is no
    [try]: when a callee throws, the statements after it do not run. *)
Definition generateSubComponent (g : CodeGenerator) (componentInfo : ComponentInfo)
  (subComponentName : jsstring) : SubGeneration :=
  let originalState := saveState g in
  let nested := enterSubComponent g componentInfo in
  let thrown (e : error) :=
    {| returned := Throw e; generator := nested; enteredMap := components (context nested) |} in
  match
    match jsxTransformer nested with
    | Some t => transform t (ci_node componentInfo) 1 subComponentName
    | None => Throw (TypeError "Cannot read properties of null (reading 'transform')")
    end
  with
  | Throw e => thrown e
  | Ok subJsx =>
      match CSSTransformer.generate (ci_node componentInfo) subComponentName with
      | Throw e => thrown e
      | Ok subCss =>
          {| returned :=
               Ok (subComponentFiles nested componentInfo subComponentName subJsx subCss);
             generator := restoreState nested originalState;
             enteredMap := components (context nested) |}
      end
  end.

(** The three tests of the emission loop that end a turn early. *)
Definition skipped (rootNodeId : key) (usedComponentIds : list key)
  (generatedComponents : list jsstring) (entry : key * ComponentInfo) : bool :=
  key_eqb (fst entry) rootNodeId
  || negb (ReactTemplateGenerator.has_key usedComponentIds (fst entry))
  || mem (ci_name (snd entry)) generatedComponents.

(** The emission loop over a [Map] object that is no longer the one in
    [this.components]: nothing writes to it while the loop runs. *)
Fixpoint emitDetached (entries : jsmap ComponentInfo) (rootNodeId : key)
  (usedComponentIds : list key) (generatedComponents : list jsstring)
  (g : CodeGenerator) (files : Files) : result Files * CodeGenerator :=
  match entries with
  | [] => (Ok files, g)
  | entry :: rest =>
      if skipped rootNodeId usedComponentIds generatedComponents entry
      then emitDetached rest rootNodeId usedComponentIds generatedComponents g files
      else
        let subComponentName := ci_name (snd entry) in
        let sub := generateSubComponent g (snd entry) subComponentName in
        match returned sub with
        | Ok subResult =>
            emitDetached rest rootNodeId usedComponentIds
              (generatedComponents ++ [subComponentName]) (generator sub)
              (file_assign files subResult)
        | Throw e => (Throw e, generator sub)
        end
  end.

(** The emission loop of [generateReact], [for (... of
    this.components.entries())]. The iterator walks the [Map] object that is
    in [this.components] when the loop starts, and a [Map] iterator is live:
    [clear] empties the entries without moving the iterator, and entries set
    afterwards are visited. The first call of [generateSubComponent] clears
    and refills that very object, so the loop goes on over what the call left
    in it ([enteredMap]); from then on the field holds another object. *)
Fixpoint emitLive (entries : jsmap ComponentInfo) (rootNodeId : key)
  (usedComponentIds : list key) (generatedComponents : list jsstring)
  (g : CodeGenerator) (files : Files) : result Files * CodeGenerator :=
  match entries with
  | [] => (Ok files, g)
  | entry :: rest =>
      if skipped rootNodeId usedComponentIds generatedComponents entry
      then emitLive rest rootNodeId usedComponentIds generatedComponents g files
      else
        let subComponentName := ci_name (snd entry) in
        let sub := generateSubComponent g (snd entry) subComponentName in
        match returned sub with
        | Ok subResult =>
            emitDetached (enteredMap sub) rootNodeId usedComponentIds
              (generatedComponents ++ [subComponentName]) (generator sub)
              (file_assign files subResult)
        | Throw e => (Throw e, generator sub)
        end
  end.

(** What a call of [generate] leaves behind. *)
Record Generation := {
  output : result Files;
  (** the generator after the call *)
  after : CodeGenerator;
  (** the caller's document after the call: [preprocessNode] writes to it *)
  document : node
}.

(** The name of the root unit. *)
Definition rootName (g : CodeGenerator) (processedData : node) : jsstring :=
  if truthy_str (componentName g)
  then NameUtils.toPascalCase (str_or (componentName g) [])
  else NameUtils.toPascalCase (str_or (node_name (attrs processedData)) "Component").

(** Lines 66 to 95 of [generateReact]: the generator once the context is
    reset, the document analysed and the transformer replaced. *)
Definition enterRoot (g : CodeGenerator) (processedData : node) : CodeGenerator :=
  let g1 := resetState g in
  let g2 := analyzeInteractiveElements g1 processedData in
  let g3 := if componentize g2 then identifyComponents g2 processedData NoParent else g2 in
  withTransformer g3 (newTransformer g3).

(** The files of the root unit, from its markup and its style sheet. *)
Definition rootFiles (g : CodeGenerator) (processedData : node)
  (componentName jsx css : jsstring) : Files :=
  let typesFile :=
    if useTypeScript g then Some (generateTypesFile g componentName) else None in
  let usedComponentIds :=
    if componentize g then collectUsedComponents g processedData [] else [] in
  let path (ext : jsstring) :=
    if componentize g then unitPath componentName ext else componentName ++ "." ++ ext in
  let result0 : Files :=
    file_set
      (file_set [] (path (extension g))
         (assemble g componentName jsx (componentize g) usedComponentIds))
      (path "css") css in
  match typesFile with
  | Some (c :: r) => file_set result0 (path "types.ts") (c :: r)
  | _ => result0
  end.

Definition generateReact (g : CodeGenerator) (figmaData : node) : Generation :=
  let processedData := NodeUtils.preprocessObject figmaData None in
  let componentName := rootName g processedData in
  let g4 := enterRoot g processedData in
  let thrown (e : error) := {| output := Throw e; after := g4; document := processedData |} in
  match
    match jsxTransformer g4 with
    | Some t => transform t processedData 1 componentName
    | None => Throw (TypeError "Cannot read properties of null (reading 'transform')")
    end
  with
  | Throw e => thrown e
  | Ok jsx =>
      match CSSTransformer.generate processedData componentName with
      | Throw e => thrown e
      | Ok css =>
          let files := rootFiles g4 processedData componentName jsx css in
          let rootNodeId := node_id (attrs processedData) in
          let usedComponentIds :=
            if componentize g4 then collectUsedComponents g4 processedData [] else [] in
          if componentize g4 && negb (length (components (context g4)) =? 0)%nat then
            let '(out, g5) :=
              emitLive (components (context g4)) rootNodeId usedComponentIds [componentName]
                       g4 files in
            {| output := out; after := g5; document := processedData |}
          else {| output := Ok files; after := g4; document := processedData |}
      end
  end.

Definition generateHTML (g : CodeGenerator) (figmaData : node) : Generation :=
  {| output := Ok HTMLTemplateGenerator.generate; after := g; document := figmaData |}.

Definition generateVue (g : CodeGenerator) (figmaData : node) : Generation :=
  {| output := Ok VueTemplateGenerator.generate; after := g; document := figmaData |}.

(** [generate(figmaData)]. *)
Definition generate (g : CodeGenerator) (figmaData : node) : Generation :=
  let f := String_toLowerCase (format g) in
  if str_eqb f "react" then generateReact g figmaData
  else if str_eqb f "html" then generateHTML g figmaData
  else if str_eqb f "vue" then generateVue g figmaData
  else generateReact g figmaData.

End WithRuntime.
End CodeGenerator.

(* ================================================================== *)
(** ** A runtime to compute with *)
(* ================================================================== *)

Module Reference.

(** [toLowerCase] on text whose cased letters are Basic Latin. *)
Definition toLowerCase (s : jsstring) : jsstring := map lowerUnit s.

(** The digits of the fraction [r / 2^k], [0 <= r < 2^k], in full. *)
Fixpoint fractionDigits (fuel : nat) (r : Z) (k : Z) : jsstring :=
  match fuel with
  | O => []
  | S fuel' =>
      if (r =? 0)%Z then []
      else
        let r10 := (r * 10)%Z in
        (48 + Z.to_N (Z.shiftr r10 k)) :: fractionDigits fuel' (Z.land r10 (Z.ones k)) k
  end.

(** The exact value of a number in decimal. It is what a template literal
    prints for an integer below 2^53 and for a fraction such as 0.5; in
    general the runtime prints the shortest digits that read back as the
    number. *)
Definition printNumber (x : float) : jsstring :=
  match Prim2SF x with
  | S754_zero _ => "0"
  | S754_infinity false => "Infinity"
  | S754_infinity true => "-Infinity"
  | S754_nan => "NaN"
  | S754_finite negative m e =>
      let sign : jsstring := if negative then "-" else [] in
      if (0 <=? e)%Z then sign ++ decimal (Z.to_N (Z.shiftl (Zpos m) e))
      else
        let k := (- e)%Z in
        let whole := Z.shiftr (Zpos m) k in
        let r := Z.land (Zpos m) (Z.ones k) in
        sign ++ decimal (Z.to_N whole)
          ++ (if (r =? 0)%Z then [] else "." ++ fractionDigits (Z.to_nat k) r k)
  end.

(** [Math.round]: the integer nearest to the number, a tie going up. *)
Definition round (x : float) : float :=
  match Prim2SF x with
  | S754_finite negative m e =>
      if (0 <=? e)%Z then x
      else
        let k := (- e)%Z in
        let twice := (if negative then - Zpos m else Zpos m)%Z in
        let rounded := Z.shiftr (2 * twice + Z.shiftl 1 k)%Z (k + 1) in
        let magnitude := PrimFloat.of_uint63 (Uint63.of_Z (Z.abs rounded)) in
        if negative then PrimFloat.opp magnitude else magnitude
  | _ => x
  end.

#[export] Instance runtime : Runtime :=
  {| String_toLowerCase := toLowerCase;
     Number_toString := printNumber;
     Math_round := round |}.

End Reference.

(* ================================================================== *)
(** ** Vocabulary of the properties *)
(* ================================================================== *)

(** The bounding box a child reads from its parent. *)
Definition parentBox (parentNode : option node) : option BoundingBox :=
  match parentNode with
  | Some p => node_absoluteBoundingBox (attrs p)
  | None => None
  end.

Section MarkupVocabulary.
Context {rt : Runtime}.
Import ComponentAnalyzer JSXTransformer.

(** The body of [transform] on a node, the recursive calls abstracted. *)
Definition transformBody (t : JSXTransformer) (a : Attrs) (cs : option (list node))
  (depth : nat) (currentComponentName : jsstring)
  (recur : node -> nat -> result jsstring) : result jsstring :=
  let n := Node a cs in
  let rendered : result jsstring :=
    match cs with
    | Some (c :: l) =>
        parts <- mapM (fun child => recur child (S depth)) (c :: l) ;;
        Ok (StyleUtils.nl ++ join StyleUtils.nl parts ++ StyleUtils.nl
              ++ repeat_str "  " depth)
    | _ => Ok []
    end in
  let render : result jsstring :=
    match map_get (jsx_components t) (node_id a) with
    | Some componentInfo =>
        if str_eqb (ci_name componentInfo) currentComponentName
        then renderElement t n depth rendered
        else componentTag n depth (ci_name componentInfo)
    | None => renderElement t n depth rendered
    end in
  match cs with
  | Some [only] => if shouldSkipNode t n then recur only depth else render
  | _ => render
  end.

(** A transformer whose [components] map has lost the entry of a node. *)
Definition unregister (t : JSXTransformer) (k : key) : JSXTransformer :=
  {| jsx_interactiveElements := jsx_interactiveElements t;
     jsx_components := map_delete (jsx_components t) k;
     jsx_useObjectState := jsx_useObjectState t |}.

(** A group with no fill, no stroke, no corner radius, no opacity below 1,
    that is not an interactive element. *)
Definition plainGroup (t : JSXTransformer) (a : Attrs) : Prop :=
  option_map String_toLowerCase (node_type a) = Some "group"
  /\ nonEmpty (node_fills a) = false
  /\ nonEmpty (node_strokes a) = false
  /\ positive (node_cornerRadius a) = false
  /\ belowOne (node_opacity a) = false
  /\ map_has (jsx_interactiveElements t) (node_id a) = false.

(** [collapsesTo t n m]: from [n] down to [m] there are only plain groups
    with one child each. *)
Inductive collapsesTo (t : JSXTransformer) : node -> node -> Prop :=
| collapse_stop (n : node) : collapsesTo t n n
| collapse_wrapper (a : Attrs) (only m : node) :
    plainGroup t a -> collapsesTo t only m -> collapsesTo t (Node a (Some [only])) m.

End MarkupVocabulary.

Section GeneratorVocabulary.
Import CodeGenerator.

(** Two generators built from the same configuration. *)
Definition sameConfig (g g' : CodeGenerator) : Prop :=
  format g = format g'
  /\ outputDir g = outputDir g'
  /\ cssFramework g = cssFramework g'
  /\ useTypeScript g = useTypeScript g'
  /\ componentize g = componentize g'
  /\ componentName g = componentName g'.

End GeneratorVocabulary.

Section StyleVocabulary.
Context {rt : Runtime}.
Import CSSTransformer.

(** The nodes of a document in the order of the walk: a node, then its
    children from left to right. *)
Fixpoint walk (n : node) : list node :=
  match n with
  | Node a cs => n :: match cs with Some l => flat_map walk l | None => [] end
  end.

(** The work of [extractStyles] on one node. *)
Definition visit (n : node) (e : Extraction) : result Extraction :=
  className <- getClassName n true ;;
  Ok (register n className e).

(** A node, under its class name, has a rule worth keeping: it is a text
    node or has geometry, and its rule passes the length test. *)
Definition hasOwnRule (n : node) (className : jsstring) : bool :=
  (typeIsTEXT (attrs n)
   || match node_absoluteBoundingBox (attrs n) with Some _ => true | None => false end)
  && (match nodeToCSS n className with [] => false | _ => true end
      && (length className + 5 <? length (trim (nodeToCSS n className)))%nat).

(** The collections once a class name is added to [processedClasses]. *)
Definition markProcessed (e : Extraction) (c : jsstring) : Extraction :=
  {| singleStyles := singleStyles e;
     processedClasses := processedClasses e ++ [c];
     styleMap := styleMap e;
     styleGroups := styleGroups e |}.

(** No node of a list has the class name. *)
Definition notMetIn (className : jsstring) (nodes : list node) : Prop :=
  forall m, In m nodes -> getClassName m true <> Ok className.

(** A string with a code unit that is not white space. *)
Definition hasInk (s : jsstring) : bool := existsb (fun c => negb (isWhiteSpace c)) s.

(** What holds of the collections once the nodes [seen] were visited: a
    processed class name is the class name of a visited node, no style key
    has two groups, and the rule kept by a group has declarations. *)
Record sound (seen : list node) (e : Extraction) : Prop := {
  sound_processed : forall c, In c (processedClasses e) ->
    exists m, In m seen /\ getClassName m true = Ok c;
  sound_keys : NoDup (map fst (styleGroups e));
  sound_bodies : forall k group, map_get (styleGroups e) k = Some group ->
    extractCSSRulesFromStyle (sg_style group) <> []
}.




End StyleVocabulary.

Section NameVocabulary.

(** [String.prototype.endsWith]. *)
Definition endsWith (s p : jsstring) : bool := startsWith (rev s) (rev p).

(** A Basic Latin letter, a digit or a hyphen: what is left of a name once
    it is cleaned and its white space is taken out. *)
Definition isWordUnit (c : N) : bool := isAlnum c || NameUtils.isHyphen c.

(** A lower-case Basic Latin letter, a digit or a hyphen. *)
Definition isKebabUnit (c : N) : bool := isLower c || isDigit c || NameUtils.isHyphen c.

(** Kebab case: lower-case letters, digits and single hyphens, with no
    hyphen at either end. *)
Definition kebabShaped (s : jsstring) : Prop :=
  forallb isKebabUnit s = true
  /\ startsWith s "-" = false
  /\ endsWith s "-" = false
  /\ includes s "--" = false.

(** The test [p] on the first unit of a string; [false] on the empty string. *)
Definition firstIs (p : N -> bool) (s : jsstring) : bool :=
  match s with x :: _ => p x | [] => false end.

(** Letters and digits, with at most one hyphen, which is then the last
    unit. *)
Definition wordThenHyphen (s : jsstring) : Prop :=
  exists body, forallb isAlnum body = true /\ (s = body \/ s = body ++ "-").

(** No two hyphens in a row. *)
Fixpoint singleHyphens (s : jsstring) : bool :=
  match s with
  | a :: s' =>
      match s' with
      | b :: _ => negb (NameUtils.isHyphen a && NameUtils.isHyphen b) && singleHyphens s'
      | [] => true
      end
  | [] => true
  end.

End NameVocabulary.

Section DocumentVocabulary.

(** The identifier, the name and the type of every node of a document, in
    the order of the walk. *)
Definition labels (n : node) : list (key * option jsstring * option jsstring) :=
  map (fun m => (node_id (attrs m), node_name (attrs m), node_type (attrs m))) (walk n).

(** No entry of a paint list is switched off. *)
Definition allShown (paints : option (list Paint)) : bool :=
  match paints with
  | Some l => forallb NodeUtils.notHidden l
  | None => true
  end.

(** The entity [escapeHTML] puts for a code unit, or the unit itself. *)
Definition escapeUnit (c : N) : jsstring :=
  if c =? 38 then "&amp;"
  else if c =? 60 then "&lt;"
  else if c =? 62 then "&gt;"
  else if c =? 34 then "&quot;"
  else if c =? 39 then "&#039;"
  else [c].

(** The code units that open or close a tag or an attribute value. *)
Definition isMarkupUnit (c : N) : bool := (c =? 60) || (c =? 62) || (c =? 34) || (c =? 39).

End DocumentVocabulary.

Section AnalysisVocabulary.
Context {rt : Runtime}.
Import InteractiveElementAnalyzer.

(** One of the four detections of [analyze] fires on the node. *)
Definition interactive (a : Attrs) : bool :=
  let nodeName := String_toLowerCase (str_or (node_name a) []) in
  isButton nodeName || isInput nodeName
  || (isAccordion nodeName || isCollapsible nodeName)
  || (isToggle nodeName || isSwitch nodeName).

(** Every state variable has an event handler with its identifier. *)
Definition paired (c : Collections) : Prop :=
  forall v, In v (stateVariables c) ->
            exists h, In h (eventHandlers c) /\ eh_id h = sv_id v.

(** The collections of the second hold what the collections of the first
    hold: the lists are extended at the end, the keys of the map are kept. *)
Definition extends (c c' : Collections) : Prop :=
  (exists more, stateVariables c' = stateVariables c ++ more)
  /\ (exists more, eventHandlers c' = eventHandlers c ++ more)
  /\ forall k, map_has (interactiveElements c) k = true ->
              map_has (interactiveElements c') k = true.

End AnalysisVocabulary.

Section ComponentVocabulary.
Import ComponentAnalyzer.

(** A name fit for a component: not empty, letters and digits with at most
    a hyphen at the end, starting neither with a digit nor with a lower-case
    letter. *)
Definition wellNamed (name : jsstring) : Prop :=
  name <> []
  /\ wordThenHyphen name
  /\ firstIs isDigit name = false
  /\ firstIs isLower name = false.

(** The entry [info] under the key [k] stands for a node of the document
    [n]: the node is met in the walk, the key is its identifier, and the
    name is fit for a component. *)
Definition registeredFrom (n : node) (k : key) (info : ComponentInfo) : Prop :=
  In (ci_node info) (walk n)
  /\ node_id (attrs (ci_node info)) = k
  /\ wellNamed (ci_name info).

End ComponentVocabulary.

Section ClassVocabulary.

Definition isLetter (c : N) : bool := isLower c || isUpper c.

(** A class name that needs no escaping, in a selector or in an attribute:
    Basic Latin letters, digits and hyphens, with a letter in front. *)
Definition classToken (name : jsstring) : Prop :=
  forallb isWordUnit name = true /\ firstIs isLetter name = true.

End ClassVocabulary.

Section MarkupTextVocabulary.
Import JSXTransformer.

(** No blank line is followed by a blank line. *)
Fixpoint settled (lines : list jsstring) : bool :=
  match lines with
  | line :: rest =>
      negb (isBlank line && match rest with next :: _ => isBlank next | [] => false end)
      && settled rest
  | [] => true
  end.

End MarkupTextVocabulary.

Section SheetVocabulary.
Context {rt : Runtime}.
Import CSSTransformer.

(** The processed class names are, each once, the class names of the
    visited nodes that are not empty. *)
Definition processedExactly (seen : list node) (e : Extraction) : Prop :=
  NoDup (processedClasses e)
  /\ forall c, In c (processedClasses e)
              <-> c <> [] /\ exists m, In m seen /\ getClassName m true = Ok c.

(** No class name is listed twice, in one group or in two. *)
Definition listedOnce (e : Extraction) : Prop :=
  (forall k group, map_get (styleGroups e) k = Some group -> NoDup (sg_classes group))
  /\ forall k k' group group' c,
       map_get (styleGroups e) k = Some group ->
       map_get (styleGroups e) k' = Some group' ->
       In c (sg_classes group) -> In c (sg_classes group') -> k = k'.

(** What the walk keeps true of the groups: a listed class name is a
    processed one, the groups list no class name twice, and a style key of
    [styleMap] has its group. *)
Definition groupsInOrder (e : Extraction) : Prop :=
  (forall k group c, map_get (styleGroups e) k = Some group -> In c (sg_classes group) ->
                     In c (processedClasses e))
  /\ listedOnce e
  /\ forall k, map_has (styleMap e) k = true -> map_has (styleGroups e) k = true.

(** The string holds the code unit. *)
Definition hasUnit (u : N) (s : jsstring) : bool := existsb (N.eqb u) s.

(** The first node of a list whose class name cannot be derived throws
    [err]. *)
Definition firstFailure (nodes : list node) (err : error) : Prop :=
  exists before m after,
    nodes = before ++ m :: after
    /\ (forall x, In x before -> exists c, getClassName x true = Ok c)
    /\ getClassName m true = Throw err.

End SheetVocabulary.

Section TextVocabulary.

(** The [characters] of the node are a number that counts as true: the
    value on which a string method is missing. *)
Definition numbered (n : node) : bool :=
  match node_characters (attrs n) with
  | Some (CharsNumber x) => truthy_num (Some x)
  | _ => false
  end.

(** No node of the document has such characters. *)
Definition textual (n : node) : bool := forallb (fun m => negb (numbered m)) (walk n).

(** Every node registered as a component is textual. *)
Definition textualEntries (m : jsmap ComponentAnalyzer.ComponentInfo) : Prop :=
  Forall (fun entry => textual (ComponentAnalyzer.ci_node (snd entry)) = true) m.

End TextVocabulary.

Section LayoutVocabulary.
Import CodeGenerator.

(** The paths of the files of a unit, in the order they are written. *)
Definition unitPaths (typed : bool) (name : jsstring) : list jsstring :=
  unitPath name (if typed then "tsx" else "jsx")
    :: unitPath name "css"
    :: (if typed then [unitPath name "types.ts"] else []).

(** The files are those of the units of the given names, unit after unit;
    the names are fit for a component and no two of them are equal. *)
Definition laidOut (typed : bool) (names : list jsstring) (files : Files) : Prop :=
  map fst files = flat_map (unitPaths typed) names
  /\ NoDup names
  /\ Forall wellNamed names.

End LayoutVocabulary.

Section IndentVocabulary.
Import InteractiveElementAnalyzer ComponentAnalyzer JSXTransformer.

(** The string holds no line feed. *)
Definition oneLine (s : jsstring) : bool := negb (hasUnit 10 s).

(** The text of every text node of the document is on one line. *)
Definition singleLined (n : node) : bool :=
  forallb (fun m => match node_characters (attrs m) with
                    | Some (CharsString s) => oneLine s
                    | _ => true
                    end)
          (walk n).

(** The identifiers and the component names the transformer writes in the
    markup are on one line. *)
Definition plainNames (t : JSXTransformer) : bool :=
  forallb (fun entry => oneLine (ie_id (snd entry))) (jsx_interactiveElements t)
  && forallb (fun entry => oneLine (ci_name (snd entry))) (jsx_components t).

(** A line of markup at a depth: empty, or behind the indentation of the
    depth. *)
Definition indentedLine (depth : nat) (line : jsstring) : bool :=
  match line with
  | [] => true
  | _ => startsWith line (repeat_str "  " depth)
  end.

(** The text is lines of markup at the depth, joined by line feeds. *)
Definition inLines (depth : nat) (s : jsstring) : Prop :=
  exists lines,
    lines <> []
    /\ s = join StyleUtils.nl lines
    /\ Forall (fun line => oneLine line = true /\ indentedLine depth line = true) lines.

End IndentVocabulary.


(* ================================================================== *)
(** ** Sample documents *)
(* ================================================================== *)

Module Samples.

Definition frame (id name : jsstring) (children : option (list node)) : node :=
  Node (attributes id name "FRAME") children.

Definition text (id name : jsstring) (characters : Characters) : node :=
  Node (set_characters (attributes id name "TEXT") (Some characters)) None.

Definition red : Paint :=
  {| paint_type := Some "SOLID"; paint_visible := None;
     paint_color := Some {| color_r := 1; color_g := 0; color_b := 0 |};
     paint_opacity := None |}.

Definition hiddenRed : Paint :=
  {| paint_type := Some "SOLID"; paint_visible := Some false;
     paint_color := Some {| color_r := 1; color_g := 0; color_b := 0 |};
     paint_opacity := None |}.

(** Two layers with the same name. *)
Definition twoSearchInputs : node :=
  frame "0:1" "Page"
    (Some [frame "1:1" "Search Input" None; frame "1:2" "Search Input" None]).

(** One layer whose name matches the button keywords and the input keywords. *)
Definition submitForm : node := frame "0:1" "Submit Form" None.

(** Four input layers, and three. *)
Definition fourInputs : node :=
  frame "0:1" "Page"
    (Some [frame "1:1" "Name Input" None; frame "1:2" "Mail Input" None;
           frame "1:3" "City Input" None; frame "1:4" "Zip Input" None]).

Definition threeInputs : node :=
  frame "0:1" "Page"
    (Some [frame "1:1" "Name Input" None; frame "1:2" "Mail Input" None;
           frame "1:3" "City Input" None]).

(** Four input layers, two of them with one name: three distinct state
    variables. *)
Definition threeDistinctInputs : node :=
  frame "0:1" "Page"
    (Some [frame "1:1" "Search Input" None; frame "1:2" "Search Input" None;
           frame "1:3" "Mail Input" None; frame "1:4" "City Input" None]).

(** A layer with a fill that is switched off. *)
Definition hiddenFill : node :=
  Node (set_fills (attributes "0:1" "Badge" "RECTANGLE") (Some [hiddenRed; red])) None.

(** A rectangle with a fill, wrapped once in a frame and once in a group,
    neither wrapper with any style. *)
Definition filledBox : node :=
  Node (set_fills (attributes "1:2" "Box" "RECTANGLE") (Some [red])) None.

Definition frameWrapper : node := frame "1:1" "Wrap" (Some [filledBox]).

Definition groupWrapper : node :=
  Node (attributes "1:1" "Wrap" "GROUP") (Some [filledBox]).

(** A transformer with nothing registered. *)
Definition bareTransformer : JSXTransformer.JSXTransformer :=
  {| JSXTransformer.jsx_interactiveElements := [];
     JSXTransformer.jsx_components := [];
     JSXTransformer.jsx_useObjectState := false |}.

(** A group named after a boundary keyword, with one text child, in a page. *)
Definition title : node := text "1:3" "Title" (CharsString "Hello").

Definition cardGroup : node := Node (attributes "1:2" "Card" "GROUP") (Some [title]).

Definition cardFrame : node := frame "1:2" "Card" (Some [title]).

Definition pageWithCardGroup : node := frame "0:1" "App" (Some [cardGroup]).

Definition pageWithCardFrame : node := frame "0:1" "App" (Some [cardFrame]).

(** A page with a card and a button; the text of the card carries a number
    where its characters should be. *)
Definition brokenLabel : node := text "1:3" "Label" (CharsNumber 5).

Definition brokenCard : node := frame "1:2" "Card" (Some [brokenLabel]).

Definition submitButton : node := frame "1:4" "Submit Button" None.

Definition pageWithBrokenCard : node := frame "0:1" "App" (Some [brokenCard; submitButton]).

(** A document whose root is a reusable component. *)
Definition componentRoot : node :=
  Node (attributes "0:1" "Profile Card" "COMPONENT") (Some [title]).

(** Two text layers with nothing but their names. *)
Definition twoBareTexts : node :=
  frame "0:1" "Page"
    (Some [Node (attributes "1:1" "Alpha" "TEXT") None;
           Node (attributes "1:2" "Beta" "TEXT") None]).

(** Two boxes of the same size and colour. *)
Definition sizedBox (id name : jsstring) : node :=
  Node (set_absoluteBoundingBox (set_fills (attributes id name "RECTANGLE") (Some [red]))
          (Some {| bbox_x := Some 0%float; bbox_y := Some 0%float;
                   bbox_width := Some 100%float; bbox_height := Some 40%float |}))
       None.

Definition twoEqualBoxes : node :=
  frame "0:1" "Page" (Some [sizedBox "1:1" "Alpha"; sizedBox "1:2" "Beta"]).

(** The two boxes after a larger layer that carries the name of the second. *)
Definition largeBox (id name : jsstring) : node :=
  Node (set_absoluteBoundingBox (set_fills (attributes id name "RECTANGLE") (Some [red]))
          (Some {| bbox_x := Some 0%float; bbox_y := Some 0%float;
                   bbox_width := Some 300%float; bbox_height := Some 40%float |}))
       None.

Definition boxesAfterNamesake : node :=
  frame "0:1" "Page"
    (Some [largeBox "1:0" "Beta"; sizedBox "1:1" "Alpha"; sizedBox "1:2" "Beta"]).


End Samples.


(* ================================================================== *)
(** ** Properties *)
(* ================================================================== *)

Unset Implicit Arguments.

Section BasicFacts.

Lemma str_eqb_eq (a b : jsstring) : str_eqb a b = true <-> a = b.
Proof.
  revert b; induction a as [|x a IH]; intros [|y b]; simpl; split; intro H;
    try reflexivity; try discriminate.
  - apply andb_true_iff in H as [Hx Hab]. apply N.eqb_eq in Hx. apply IH in Hab. congruence.
  - inversion H; subst. rewrite N.eqb_refl. simpl. now apply IH.
Qed.

Lemma str_eqb_refl (a : jsstring) : str_eqb a a = true.
Proof. now apply str_eqb_eq. Qed.

Lemma str_eqb_neq (a b : jsstring) : str_eqb a b = false <-> a <> b.
Proof.
  split; intro H.
  - intro E. apply str_eqb_eq in E. congruence.
  - destruct (str_eqb a b) eqn:E; [|reflexivity]. apply str_eqb_eq in E. contradiction.
Qed.

Lemma key_eqb_eq (a b : key) : key_eqb a b = true <-> a = b.
Proof.
  destruct a as [a|], b as [b|]; simpl; split; intro H; try reflexivity; try discriminate.
  - apply str_eqb_eq in H. congruence.
  - inversion H; subst. apply str_eqb_refl.
Qed.

Lemma key_eqb_refl (a : key) : key_eqb a a = true.
Proof. now apply key_eqb_eq. Qed.

End BasicFacts.

(* ------------------------------------------------------------------ *)
(** *** Naming *)
(* ------------------------------------------------------------------ *)

(** [toPascalCase] never returns a string that starts with a digit. *)
Lemma toPascalCase_no_leading_digit (str : jsstring) (c : N) (r : jsstring) :
  NameUtils.toPascalCase str = c :: r -> isDigit c = false.
Proof.
  unfold NameUtils.toPascalCase.
  destruct str as [|x str]; [intro H; inversion H; reflexivity|].
  destruct (NameUtils.clean (x :: str)) as [|y cleaned] eqn:Hc;
    [intro H; inversion H; reflexivity|].
  set (s1 := NameUtils.replaceSeparators _ _).
  set (s2 := match s1 with [] => s1 | d :: t => if isLower d then upperUnit d :: t else s1 end).
  destruct s2 as [|d t] eqn:Hs2; [discriminate|].
  destruct (isDigit d) eqn:Hd; intro H; inversion H; subst; [reflexivity|assumption].
Qed.

(** C9. The name of a layer that ends in a hyphen after a space, such as
    "Header -", is turned into a string that still holds the hyphen: the
    replacement of separators needs a unit after the run of separators, and at
    the end of the name it can only take the hyphen itself. *)
Theorem toPascalCase_keeps_a_trailing_hyphen :
  NameUtils.toPascalCase "Header -" = "Header-"
  /\ NameUtils.toPascalCase "a-" = "A-"
  /\ In 45 (NameUtils.toPascalCase "Header -").
Proof.
  repeat split; try (vm_compute; reflexivity).
  vm_compute. do 6 right. left. reflexivity.
Qed.

(** Scenario 5 of the specification. *)
Example toPascalCase_scenario5 :
  NameUtils.toPascalCase "123 my component!!" = "N123MyComponent".
Proof. vm_compute. reflexivity. Qed.

(* ------------------------------------------------------------------ *)
(** *** Classification of interactive elements *)
(* ------------------------------------------------------------------ *)

(** C5. [analyze] pushes to the two lists without looking for the
    identifier: two layers with one name leave two state variables and two
    handlers with one identifier, and a layer whose name matches two keyword
    sets leaves two handlers with one identifier. *)
Theorem analyze_registers_an_identifier_twice :
  let two := @InteractiveElementAnalyzer.analyze Reference.runtime
               Samples.twoSearchInputs InteractiveElementAnalyzer.noCollections in
  let one := @InteractiveElementAnalyzer.analyze Reference.runtime
               Samples.submitForm InteractiveElementAnalyzer.noCollections in
  map InteractiveElementAnalyzer.sv_id (InteractiveElementAnalyzer.stateVariables two)
    = ["searchInput"; "searchInput"]
  /\ map InteractiveElementAnalyzer.eh_id (InteractiveElementAnalyzer.eventHandlers two)
    = ["searchInput"; "searchInput"]
  /\ map InteractiveElementAnalyzer.eh_id (InteractiveElementAnalyzer.eventHandlers one)
    = ["submitForm"; "submitForm"]
  /\ map fst (InteractiveElementAnalyzer.interactiveElements one) = [Some "0:1"].
Proof. vm_compute. repeat split. Qed.

(* ------------------------------------------------------------------ *)
(** *** Assembly of a unit *)
(* ------------------------------------------------------------------ *)

Section Assembly.
Context {rt : Runtime}.
Import InteractiveElementAnalyzer CodeGenerator.

(** The aggregation flag counts the entries of the list, and the state
    section of the assembled unit follows the flag. With more than three
    entries it is one state object with a field for each entry, in order;
    with one to three entries it is one state slot for each entry. An
    identifier registered twice is two entries. *)
Lemma state_section_by_number_of_entries (g : CodeGenerator) (n : node)
  (name : jsstring) :
  let g' := analyzeInteractiveElements g n in
  let c := context g' in
  let vars := stateVariables c in
  let printed (v : StateVariable) : jsstring :=
    match sv_defaultValue v with
    | DefaultString s => "'" ++ s ++ "'"
    | DefaultBoolean true => "true"
    | DefaultBoolean false => "false"
    end in
  let declared :=
    ReactTemplateGenerator.stateDeclarations name vars (useObjectState c) (useTypeScript g') in
  useObjectState c = (3 <? length vars)%nat
  /\ ((3 < length vars)%nat ->
      declared
      = "  const [state, setState] = useState"
          ++ (if useTypeScript g' then "<" ++ name ++ "State>" else [])
          ++ "({" ++ nl
          ++ join ("," ++ nl)
               (map (fun v => "    " ++ NameUtils.sanitizeVariableName (sv_id v) ++ ": "
                                ++ printed v)
                    vars)
          ++ nl ++ "  });")
  /\ ((0 < length vars <= 3)%nat ->
      declared
      = join nl
          (map (fun v =>
                  "  const [" ++ NameUtils.sanitizeVariableName (sv_id v) ++ ", set"
                    ++ NameUtils.toPascalCase (NameUtils.sanitizeVariableName (sv_id v))
                    ++ "] = useState"
                    ++ (if useTypeScript g' then "<" ++ sv_type v ++ ">" else [])
                    ++ "(" ++ printed v ++ ");")
               vars)).
Proof.
  intros g' c vars printed declared.
  assert (Hflag : useObjectState c = (3 <? length vars)%nat) by reflexivity.
  split; [exact Hflag|]. subst declared.
  unfold ReactTemplateGenerator.stateDeclarations. rewrite Hflag.
  split; intro Hlen.
  - destruct vars as [|v vars']; [inversion Hlen|].
    rewrite (proj2 (Nat.ltb_lt _ _) Hlen). reflexivity.
  - destruct vars as [|v vars']; [destruct Hlen as [Hpos _]; inversion Hpos|].
    rewrite (proj2 (Nat.ltb_ge _ _) (proj2 Hlen)). reflexivity.
Qed.

End Assembly.

(** C6. Three distinct state variables take the aggregated form. A page
    with four input layers, two of them named alike, leaves four entries in
    [stateVariables] for three distinct variables ([analyze] pushes without
    looking the identifier up); the flag is [stateVariables.length > 3], so
    the assembled unit declares one state object, with the field of the
    repeated variable twice, and no independent state slot. The same page
    with three input layers of three names declares three independent
    slots. *)
Theorem three_distinct_variables_are_aggregated :
  let g := CodeGenerator.constructor None true true None in
  let repeated :=
    @CodeGenerator.analyzeInteractiveElements Reference.runtime g Samples.threeDistinctInputs in
  let plain :=
    @CodeGenerator.analyzeInteractiveElements Reference.runtime g Samples.threeInputs in
  map InteractiveElementAnalyzer.sv_id
      (CodeGenerator.stateVariables (CodeGenerator.context repeated))
  = ["searchInput"; "searchInput"; "mailInput"; "cityInput"]
  /\ CodeGenerator.useObjectState (CodeGenerator.context repeated) = true
  /\ split 10 (CodeGenerator.assemble repeated "Page" "  <div />" false [])
     = ["import React, { useState, useMemo, useCallback } from 'react';";
        "import './Page.css';";
        "import type { PageProps, PageState } from './Page.types';";
        "";
        "const Page: React.FC<PageProps> = () => {";
        "  const [state, setState] = useState<PageState>({";
        "    searchInput: '',";
        "    searchInput: '',";
        "    mailInput: '',";
        "    cityInput: ''";
        "  });";
        "  const handleSearchInputChange = useCallback((e: React.ChangeEvent<HTMLInputElement>) => {";
        "    setState((prev: PageState) => ({ ...prev, searchInput: e.target.value }));";
        "  }, []);";
        "";
        "  const handleSearchInputChange = useCallback((e: React.ChangeEvent<HTMLInputElement>) => {";
        "    setState((prev: PageState) => ({ ...prev, searchInput: e.target.value }));";
        "  }, []);";
        "";
        "  const handleMailInputChange = useCallback((e: React.ChangeEvent<HTMLInputElement>) => {";
        "    setState((prev: PageState) => ({ ...prev, mailInput: e.target.value }));";
        "  }, []);";
        "";
        "  const handleCityInputChange = useCallback((e: React.ChangeEvent<HTMLInputElement>) => {";
        "    setState((prev: PageState) => ({ ...prev, cityInput: e.target.value }));";
        "  }, []);";
        "  return (";
        "  <div />";
        "  );";
        "};";
        "";
        "export default Page;";
        ""]
  /\ map InteractiveElementAnalyzer.sv_id
         (CodeGenerator.stateVariables (CodeGenerator.context plain))
     = ["nameInput"; "mailInput"; "cityInput"]
  /\ CodeGenerator.useObjectState (CodeGenerator.context plain) = false
  /\ split 10 (CodeGenerator.assemble plain "Page" "  <div />" false [])
     = ["import React, { useState } from 'react';";
        "import './Page.css';";
        "import type { PageProps } from './Page.types';";
        "";
        "const Page: React.FC<PageProps> = () => {";
        "  const [nameInput, setNameInput] = useState<string>('');";
        "  const [mailInput, setMailInput] = useState<string>('');";
        "  const [cityInput, setCityInput] = useState<string>('');";
        "  const handleNameInputChange = (e: React.ChangeEvent<HTMLInputElement>) => {";
        "    setNameInput(e.target.value);";
        "  };";
        "";
        "  const handleMailInputChange = (e: React.ChangeEvent<HTMLInputElement>) => {";
        "    setMailInput(e.target.value);";
        "  };";
        "";
        "  const handleCityInputChange = (e: React.ChangeEvent<HTMLInputElement>) => {";
        "    setCityInput(e.target.value);";
        "  };";
        "  return (";
        "  <div />";
        "  );";
        "};";
        "";
        "export default Page;";
        ""].
Proof. vm_compute. repeat split. Qed.

(* ------------------------------------------------------------------ *)
(** *** The preprocessor *)
(* ------------------------------------------------------------------ *)

(** Induction on a document: a property of every child gives the property
    of the parent. *)
Lemma node_induction (P : node -> Prop) :
  (forall a, P (Node a None)) ->
  (forall a l, Forall P l -> P (Node a (Some l))) ->
  forall n, P n.
Proof.
  intros leaf inner. fix IH 1. intros [a [l|]].
  - apply inner. induction l as [|c l IHl]; constructor; [apply IH|exact IHl].
  - apply leaf.
Qed.

Section Preprocessor.
Import NodeUtils.

Lemma filter_idempotent {A} (f : A -> bool) (l : list A) : filter f (filter f l) = filter f l.
Proof.
  induction l as [|x l IH]; simpl; [reflexivity|].
  destruct (f x) eqn:E; simpl; [rewrite E, IH|]; auto.
Qed.

Lemma omitNull_map_Some {A B} (f : A -> B) (l : list A) :
  omitNull (map (fun x => Some (f x)) l) = map f l.
Proof. unfold omitNull. induction l as [|x l IH]; simpl; [reflexivity|]. now rewrite IH. Qed.

Lemma ownProperties_box (a : Attrs) (p : option node) :
  node_absoluteBoundingBox (ownProperties a p) = node_absoluteBoundingBox a.
Proof.
  unfold ownProperties. destruct p as [p|].
  - destruct (node_absoluteBoundingBox a) eqn:Ea, (node_absoluteBoundingBox (attrs p));
      simpl;
      repeat match goal with
             | |- context [match ?x with Some _ => _ | None => _ end] => destruct x
             end; simpl; auto.
  - repeat match goal with
           | |- context [match ?x with Some _ => _ | None => _ end] => destruct x
           end; simpl; auto.
Qed.

Lemma ownProperties_parent (a : Attrs) (p p' : option node) :
  parentBox p = parentBox p' -> ownProperties a p = ownProperties a p'.
Proof.
  unfold ownProperties, parentBox. intro H.
  destruct p as [p|], p' as [p'|]; try rewrite H; try rewrite <- H; try reflexivity.
  - destruct (node_absoluteBoundingBox a); reflexivity.
  - destruct (node_absoluteBoundingBox a); reflexivity.
Qed.

Lemma ownProperties_idempotent (a : Attrs) (p : option node) :
  ownProperties (ownProperties a p) p = ownProperties a p.
Proof.
  destruct a. unfold ownProperties. destruct p as [p|]; simpl.
  - destruct node_absoluteBoundingBox0, (node_absoluteBoundingBox (attrs p));
      destruct node_fills0, node_strokes0; simpl; rewrite ?filter_idempotent; reflexivity.
  - destruct node_fills0, node_strokes0; simpl; rewrite ?filter_idempotent; reflexivity.
Qed.

Lemma preprocessObject_attrs (n : node) (p : option node) :
  attrs (preprocessObject n p) = ownProperties (attrs n) p.
Proof. destruct n as [a [[|c l]|]]; reflexivity. Qed.

Lemma preprocessObject_children (n : node) (p : option node) :
  children (preprocessObject n p)
  = option_map (map (fun child => preprocessObject child
                                    (Some (Node (ownProperties (attrs n) p) (children n)))))
               (children n).
Proof.
  destruct n as [a [[|c l]|]]; try reflexivity.
  cbn [preprocessObject children attrs option_map]. now rewrite omitNull_map_Some.
Qed.

Lemma preprocessObject_parent (n : node) (p p' : option node) :
  parentBox p = parentBox p' -> preprocessObject n p = preprocessObject n p'.
Proof.
  intro H. destruct n as [a [[|c l]|]]; cbn [preprocessObject];
    rewrite (ownProperties_parent a p p' H); reflexivity.
Qed.

(** Normalizing a normalized document changes nothing. *)
Lemma preprocessObject_idempotent (n : node) :
  forall p p', parentBox p = parentBox p' ->
               preprocessObject (preprocessObject n p) p' = preprocessObject n p.
Proof.
  induction n as [a|a l IH] using node_induction; intros p p' H.
  - cbn [preprocessObject]. rewrite <- (ownProperties_parent _ p p' H).
    now rewrite ownProperties_idempotent.
  - destruct l as [|c l].
    + cbn [preprocessObject]. rewrite <- (ownProperties_parent _ p p' H).
      now rewrite ownProperties_idempotent.
    + cbn [preprocessObject]. rewrite !omitNull_map_Some.
      remember (c :: l) as cs eqn:Hcs.
      assert (Hne : map (fun child => preprocessObject child
                                        (Some (Node (ownProperties a p) (Some cs)))) cs
                    <> []) by (subst cs; discriminate).
      destruct (map _ cs) as [|c' l'] eqn:Hm; [contradiction|].
      rewrite <- Hm. cbn [preprocessObject].
      rewrite <- (ownProperties_parent _ p p' H), ownProperties_idempotent.
      rewrite Hm at 1. rewrite <- Hm. rewrite !omitNull_map_Some. f_equal. f_equal.
      rewrite map_map. apply map_ext_Forall.
      eapply Forall_impl; [|exact IH]. intros child Hc. apply Hc.
      cbn [parentBox attrs]. reflexivity.
Qed.

End Preprocessor.

(** C2, as the code has it. [preprocessNode] returns the node it was given,
    updated: the fills and the strokes of the node are the entries of the
    former lists whose [visible] is not [false], its children are its
    processed children in their order, its [absoluteBoundingBox] is as
    before. A second normalization of the document changes nothing more. *)
Theorem preprocessNode_updates_in_place (n : node) (parentNode : option node) :
  let updated := NodeUtils.preprocessObject n parentNode in
  NodeUtils.preprocessNode (Some n) parentNode = Some updated
  /\ node_fills (attrs updated)
     = option_map (filter NodeUtils.notHidden) (node_fills (attrs n))
  /\ node_strokes (attrs updated)
     = option_map (filter NodeUtils.notHidden) (node_strokes (attrs n))
  /\ children updated
     = option_map
         (map (fun child =>
                 NodeUtils.preprocessObject child (Some (Node (attrs updated) (children n)))))
         (children n)
  /\ node_absoluteBoundingBox (attrs updated) = node_absoluteBoundingBox (attrs n)
  /\ NodeUtils.preprocessNode (Some updated) parentNode = Some updated.
Proof.
  intro updated. subst updated.
  repeat split.
  - rewrite preprocessObject_attrs. destruct (attrs n). unfold NodeUtils.ownProperties.
    destruct parentNode as [p|]; simpl;
      [destruct node_absoluteBoundingBox0, (node_absoluteBoundingBox (attrs p))|];
      destruct node_fills0, node_strokes0; reflexivity.
  - rewrite preprocessObject_attrs. destruct (attrs n). unfold NodeUtils.ownProperties.
    destruct parentNode as [p|]; simpl;
      [destruct node_absoluteBoundingBox0, (node_absoluteBoundingBox (attrs p))|];
      destruct node_fills0, node_strokes0; reflexivity.
  - rewrite preprocessObject_children, preprocessObject_attrs. reflexivity.
  - rewrite preprocessObject_attrs. apply ownProperties_box.
  - unfold NodeUtils.preprocessNode. f_equal. now apply preprocessObject_idempotent.
Qed.

(** C2 as stated fails: the fills of the caller's node are not what they
    were before the call. *)
Lemma preprocessNode_changes_the_input :
  exists updated,
    NodeUtils.preprocessNode (Some Samples.hiddenFill) None = Some updated
    /\ node_fills (attrs Samples.hiddenFill) = Some [Samples.hiddenRed; Samples.red]
    /\ node_fills (attrs updated) = Some [Samples.red]
    /\ node_fills (attrs updated) <> node_fills (attrs Samples.hiddenFill).
Proof.
  eexists. split; [reflexivity|]. repeat split. discriminate.
Qed.

(* ------------------------------------------------------------------ *)
(** *** The markup transformer *)
(* ------------------------------------------------------------------ *)

Section Markup.
Context {rt : Runtime}.
Import ComponentAnalyzer JSXTransformer.

Lemma transform_unfold (t : JSXTransformer) (a : Attrs) (cs : option (list node))
  (depth : nat) (cur : jsstring) :
  transform t (Node a cs) depth cur
  = transformBody t a cs depth cur (fun child d => transform t child d cur).
Proof. reflexivity. Qed.

Lemma mapM_ext_Forall {A B} (f g : A -> result B) (l : list A) :
  Forall (fun x => f x = g x) l -> mapM f l = mapM g l.
Proof.
  induction 1 as [|x l Hx Hl IH]; simpl; [reflexivity|]. now rewrite Hx, IH.
Qed.

Lemma map_get_delete_same {V} (m : jsmap V) (k : key) : map_get (map_delete m k) k = None.
Proof.
  unfold map_delete. induction m as [|[k' v] m IH]; simpl; [reflexivity|].
  destruct (key_eqb k' k) eqn:E; simpl; [exact IH|]. now rewrite E.
Qed.

Lemma map_get_delete_other {V} (m : jsmap V) (k k' : key) :
  k' <> k -> map_get (map_delete m k) k' = map_get m k'.
Proof.
  intro Hne. unfold map_delete. induction m as [|[k0 v] m IH]; simpl; [reflexivity|].
  destruct (key_eqb k0 k) eqn:E; simpl.
  - apply key_eqb_eq in E. subst k0.
    destruct (key_eqb k k') eqn:E'; [apply key_eqb_eq in E'; congruence|exact IH].
  - destruct (key_eqb k0 k'); [reflexivity|exact IH].
Qed.

Lemma transformBody_ext (t : JSXTransformer) (a : Attrs) (cs : option (list node))
  (depth : nat) (cur : jsstring) (r r' : node -> nat -> result jsstring) :
  (forall child, In child (match cs with Some l => l | None => [] end) ->
                 forall d, r child d = r' child d) ->
  transformBody t a cs depth cur r = transformBody t a cs depth cur r'.
Proof.
  intro H. unfold transformBody.
  destruct cs as [[|c l]|]; try reflexivity.
  rewrite (mapM_ext_Forall (fun child => r child (S depth))
             (fun child => r' child (S depth)))
    by (apply Forall_forall; intros child Hin; now apply H).
  destruct l as [|c2 l]; [|reflexivity].
  rewrite (H c (or_introl eq_refl) depth). reflexivity.
Qed.

Lemma transformBody_unregister (t : JSXTransformer) (k : key) (info : ComponentInfo)
  (a : Attrs) (cs : option (list node)) (depth : nat) (cur : jsstring)
  (r : node -> nat -> result jsstring) :
  map_get (jsx_components t) k = Some info ->
  ci_name info = cur ->
  transformBody t a cs depth cur r = transformBody (unregister t k) a cs depth cur r.
Proof.
  intros Hget Hname. unfold transformBody. cbv zeta.
  change (shouldSkipNode (unregister t k)) with (shouldSkipNode t).
  change (renderElement (unregister t k)) with (renderElement t).
  cbn [unregister jsx_components].
  destruct (key_eqb (node_id a) k) eqn:E.
  - apply key_eqb_eq in E. rewrite E, Hget, map_get_delete_same, Hname, str_eqb_refl.
    reflexivity.
  - rewrite map_get_delete_other; [reflexivity|].
    intro E'. rewrite E', key_eqb_refl in E. discriminate.
Qed.

(** A node registered under the name of the component being generated is
    rendered as if it were not registered. *)
Lemma transform_unregister (t : JSXTransformer) (k : key) (info : ComponentInfo)
  (cur : jsstring) :
  map_get (jsx_components t) k = Some info ->
  ci_name info = cur ->
  forall n depth, transform t n depth cur = transform (unregister t k) n depth cur.
Proof.
  intros Hget Hname.
  induction n as [a|a l IH] using node_induction; intro depth;
    rewrite !transform_unfold;
    rewrite (transformBody_unregister t k info a _ depth cur _ Hget Hname);
    apply transformBody_ext.
  - intros child [].
  - intros child Hin d. rewrite Forall_forall in IH. now apply IH.
Qed.

(** C7, as the code has it. A registered boundary whose name is the name of
    the component being generated is rendered as if it were not registered:
    never as a component tag. A registered boundary with another name, when
    the wrapper elision of the first step does not apply to it, is replaced
    by the self-closing tag of its component, which carries the class name
    of the node and nothing else, and its children are not rendered. *)
Theorem boundary_substitution (t : JSXTransformer) (n : node) (depth : nat)
  (cur : jsstring) (info : ComponentInfo) :
  map_get (jsx_components t) (node_id (attrs n)) = Some info ->
  (ci_name info = cur ->
   transform t n depth cur = transform (unregister t (node_id (attrs n))) n depth cur)
  /\ (ci_name info <> cur ->
      shouldSkipNode t n = false ->
      transform t n depth cur = componentTag n depth (ci_name info)
      /\ componentTag n depth (ci_name info)
         = (className <- getClassName n false ;;
            Ok (repeat_str "  " depth ++ "<" ++ ci_name info
                  ++ match className with [] => [] | _ => " " ++ trim className end
                  ++ " />"))).
Proof.
  intro Hget. split.
  - intro Hname. now apply transform_unregister with (info := info).
  - intros Hname Hskip. split.
    + destruct n as [a cs]. rewrite transform_unfold. unfold transformBody.
      cbn [attrs] in Hget. rewrite Hget.
      apply str_eqb_neq in Hname. rewrite Hname, Hskip.
      destruct cs as [[|only [|c2 l]]|]; reflexivity.
    + unfold componentTag, getComponentProps.
      destruct (getClassName n false) as [[|c r]|e]; reflexivity.
Qed.

(** C8, as the code has it. A group with no fill, no stroke, no corner
    radius and no opacity below 1, that is not interactive and has exactly one
    child, is left out: its rendering is the rendering of the child at the
    same depth, and a chain of such groups is rendered as what lies under it. *)
Theorem plain_groups_collapse (t : JSXTransformer) (n m : node) :
  collapsesTo t n m ->
  forall depth cur, transform t n depth cur = transform t m depth cur.
Proof.
  induction 1 as [n|a only m Hplain Hrest IH]; intros depth cur; [reflexivity|].
  rewrite transform_unfold. unfold transformBody.
  destruct Hplain as (Htype & Hfills & Hstrokes & Hradius & Hopacity & Hie).
  assert (Hskip : shouldSkipNode t (Node a (Some [only])) = true).
  { unfold shouldSkipNode. cbn [attrs]. rewrite Htype.
    unfold opt_str_eqb. cbn [key_eqb]. rewrite str_eqb_refl.
    rewrite Hfills, Hstrokes, Hradius, Hopacity, Hie. reflexivity. }
  rewrite Hskip. apply IH.
Qed.

End Markup.

(** The two cases of C7 at work, on the card of a page: under its own name
    the card is rendered as if unregistered, under the name of the page it is
    a component tag. *)
Lemma boundary_substitution_witness :
  let t : JSXTransformer.JSXTransformer :=
    {| JSXTransformer.jsx_interactiveElements := [];
       JSXTransformer.jsx_components :=
         [(Some "1:2", {| ComponentAnalyzer.ci_name := "Card";
                          ComponentAnalyzer.ci_node := Samples.cardFrame;
                          ComponentAnalyzer.ci_parentId :=
                            ComponentAnalyzer.ParentKey (Some "0:1") |})];
       JSXTransformer.jsx_useObjectState := false |} in
  @JSXTransformer.transform Reference.runtime t Samples.cardFrame 1 "Card"
  = @JSXTransformer.transform Reference.runtime (unregister t (Some "1:2"))
      Samples.cardFrame 1 "Card"
  /\ @JSXTransformer.transform Reference.runtime t Samples.cardFrame 1 "App"
     = @JSXTransformer.componentTag Reference.runtime Samples.cardFrame 1 "Card".
Proof.
  intro t. split.
  - apply (proj1 (@boundary_substitution Reference.runtime t Samples.cardFrame 1 "Card"
                    _ eq_refl)).
    reflexivity.
  - apply (proj2 (@boundary_substitution Reference.runtime t Samples.cardFrame 1 "App"
                    _ eq_refl)).
    + discriminate.
    + reflexivity.
Defined.

(** C7 as stated fails: a group registered as the boundary "Card", with no
    style and one child, is left out by the first step, and what is rendered
    under the name "App" is its child, not the tag of the component. *)
Lemma boundary_group_is_elided_not_substituted :
  let g := @CodeGenerator.enterRoot Reference.runtime
             (CodeGenerator.constructor None true true None) Samples.pageWithCardGroup in
  let t := CodeGenerator.newTransformer g in
  option_map ComponentAnalyzer.ci_name
    (map_get (JSXTransformer.jsx_components t) (Some "1:2")) = Some "Card"
  /\ @JSXTransformer.transform Reference.runtime t Samples.cardGroup 1 "App"
     = Ok ("  <p  className=" ++ dquote ++ "title" ++ dquote ++ ">Hello</p>")
  /\ @JSXTransformer.componentTag Reference.runtime Samples.cardGroup 1 "Card"
     = Ok ("  <Card className=" ++ dquote ++ "card" ++ dquote ++ " />")
  /\ @JSXTransformer.transform Reference.runtime t Samples.cardGroup 1 "App"
     <> @JSXTransformer.componentTag Reference.runtime Samples.cardGroup 1 "Card".
Proof.
  vm_compute. repeat split. discriminate.
Qed.

(** A plain group around a rectangle is left out (C8 as the code has it). *)
Lemma plain_groups_collapse_witness :
  @collapsesTo Reference.runtime Samples.bareTransformer Samples.groupWrapper Samples.filledBox
  /\ @JSXTransformer.transform Reference.runtime Samples.bareTransformer
       Samples.groupWrapper 1 "App"
     = @JSXTransformer.transform Reference.runtime Samples.bareTransformer
         Samples.filledBox 1 "App".
Proof.
  assert (H : @collapsesTo Reference.runtime Samples.bareTransformer
                Samples.groupWrapper Samples.filledBox).
  { apply collapse_wrapper; [|apply collapse_stop]. repeat split. }
  split; [exact H|].
  exact (@plain_groups_collapse Reference.runtime Samples.bareTransformer
           Samples.groupWrapper Samples.filledBox H 1%nat "App").
Defined.

(** C8 as stated fails: a frame (a structural container) with no style at
    all, not interactive, with exactly one child, is rendered as an element
    around its child. *)
Lemma frame_wrapper_is_not_elided :
  JSXTransformer.hasMeaningfulStyle Samples.frameWrapper = false
  /\ map_has (JSXTransformer.jsx_interactiveElements Samples.bareTransformer)
       (node_id (attrs Samples.frameWrapper)) = false
  /\ children Samples.frameWrapper = Some [Samples.filledBox]
  /\ @JSXTransformer.transform Reference.runtime Samples.bareTransformer
       Samples.frameWrapper 1 "App"
     = Ok ("  <div className=" ++ dquote ++ "wrap" ++ dquote ++ ">" ++ StyleUtils.nl
             ++ "    <div className=" ++ dquote ++ "box" ++ dquote ++ "></div>"
             ++ StyleUtils.nl ++ "  </div>")
  /\ @JSXTransformer.transform Reference.runtime Samples.bareTransformer
       Samples.filledBox 1 "App"
     = Ok ("  <div className=" ++ dquote ++ "box" ++ dquote ++ "></div>")
  /\ @JSXTransformer.transform Reference.runtime Samples.bareTransformer
       Samples.frameWrapper 1 "App"
     <> @JSXTransformer.transform Reference.runtime Samples.bareTransformer
          Samples.filledBox 1 "App".
Proof.
  vm_compute. repeat split. discriminate.
Qed.

(* ------------------------------------------------------------------ *)
(** *** The controller *)
(* ------------------------------------------------------------------ *)

Section Controller.
Context {rt : Runtime}.
Import InteractiveElementAnalyzer ComponentAnalyzer JSXTransformer CodeGenerator.

Lemma sameConfig_refl (g : CodeGenerator) : sameConfig g g.
Proof. repeat split. Qed.

Lemma sameConfig_sym (g g' : CodeGenerator) : sameConfig g g' -> sameConfig g' g.
Proof. unfold sameConfig. intuition congruence. Qed.

Lemma sameConfig_trans (g1 g2 g3 : CodeGenerator) :
  sameConfig g1 g2 -> sameConfig g2 g3 -> sameConfig g1 g3.
Proof. unfold sameConfig. intuition congruence. Qed.

Lemma sameConfig_withContext (g : CodeGenerator) (c : Context) : sameConfig g (withContext g c).
Proof. repeat split. Qed.

Lemma sameConfig_withTransformer (g : CodeGenerator) (t : JSXTransformer) :
  sameConfig g (withTransformer g t).
Proof. repeat split. Qed.

Lemma sameConfig_analyze (g : CodeGenerator) (n : node) :
  sameConfig g (analyzeInteractiveElements g n).
Proof. apply sameConfig_withContext. Qed.

Lemma sameConfig_identify (g : CodeGenerator) (n : node) (p : ParentId) :
  sameConfig g (identifyComponents g n p).
Proof.
  unfold identifyComponents. destruct (identify n 0 p _). apply sameConfig_withContext.
Qed.

Lemma sameConfig_enterRoot (g : CodeGenerator) (processedData : node) :
  sameConfig g (enterRoot g processedData).
Proof.
  unfold enterRoot.
  eapply sameConfig_trans; [|apply sameConfig_withTransformer].
  eapply sameConfig_trans; [apply (sameConfig_withContext g emptyContext)|].
  eapply sameConfig_trans; [apply sameConfig_analyze|].
  destruct (componentize _); [apply sameConfig_identify|apply sameConfig_refl].
Qed.

Lemma sameConfig_enterSubComponent (g : CodeGenerator) (info : ComponentInfo) :
  sameConfig g (enterSubComponent g info).
Proof.
  unfold enterSubComponent.
  eapply sameConfig_trans; [|apply sameConfig_withTransformer].
  eapply sameConfig_trans; [|apply sameConfig_withContext].
  eapply sameConfig_trans; [apply (sameConfig_withContext g emptyContext)|].
  eapply sameConfig_trans; [apply sameConfig_analyze|].
  destruct (componentize _); [apply sameConfig_identify|apply sameConfig_refl].
Qed.

(** C1, as the code has it. When the nested generation of a sub-component
    returns, the generation context is the snapshot taken before descending.
    When a callee throws, the error is what the call yields and the generator
    is left as the nested generation had it: nothing is restored. *)
Theorem generateSubComponent_restores_on_return (g : CodeGenerator) (info : ComponentInfo)
  (name : jsstring) :
  let sub := generateSubComponent g info name in
  match returned sub with
  | Ok _ => context (generator sub) = saveState g
  | Throw _ => generator sub = enterSubComponent g info
  end.
Proof.
  unfold generateSubComponent.
  destruct (jsxTransformer (enterSubComponent g info)) as [t|]; [|reflexivity].
  destruct (transform t (ci_node info) 1 name); [|reflexivity].
  destruct (CSSTransformer.generate (ci_node info) name); reflexivity.
Qed.

Lemma sameConfig_generateSubComponent (g : CodeGenerator) (info : ComponentInfo)
  (name : jsstring) :
  sameConfig g (generator (generateSubComponent g info name)).
Proof.
  unfold generateSubComponent.
  destruct (jsxTransformer (enterSubComponent g info)) as [t|];
    [|apply sameConfig_enterSubComponent].
  destruct (transform t (ci_node info) 1 name); [|apply sameConfig_enterSubComponent].
  destruct (CSSTransformer.generate (ci_node info) name);
    [|apply sameConfig_enterSubComponent].
  cbn [generator]. eapply sameConfig_trans; [apply sameConfig_enterSubComponent|].
  apply sameConfig_withContext.
Qed.

Lemma sameConfig_emitDetached (entries : jsmap ComponentInfo) (rootNodeId : key)
  (used : list key) :
  forall generated g files,
    sameConfig g (snd (emitDetached entries rootNodeId used generated g files)).
Proof.
  induction entries as [|entry rest IH]; intros generated g files; cbn [emitDetached].
  - apply sameConfig_refl.
  - destruct (skipped rootNodeId used generated entry); [apply IH|].
    destruct (returned (generateSubComponent g (snd entry) (ci_name (snd entry)))) eqn:E.
    + eapply sameConfig_trans; [apply sameConfig_generateSubComponent|apply IH].
    + apply sameConfig_generateSubComponent.
Qed.

Lemma sameConfig_emitLive (entries : jsmap ComponentInfo) (rootNodeId : key)
  (used : list key) :
  forall generated g files,
    sameConfig g (snd (emitLive entries rootNodeId used generated g files)).
Proof.
  induction entries as [|entry rest IH]; intros generated g files; cbn [emitLive].
  - apply sameConfig_refl.
  - destruct (skipped rootNodeId used generated entry); [apply IH|].
    destruct (returned (generateSubComponent g (snd entry) (ci_name (snd entry)))) eqn:E.
    + eapply sameConfig_trans; [apply sameConfig_generateSubComponent|].
      apply sameConfig_emitDetached.
    + apply sameConfig_generateSubComponent.
Qed.

Lemma sameConfig_generateReact (g : CodeGenerator) (doc : node) :
  sameConfig g (after (generateReact g doc)).
Proof.
  unfold generateReact.
  set (pd := NodeUtils.preprocessObject doc None).
  destruct (jsxTransformer (enterRoot g pd)) as [t|]; [|apply sameConfig_enterRoot].
  destruct (transform t pd 1 (rootName g pd)); [|apply sameConfig_enterRoot].
  destruct (CSSTransformer.generate pd (rootName g pd)); [|apply sameConfig_enterRoot].
  destruct (componentize (enterRoot g pd) && _); [|apply sameConfig_enterRoot].
  destruct (emitLive _ _ _ _ _ _) as [out g5] eqn:E. cbn [after].
  eapply sameConfig_trans; [apply sameConfig_enterRoot|].
  change g5 with (snd (out, g5)). rewrite <- E. apply sameConfig_emitLive.
Qed.

Lemma sameConfig_generate (g : CodeGenerator) (doc : node) :
  sameConfig g (after (generate g doc)).
Proof.
  unfold generate.
  repeat match goal with
         | |- context [if ?b then _ else _] => destruct b
         end;
    try apply sameConfig_generateReact; apply sameConfig_refl.
Qed.

(** Once the context is reset and the transformer replaced, nothing of the
    generator is left but its configuration. *)
Lemma enterRoot_sameConfig (g g' : CodeGenerator) (processedData : node) :
  sameConfig g g' -> enterRoot g processedData = enterRoot g' processedData.
Proof.
  intros (Hf & Ho & Hc & Ht & Hz & Hn).
  destruct g, g'. cbn in Hf, Ho, Hc, Ht, Hz, Hn. subst.
  unfold enterRoot, resetState, analyzeInteractiveElements, withContext, withTransformer.
  cbn [format outputDir cssFramework useTypeScript componentize componentName context
       jsxTransformer].
  destruct componentize1; unfold identifyComponents, withContext;
    cbn [format outputDir cssFramework useTypeScript componentize componentName context
         jsxTransformer];
    repeat match goal with
           | |- context [identify ?n ?d ?p ?st] => destruct (identify n d p st)
           end; reflexivity.
Qed.

Lemma generateReact_sameConfig (g g' : CodeGenerator) (doc : node) :
  sameConfig g g' -> generateReact g doc = generateReact g' doc.
Proof.
  intro H. unfold generateReact.
  rewrite (enterRoot_sameConfig g g' _ H).
  assert (Hn : forall pd, rootName g pd = rootName g' pd).
  { intro pd. unfold rootName. destruct H as (_ & _ & _ & _ & _ & Hn). now rewrite Hn. }
  rewrite Hn. reflexivity.
Qed.

Lemma generateReact_processed (g : CodeGenerator) (doc : node) :
  generateReact g (NodeUtils.preprocessObject doc None) = generateReact g doc.
Proof.
  unfold generateReact. now rewrite preprocessObject_idempotent.
Qed.

Lemma generateReact_document (g : CodeGenerator) (doc : node) :
  document (generateReact g doc) = NodeUtils.preprocessObject doc None.
Proof.
  unfold generateReact.
  set (pd := NodeUtils.preprocessObject doc None).
  destruct (jsxTransformer (enterRoot g pd)) as [t|]; [|reflexivity].
  destruct (transform t pd 1 (rootName g pd)); [|reflexivity].
  destruct (CSSTransformer.generate pd (rootName g pd)); [|reflexivity].
  destruct (componentize (enterRoot g pd) && _); [|reflexivity].
  destruct (emitLive _ _ _ _ _ _). reflexivity.
Qed.

Lemma generate_sameConfig (g g' : CodeGenerator) (doc : node) :
  sameConfig g g' -> output (generate g' doc) = output (generate g doc).
Proof.
  intro H. unfold generate.
  assert (Hf : format g = format g') by apply H. rewrite <- Hf.
  rewrite (generateReact_sameConfig g g' doc H).
  repeat match goal with
         | |- context [if ?b then _ else _] => destruct b
         end; reflexivity.
Qed.

(** C4. A second call of [generate] on the same generator gives the same
    files as the first (or throws the same error), whether it is given the
    document the first call has written to or a fresh copy of the original;
    so does a call on any generator built from the same configuration. *)
Theorem generate_is_repeatable (g : CodeGenerator) (doc : node) :
  let first := generate g doc in
  output (generate (after first) (document first)) = output first
  /\ output (generate (after first) doc) = output first
  /\ forall g', sameConfig g g' -> output (generate g' doc) = output first.
Proof.
  intro first.
  assert (Hafter : sameConfig g (after first)) by apply sameConfig_generate.
  split; [|split].
  - rewrite (generate_sameConfig g (after first) _ Hafter).
    subst first. unfold generate.
    destruct (str_eqb (String_toLowerCase (format g)) "react");
      [rewrite generateReact_document; now rewrite generateReact_processed|].
    destruct (str_eqb (String_toLowerCase (format g)) "html"); [reflexivity|].
    destruct (str_eqb (String_toLowerCase (format g)) "vue"); [reflexivity|].
    rewrite generateReact_document. now rewrite generateReact_processed.
  - apply generate_sameConfig. exact Hafter.
  - intros g' H. now apply generate_sameConfig.
Qed.

Lemma toPascalCase_nonempty (str : jsstring) : NameUtils.toPascalCase str <> [].
Proof.
  unfold NameUtils.toPascalCase.
  destruct str as [|x str]; [discriminate|].
  destruct (NameUtils.clean (x :: str)) as [|y cleaned]; [discriminate|].
  cbn [length NameUtils.replaceSeparators].
  destruct (NameUtils.matchSeparatorThenUnit (y :: cleaned)) as [[u rest]|].
  - destruct (isLower (upperUnit u)); [destruct (isDigit _); discriminate|].
    destruct (isDigit (upperUnit u)); discriminate.
  - destruct (isLower y); [destruct (isDigit _); discriminate|].
    destruct (isDigit y); discriminate.
Qed.

(** A node on which a rule fires is registered, and the pass stops there. *)
Lemma identify_registers (n : node) (depth : nat) (p : ParentId)
  (components : jsmap ComponentInfo) (counter : N) :
  shouldComponentize n depth = true ->
  exists info counter',
    identify n depth p (components, counter)
    = (map_set components (node_id (attrs n)) info, counter').
Proof.
  intro H. destruct n as [a cs]. cbn [identify]. rewrite H.
  destruct (componentNameFor a counter) as [componentName counter'] eqn:E.
  assert (Hne : fst (componentNameFor a counter) <> []).
  { unfold componentNameFor.
    destruct (truthy_str (node_name a)); cbn [fst]; apply toPascalCase_nonempty. }
  rewrite E in Hne. cbn [fst] in Hne.
  apply str_eqb_neq in Hne. rewrite Hne. cbn [negb andb attrs].
  eexists. eexists. reflexivity.
Qed.

Lemma str_eqb_app (pre a b : jsstring) : str_eqb (pre ++ a) (pre ++ b) = str_eqb a b.
Proof. induction pre as [|c pre IH]; simpl; [reflexivity|]. now rewrite N.eqb_refl, IH. Qed.

Lemma unitPath_distinct (name a b : jsstring) :
  str_eqb a b = false -> str_eqb (unitPath name a) (unitPath name b) = false.
Proof.
  intro H. unfold unitPath.
  rewrite <- H.
  change ("components/" ++ name ++ "/" ++ name ++ "." ++ a)
    with ("components/" ++ (name ++ ("/" ++ (name ++ ("." ++ a))))).
  rewrite !str_eqb_app. reflexivity.
Qed.

Lemma generateTypesFile_nonempty (g : CodeGenerator) (name : jsstring) :
  exists c r, generateTypesFile g name = c :: r.
Proof. unfold generateTypesFile. eexists. eexists. reflexivity. Qed.

(** C10. When a boundary rule fires on the root, the root is registered in
    the components map, and what [generate] returns is the files of the root
    unit alone, under the name of the root: the markup file, the style sheet
    and, in typed mode, the type declarations. The emission loop ends its
    turn on the entry of the root. *)
Theorem registered_root_is_emitted_once (g : CodeGenerator) (doc : node) :
  let processedData := NodeUtils.preprocessObject doc None in
  let name := rootName g processedData in
  let g4 := enterRoot g processedData in
  componentize g = true ->
  shouldComponentize processedData 0 = true ->
  map_has (components (context g4)) (node_id (attrs processedData)) = true
  /\ output (generateReact g doc)
     = (jsx <- transform (newTransformer g4) processedData 1 name ;;
        css <- CSSTransformer.generate processedData name ;;
        Ok (rootFiles g4 processedData name jsx css))
  /\ forall jsx css,
       map fst (rootFiles g4 processedData name jsx css)
       = unitPath name (extension g) :: unitPath name "css"
           :: (if useTypeScript g then [unitPath name "types.ts"] else []).
Proof.
  intros processedData name g4 Hcomp Hrule.
  assert (Hcfg : sameConfig g g4) by apply sameConfig_enterRoot.
  assert (Hcomp4 : componentize g4 = true).
  { destruct Hcfg as (_ & _ & _ & _ & Hz & _). now rewrite <- Hz. }
  assert (Hts : useTypeScript g4 = useTypeScript g).
  { destruct Hcfg as (_ & _ & _ & Ht & _ & _). now rewrite <- Ht. }
  assert (Hmap : exists info,
             components (context g4) = [(node_id (attrs processedData), info)]).
  { subst g4. unfold enterRoot.
    cbn [withTransformer context].
    change (componentize (analyzeInteractiveElements (resetState g) processedData))
      with (componentize g).
    rewrite Hcomp. unfold identifyComponents.
    destruct (identify_registers processedData 0 NoParent
                (components (context (analyzeInteractiveElements (resetState g)
                                        processedData)))
                (componentCounter (context (analyzeInteractiveElements (resetState g)
                                              processedData)))
                Hrule) as (info & counter' & Hid).
    rewrite Hid. cbn [withContext context components]. exists info. reflexivity. }
  destruct Hmap as (info & Hmap).
  split; [|split].
  - unfold map_has. rewrite Hmap. cbn [map_get]. now rewrite key_eqb_refl.
  - assert (Hjt : jsxTransformer g4 = Some (newTransformer g4)) by reflexivity.
    unfold generateReact.
    change (NodeUtils.preprocessObject doc None) with processedData.
    change (rootName g processedData) with name.
    change (enterRoot g processedData) with g4.
    rewrite Hjt. clearbody g4 name processedData.
    destruct (transform (newTransformer g4) processedData 1 name) as [jsx|e];
      [|reflexivity].
    cbn [bind].
    destruct (CSSTransformer.generate processedData name) as [css|e]; [|reflexivity].
    cbn [bind]. rewrite Hcomp4, Hmap. cbn [length Nat.eqb negb andb emitLive].
    unfold skipped. cbn [fst]. rewrite key_eqb_refl. cbn [orb]. reflexivity.
  - intros jsx css. unfold rootFiles. rewrite Hcomp4, Hts.
    unfold extension. rewrite Hts.
    destruct (useTypeScript g).
    + destruct (generateTypesFile_nonempty g4 name) as (c & r & Hty). rewrite Hty.
      cbn [file_set].
      rewrite (unitPath_distinct name "tsx" "css" eq_refl).
      cbn [file_set].
      rewrite (unitPath_distinct name "tsx" "types.ts" eq_refl).
      rewrite (unitPath_distinct name "css" "types.ts" eq_refl).
      reflexivity.
    + cbn [file_set].
      rewrite (unitPath_distinct name "jsx" "css" eq_refl).
      reflexivity.
Qed.

End Controller.

(** C10 at work: a document whose root is a reusable component. *)
Lemma registered_root_is_emitted_once_witness :
  let g := CodeGenerator.constructor None true true None in
  CodeGenerator.componentize g = true
  /\ @ComponentAnalyzer.shouldComponentize Reference.runtime
       (NodeUtils.preprocessObject Samples.componentRoot None) 0 = true
  /\ exists files,
       CodeGenerator.output (@CodeGenerator.generateReact Reference.runtime g
                               Samples.componentRoot) = Ok files
       /\ map fst files
          = ["components/ProfileCard/ProfileCard.tsx";
             "components/ProfileCard/ProfileCard.css";
             "components/ProfileCard/ProfileCard.types.ts"].
Proof.
  intro g.
  assert (H1 : CodeGenerator.componentize g = true) by reflexivity.
  assert (H2 : @ComponentAnalyzer.shouldComponentize Reference.runtime
                 (NodeUtils.preprocessObject Samples.componentRoot None) 0 = true)
    by (vm_compute; reflexivity).
  split; [exact H1|]. split; [exact H2|].
  destruct (@registered_root_is_emitted_once Reference.runtime g Samples.componentRoot H1 H2)
    as (_ & Hout & Hpaths).
  rewrite Hout.
  destruct (@JSXTransformer.transform Reference.runtime _ _ _ _) as [jsx|e] eqn:Ejsx;
    [|vm_compute in Ejsx; discriminate Ejsx].
  cbn [bind].
  destruct (@CSSTransformer.generate Reference.runtime _ _) as [css|e] eqn:Ecss;
    [|vm_compute in Ecss; discriminate Ecss].
  cbn [bind]. eexists. split; [reflexivity|].
  rewrite Hpaths. vm_compute. reflexivity.
Defined.

(** C1 as stated fails: the label of the card carries a number, the nested
    generation of the card throws, and the generator is left with the context
    of the card (no handler) instead of the snapshot (the handler of the
    button of the page). *)
Lemma generateSubComponent_leaves_the_nested_context :
  let g := @CodeGenerator.enterRoot Reference.runtime
             (CodeGenerator.constructor None true true None)
             (NodeUtils.preprocessObject Samples.pageWithBrokenCard None) in
  let info := {| ComponentAnalyzer.ci_name := "Card";
                 ComponentAnalyzer.ci_node := Samples.brokenCard;
                 ComponentAnalyzer.ci_parentId := ComponentAnalyzer.ParentKey (Some "0:1") |} in
  let sub := @CodeGenerator.generateSubComponent Reference.runtime g info "Card" in
  map_get (CodeGenerator.components (CodeGenerator.context g)) (Some "1:2") = Some info
  /\ CodeGenerator.returned sub = Throw (TypeError "text.replace is not a function")
  /\ map InteractiveElementAnalyzer.eh_id
       (CodeGenerator.eventHandlers (CodeGenerator.saveState g)) = ["submitButton"]
  /\ CodeGenerator.eventHandlers (CodeGenerator.context (CodeGenerator.generator sub)) = []
  /\ CodeGenerator.context (CodeGenerator.generator sub) <> CodeGenerator.saveState g
  /\ CodeGenerator.output
       (@CodeGenerator.generate Reference.runtime
          (CodeGenerator.constructor None true true None) Samples.pageWithBrokenCard)
     = Throw (TypeError "text.replace is not a function").
Proof.
  vm_compute. repeat split. intro H. discriminate H.
Qed.

(* ------------------------------------------------------------------ *)
(** *** The style transformer *)
(* ------------------------------------------------------------------ *)

Section Styles.
Context {rt : Runtime}.
Import ComponentAnalyzer JSXTransformer CSSTransformer.

Lemma foldM_app {A S} (f : A -> S -> result S) (l1 l2 : list A) (s : S) :
  foldM f (l1 ++ l2) s = (s' <- foldM f l1 s ;; foldM f l2 s').
Proof.
  revert s. induction l1 as [|x l1 IH]; intro s; simpl; [reflexivity|].
  destruct (f x s); simpl; [apply IH|reflexivity].
Qed.

(** [extractStyles] visits the nodes of the document in the order of the walk. *)
Lemma extractStyles_walk (n : node) :
  forall e, extractStyles n e = foldM visit (walk n) e.
Proof.
  induction n as [a|a l IH] using node_induction; intro e.
  - cbn [extractStyles walk foldM]. unfold visit.
    destruct (getClassName (Node a None) true); reflexivity.
  - cbn [extractStyles walk foldM]. unfold visit at 1.
    destruct (getClassName (Node a (Some l)) true) as [className|err]; [|reflexivity].
    cbn [bind]. generalize (register (Node a (Some l)) className e). clear e.
    induction IH as [|c l Hc Hl IHl]; intro e; cbn [foldM flat_map]; [reflexivity|].
    rewrite foldM_app, Hc.
    destruct (foldM visit (walk c) e); cbn [bind]; [apply IHl|reflexivity].
Qed.

(** *** What a visit does to the collections *)

Lemma map_get_set_same {V} (m : jsmap V) (k : key) (v : V) :
  map_get (map_set m k v) k = Some v.
Proof.
  induction m as [|[k' v'] m IH]; simpl.
  - now rewrite key_eqb_refl.
  - destruct (key_eqb k' k) eqn:E; simpl; rewrite E; [reflexivity|exact IH].
Qed.

Lemma map_get_set_other {V} (m : jsmap V) (k k' : key) (v : V) :
  k' <> k -> map_get (map_set m k v) k' = map_get m k'.
Proof.
  intro Hne. induction m as [|[k0 v0] m IH]; simpl.
  - destruct (key_eqb k k') eqn:E; [apply key_eqb_eq in E; congruence|reflexivity].
  - destruct (key_eqb k0 k) eqn:E; simpl.
    + apply key_eqb_eq in E. subst k0.
      destruct (key_eqb k k') eqn:E'; [apply key_eqb_eq in E'; congruence|reflexivity].
    + destruct (key_eqb k0 k'); [reflexivity|exact IH].
Qed.

Lemma map_set_keys {V} (m : jsmap V) (k : key) (v : V) :
  map fst (map_set m k v) = if map_has m k then map fst m else map fst m ++ [k].
Proof.
  unfold map_has. induction m as [|[k' v'] m IH]; simpl; [reflexivity|].
  destruct (key_eqb k' k) eqn:E; simpl; [reflexivity|].
  rewrite IH. destruct (map_get m k); reflexivity.
Qed.

Lemma map_get_In {V} (m : jsmap V) (k : key) (v : V) :
  map_get m k = Some v -> In (k, v) m.
Proof.
  induction m as [|[k' v'] m IH]; simpl; [discriminate|].
  destruct (key_eqb k' k) eqn:E.
  - apply key_eqb_eq in E. intro H. inversion H. subst. now left.
  - intro H. right. now apply IH.
Qed.

Lemma map_has_keys {V} (m : jsmap V) (k : key) :
  map_has m k = false -> ~ In k (map fst m).
Proof.
  unfold map_has. induction m as [|[k' v'] m IH]; simpl; [tauto|].
  destruct (key_eqb k' k) eqn:E; [discriminate|].
  intros H [Hk|Hin]; [subst; rewrite key_eqb_refl in E; discriminate|now apply IH].
Qed.

Lemma map_set_NoDup {V} (m : jsmap V) (k : key) (v : V) :
  NoDup (map fst m) -> NoDup (map fst (map_set m k v)).
Proof.
  intro H. rewrite map_set_keys. destruct (map_has m k) eqn:E; [exact H|].
  apply NoDup_app; [exact H|repeat constructor; intros []|].
  intros x Hx [Hk|[]]. subst x. now apply (map_has_keys m k E).
Qed.

Lemma mem_In (x : jsstring) (l : list jsstring) : mem x l = true <-> In x l.
Proof.
  unfold mem. rewrite existsb_exists. split.
  - intros (y & Hin & Heq). apply str_eqb_eq in Heq. now subst.
  - intro Hin. exists x. split; [exact Hin|apply str_eqb_refl].
Qed.

(** The four outcomes of [register]. *)
Lemma register_skip (n : node) (c : jsstring) (e : Extraction) :
  c = [] \/ mem c (processedClasses e) = true -> register n c e = e.
Proof.
  intros [H|H]; unfold register; [subst; reflexivity|].
  rewrite H. now rewrite andb_false_r.
Qed.

Lemma register_fresh (n : node) (c : jsstring) (e : Extraction) :
  c <> [] -> mem c (processedClasses e) = false ->
  register n c e
  = if hasOwnRule n c then
      match getStyleKey n with
      | Some (x :: k) =>
          if map_has (styleMap e) (Some (x :: k)) then
            {| singleStyles := singleStyles e;
               processedClasses := processedClasses e ++ [c];
               styleMap := styleMap e;
               styleGroups :=
                 let groups1 :=
                   if negb (map_has (styleGroups e) (Some (x :: k)))
                   then map_set (styleGroups e) (Some (x :: k))
                          {| sg_classes :=
                               [match map_get (styleMap e) (Some (x :: k)) with
                                | Some existing => existing
                                | None => []
                                end];
                             sg_style := nodeToCSS n c |}
                   else styleGroups e in
                 match map_get groups1 (Some (x :: k)) with
                 | Some group =>
                     if negb (mem c (sg_classes group))
                     then map_set groups1 (Some (x :: k))
                            {| sg_classes := sg_classes group ++ [c];
                               sg_style := sg_style group |}
                     else groups1
                 | None => groups1
                 end |}
          else
            {| singleStyles := singleStyles e;
               processedClasses := processedClasses e ++ [c];
               styleMap := map_set (styleMap e) (Some (x :: k)) c;
               styleGroups := map_set (styleGroups e) (Some (x :: k))
                                {| sg_classes := [c]; sg_style := nodeToCSS n c |} |}
      | _ =>
          {| singleStyles := singleStyles e ++ [nodeToCSS n c];
             processedClasses := processedClasses e ++ [c];
             styleMap := styleMap e;
             styleGroups := styleGroups e |}
      end
    else markProcessed e c.
Proof.
  intros Hc Hm. unfold register, hasOwnRule. rewrite Hm.
  destruct c as [|c0 c]; [contradiction|]. cbn [negb andb].
  cbn [processedClasses singleStyles styleMap styleGroups].
  destruct (typeIsTEXT (attrs n)
            || match node_absoluteBoundingBox (attrs n) with
               | Some _ => true
               | None => false
               end); cbn [andb]; [|reflexivity].
  destruct (match nodeToCSS n (c0 :: c) with [] => false | _ :: _ => true end
            && (length (c0 :: c) + 5 <? length (trim (nodeToCSS n (c0 :: c))))%nat);
    [|reflexivity].
  destruct (getStyleKey n) as [[|x k]|]; cbn [truthy_str andb]; reflexivity.
Qed.

(** *** Rules and keys are not blank *)

Lemma hasInk_app (a b : jsstring) : hasInk (a ++ b) = hasInk a || hasInk b.
Proof. apply existsb_app. Qed.

Lemma hasInk_rev (a : jsstring) : hasInk (rev a) = hasInk a.
Proof.
  unfold hasInk. induction a as [|c a IH]; simpl; [reflexivity|].
  rewrite existsb_app, IH. simpl. rewrite orb_false_r. apply orb_comm.
Qed.

Lemma hasInk_dropWhile (a : jsstring) : hasInk (dropWhile isWhiteSpace a) = hasInk a.
Proof.
  induction a as [|c a IH]; [reflexivity|]. cbn [dropWhile].
  destruct (isWhiteSpace c) eqn:E; [|reflexivity].
  rewrite IH. unfold hasInk. cbn [existsb]. now rewrite E.
Qed.

Lemma hasInk_trim (a : jsstring) : hasInk (trim a) = hasInk a.
Proof. unfold trim. now rewrite hasInk_rev, hasInk_dropWhile, hasInk_rev, hasInk_dropWhile. Qed.

Lemma split_aux_ink (s cur : jsstring) :
  hasInk s || hasInk cur = true ->
  exists line, In line (split_aux 10 s cur) /\ hasInk line = true.
Proof.
  revert cur. induction s as [|c s IH]; intros cur H; cbn [split_aux].
  - exists (rev cur). split; [now left|]. now rewrite hasInk_rev.
  - destruct (c =? 10) eqn:E.
    + apply N.eqb_eq in E. subst c.
      destruct (hasInk cur) eqn:Hcur.
      * exists (rev cur). split; [now left|]. now rewrite hasInk_rev.
      * destruct (IH [] ) as (line & Hin & Hink).
        { rewrite orb_false_r in H. cbn in H. now rewrite orb_false_r. }
        exists line. split; [now right|exact Hink].
    + apply IH. cbn [hasInk existsb] in *. fold (hasInk s) in *. fold (hasInk cur).
      destruct (negb (isWhiteSpace c)), (hasInk s), (hasInk cur); auto.
Qed.

Lemma filterBoolean_In (x : jsstring) (l : list jsstring) :
  In x l -> x <> [] -> filterBoolean l <> [].
Proof.
  intros Hin Hx H.
  assert (Hf : In x (filterBoolean l)).
  { unfold filterBoolean. apply filter_In. split; [exact Hin|]. now destruct x. }
  rewrite H in Hf. exact Hf.
Qed.

Lemma uptoLastBrace_snoc (w : jsstring) : uptoLastBrace (w ++ [125]) = Some w.
Proof. induction w as [|c w IH]; cbn [app uptoLastBrace]; [reflexivity|now rewrite IH]. Qed.

Lemma braced_after (x y : jsstring) :
  exists z, braced (x ++ 123 :: y) = uptoLastBrace (z ++ y).
Proof.
  induction x as [|c x IH]; cbn [app braced].
  - exists []. reflexivity.
  - destruct (c =? 123).
    + exists (x ++ [123]). now rewrite <- app_assoc.
    + exact IH.
Qed.

(** A rule that has a body has lines left once the selector is taken off. *)
Lemma rules_extracted (c : jsstring) (rules : list jsstring) :
  Forall (fun r => hasInk r = true) rules -> rules <> [] ->
  extractCSSRulesFromStyle
    (c ++ " {" ++ StyleUtils.nl ++ join StyleUtils.nl rules ++ StyleUtils.nl ++ "}") <> [].
Proof.
  intros Hink Hne. unfold extractCSSRulesFromStyle.
  assert (Hshape :
    c ++ " {" ++ StyleUtils.nl ++ join StyleUtils.nl rules ++ StyleUtils.nl ++ "}"
    = (c ++ " ") ++ 123 :: ((StyleUtils.nl ++ join StyleUtils.nl rules ++ StyleUtils.nl)
                              ++ [125])).
  { rewrite <- !app_assoc. reflexivity. }
  rewrite Hshape. clear Hshape.
  destruct (braced_after (c ++ " ")
              ((StyleUtils.nl ++ join StyleUtils.nl rules ++ StyleUtils.nl) ++ [125]))
    as (z & Hz).
  rewrite Hz, app_assoc, uptoLastBrace_snoc.
  set (inner := z ++ StyleUtils.nl ++ join StyleUtils.nl rules ++ StyleUtils.nl).
  assert (Hinner : hasInk inner = true).
  { subst inner. rewrite !hasInk_app.
    destruct rules as [|r0 rs]; [contradiction|].
    inversion Hink as [|? ? Hr0 _]; subst.
    assert (Hj : hasInk (join StyleUtils.nl (r0 :: rs)) = true).
    { cbn [join]. destruct rs; [exact Hr0|]. rewrite hasInk_app, Hr0. reflexivity. }
    rewrite Hj. now rewrite !orb_true_r. }
  destruct inner as [|i0 inner']; [discriminate|].
  destruct (split_aux_ink (i0 :: inner') []) as (line & Hin & Hline).
  { now rewrite Hinner. }
  apply filterBoolean_In with (x := trim line).
  - apply in_map. exact Hin.
  - intro H. rewrite <- hasInk_trim, H in Hline. discriminate.
Qed.

Ltac inked :=
  repeat first
    [ apply Forall_nil
    | apply Forall_app; split
    | apply Forall_cons; [reflexivity|]
    | match goal with
      | |- Forall _ (when ?b _) => destruct b; cbn [when]
      | |- Forall _ (if ?b then _ else _) => destruct b
      | |- Forall _ (match ?x with _ => _ end) => destruct x
      end ].

Lemma rulesOf_inked (n : node) : Forall (fun r => hasInk r = true) (rulesOf n).
Proof.
  unfold rulesOf, sizeRules, backgroundRules, borderRules, radiusRules, paddingRules,
    fontRules, layoutRules, axisRule, positionRules, constraintRules, axisConstraintRules,
    tailRules, limitRule.
  inked.
Qed.

Lemma nodeToCSS_extracted (n : node) (c : jsstring) :
  nodeToCSS n c <> [] -> extractCSSRulesFromStyle (nodeToCSS n c) <> [].
Proof.
  unfold nodeToCSS. intro H.
  destruct (rulesOf n) as [|r0 rs] eqn:E; [contradiction|].
  apply rules_extracted; [rewrite <- E; apply rulesOf_inked|discriminate].
Qed.

Lemma join_nonempty (sep : jsstring) (parts : list jsstring) :
  Forall (fun p => p <> []) parts -> parts <> [] -> join sep parts <> [].
Proof.
  intros H Hne. destruct parts as [|p ps]; [contradiction|].
  inversion H as [|? ? Hp _]; subst. destruct p as [|x p]; [contradiction|].
  cbn [join]. destruct ps; discriminate.
Qed.

Ltac lettered :=
  repeat first
    [ apply Forall_nil
    | apply Forall_app; split
    | apply Forall_cons; [discriminate|]
    | match goal with
      | |- Forall _ (when ?b _) => destruct b; cbn [when]
      | |- Forall _ (if ?b then _ else _) => destruct b
      | |- Forall _ (match ?x with _ => _ end) => destruct x
      end ].

(** A style key is never the empty string. *)
Lemma getStyleKey_nonempty (n : node) (k : jsstring) : getStyleKey n = Some k -> k <> [].
Proof.
  unfold getStyleKey. cbv zeta.
  match goal with
  | |- match ?parts with [] => None | _ :: _ => Some (join ?sep ?parts') end = _ -> _ =>
      intro H;
      assert (Hall : Forall (fun p : jsstring => p <> []) parts) by lettered;
      destruct parts as [|p0 ps] eqn:E; [discriminate|];
      assert (Hk : k = join "|" (p0 :: ps)) by congruence;
      rewrite Hk; apply (join_nonempty "|" (p0 :: ps)); [exact Hall|discriminate]
  end.
Qed.

(** *** Invariants of the walk *)

Lemma map_get_set {V} (m : jsmap V) (k k' : key) (v : V) :
  map_get (map_set m k v) k' = if key_eqb k k' then Some v else map_get m k'.
Proof.
  destruct (key_eqb k k') eqn:E.
  - apply key_eqb_eq in E. subst k'. apply map_get_set_same.
  - apply map_get_set_other. intro H. subst k'. now rewrite key_eqb_refl in E.
Qed.

Lemma sound_later (seen more : list node) (e : Extraction) :
  sound seen e -> sound (seen ++ more) e.
Proof.
  intros [Hp Hk Hb]. split; [|exact Hk|exact Hb].
  intros c Hc. destruct (Hp c Hc) as (m & Hm & Hcm).
  exists m. split; [apply in_or_app; now left|exact Hcm].
Qed.

Lemma sound_empty : sound [] emptyExtraction.
Proof. split; [intros c []|constructor|intros k group H; discriminate H]. Qed.

Lemma hasOwnRule_style (n : node) (c : jsstring) :
  hasOwnRule n c = true -> nodeToCSS n c <> [].
Proof.
  unfold hasOwnRule. intros H E. rewrite E in H.
  now rewrite andb_false_r in H.
Qed.

Lemma register_sound (seen : list node) (n : node) (c : jsstring) (e : Extraction) :
  getClassName n true = Ok c -> sound seen e -> sound (seen ++ [n]) (register n c e).
Proof.
  intros Hc Hs.
  assert (Hcase : c = [] \/ c <> []) by (destruct c; [now left|right; discriminate]).
  destruct Hcase as [Hempty|Hne];
    [rewrite register_skip by (now left); now apply sound_later|].
  destruct (mem c (processedClasses e)) eqn:Hm;
    [rewrite register_skip by (now right); now apply sound_later|].
  assert (Hp' : forall c', In c' (processedClasses e ++ [c]) ->
                 exists m, In m (seen ++ [n]) /\ getClassName m true = Ok c').
  { intros c' Hin. apply in_app_or in Hin as [Hin|[<-|[]]].
    - destruct (sound_processed Hs c' Hin) as (m & Hin' & Hm').
      exists m. split; [apply in_or_app; now left|exact Hm'].
    - exists n. split; [apply in_or_app; right; now left|exact Hc]. }
  rewrite register_fresh by assumption.
  destruct (hasOwnRule n c) eqn:Hown;
    [|split; [exact Hp'|exact (sound_keys Hs)|exact (sound_bodies Hs)]].
  pose proof (nodeToCSS_extracted n c (hasOwnRule_style n c Hown)) as Hbody.
  destruct (getStyleKey n) as [[|x k]|];
    try (split; [exact Hp'|exact (sound_keys Hs)|exact (sound_bodies Hs)]).
  set (key := Some (x :: k)).
  destruct (map_has (styleMap e) key).
  - set (groups1 := if negb (map_has (styleGroups e) key)
                    then map_set (styleGroups e) key _ else styleGroups e).
    assert (H1 : NoDup (map fst groups1)
                 /\ forall k' g, map_get groups1 k' = Some g ->
                      extractCSSRulesFromStyle (sg_style g) <> []).
    { subst groups1. destruct (map_has (styleGroups e) key); cbn [negb].
      - split; [exact (sound_keys Hs)|exact (sound_bodies Hs)].
      - split; [apply map_set_NoDup, (sound_keys Hs)|].
        intros k' g. rewrite map_get_set. destruct (key_eqb key k').
        + intro H. inversion H. exact Hbody.
        + apply (sound_bodies Hs). }
    destruct H1 as [Hk1 Hb1]. cbv zeta. fold key. fold groups1.
    split; cbn [processedClasses styleGroups]; [exact Hp'| |].
    + destruct (map_get groups1 key) as [g|]; [|exact Hk1].
      destruct (negb (mem c (sg_classes g))); [apply map_set_NoDup|]; exact Hk1.
    + intros k' g'. destruct (map_get groups1 key) as [g|] eqn:Eg; [|apply Hb1].
      destruct (negb (mem c (sg_classes g))); [|apply Hb1].
      rewrite map_get_set. destruct (key_eqb key k').
      * intro H. inversion H. cbn [sg_style]. exact (Hb1 key g Eg).
      * apply Hb1.
  - split; cbn [processedClasses styleGroups];
      [exact Hp'|apply map_set_NoDup, (sound_keys Hs)|].
    intros k' g. rewrite map_get_set. destruct (key_eqb key k').
    + intro H. inversion H. exact Hbody.
    + apply (sound_bodies Hs).
Qed.



Lemma visits_sound (l seen : list node) (e e' : Extraction) :
  sound seen e -> foldM visit l e = Ok e' -> sound (seen ++ l) e'.
Proof.
  revert seen e. induction l as [|n l IH]; intros seen e Hs H; cbn [foldM] in H.
  - inversion H. subst. now rewrite app_nil_r.
  - unfold visit at 1 in H. destruct (getClassName n true) as [c|err] eqn:Hc; [|discriminate].
    cbn [bind] in H. change (seen ++ n :: l) with (seen ++ [n] ++ l). rewrite app_assoc.
    apply (IH _ _ (register_sound seen n c e Hc Hs) H).
Qed.


(** The walk returns when every node has a class name. *)
Lemma visits_return (l : list node) (e : Extraction) :
  (forall m, In m l -> exists c, getClassName m true = Ok c) ->
  exists e', foldM visit l e = Ok e'.
Proof.
  revert e. induction l as [|n l IH]; intros e H; cbn [foldM]; [now exists e|].
  destruct (H n (or_introl eq_refl)) as (c & Hc). unfold visit at 1. rewrite Hc. cbn [bind].
  apply IH. intros m Hm. apply H. now right.
Qed.

(** A node whose class name no earlier node has is new to the collections. *)
Lemma unmet_is_new (seen : list node) (c : jsstring) (e : Extraction) :
  sound seen e -> notMetIn c seen -> mem c (processedClasses e) = false.
Proof.
  intros Hs Hnot. destruct (mem c (processedClasses e)) eqn:Hm; [|reflexivity].
  apply mem_In in Hm. destruct (sound_processed Hs c Hm) as (m & Hin & Hc).
  now destruct (Hnot m Hin).
Qed.

(** *** The style sheet *)





Lemma group_block_emitted (e : Extraction) (k : key) (group : StyleGroup) (block : jsstring) :
  map_get (styleGroups e) k = Some group -> groupRule group = [block] ->
  In block (styleBlocks e).
Proof.
  intros Hget Hrule. unfold styleBlocks. apply in_or_app. right. apply in_or_app. left.
  apply in_flat_map. exists (k, group). split; [now apply map_get_In|].
  cbn [snd]. rewrite Hrule. now left.
Qed.


End Styles.



(* ------------------------------------------------------------------ *)
(** *** Names: the shape of what the converters return *)
(* ------------------------------------------------------------------ *)

Section Names.
Import NameUtils.

(** Decides a comparison of code units by cases on the tests in it. *)
Ltac units :=
  intros;
  unfold isWordUnit, isKebabUnit, isNameUnit, isSeparator, upperUnit, lowerUnit in *;
  unfold isAlnum, isHyphen, isLineTerminator, isWhiteSpace in *;
  unfold isLower, isUpper, isDigit in *; unfold inRange in *;
  repeat match goal with
         | |- context [if ?b then _ else _] => destruct b eqn:?
         | H : context [if ?b then _ else _] |- _ => destruct b eqn:?
         end;
  rewrite ?orb_true_iff, ?andb_true_iff, ?orb_false_iff, ?andb_false_iff,
    ?N.leb_le, ?N.eqb_eq, ?N.leb_gt, ?N.eqb_neq in *;
  try lia;
  repeat match goal with
         | |- context [N.eqb ?a ?b] => destruct (N.eqb_spec a b)
         | |- context [N.leb ?a ?b] => destruct (N.leb_spec a b)
         end;
  try reflexivity; try lia.

Lemma lowerUnit_kebab (c : N) : isWordUnit c = true -> isKebabUnit (lowerUnit c) = true.
Proof. units. Qed.

Lemma lowerUnit_hyphen (c : N) : isHyphen (lowerUnit c) = isHyphen c.
Proof. units. Qed.

Lemma kebab_not_upper (c : N) : isKebabUnit c = true -> isUpper c = false.
Proof. units. Qed.

Lemma kebab_is_word (c : N) : isKebabUnit c = true -> isWordUnit c = true.
Proof. units. Qed.

Lemma word_not_blank (c : N) :
  isWordUnit c = true -> (isWhiteSpace c || (c =? 95)) = false.
Proof. units. Qed.

(** **** Kebab case *)

Lemma replaceRuns_In (p : N -> bool) (b : bool) (s : jsstring) (c : N) :
  In c (replaceRuns p b s) -> c = 45 \/ (In c s /\ p c = false).
Proof.
  revert b. induction s as [|x s IH]; intros b H; cbn [replaceRuns] in H; [destruct H|].
  destruct (p x) eqn:Hx.
  - destruct b; [|destruct H as [<-|H]; [now left|]];
      (destruct (IH _ H) as [->|[Hin Hp]]; [now left|right; split; [now right|exact Hp]]).
  - destruct H as [<-|H]; [right; split; [now left|exact Hx]|].
    destruct (IH _ H) as [->|[Hin Hp]]; [now left|right; split; [now right|exact Hp]].
Qed.

Lemma dropWhile_In (p : N -> bool) (s : jsstring) (c : N) :
  In c (dropWhile p s) -> In c s.
Proof.
  induction s as [|x s IH]; cbn [dropWhile]; [tauto|].
  destruct (p x); [intro H; right; now apply IH|tauto].
Qed.

Lemma stripHyphens_In (s : jsstring) (c : N) : In c (stripHyphens s) -> In c s.
Proof.
  unfold stripHyphens. intro H.
  apply in_rev, dropWhile_In, in_rev, dropWhile_In in H. exact H.
Qed.

(** An induction that follows [hyphenateCamel], which steps over one unit
    or over two. *)
Lemma two_step_induction (P : jsstring -> Prop) :
  P [] -> (forall a, P [a]) ->
  (forall a b s, P s -> P (b :: s) -> P (a :: b :: s)) ->
  forall s, P s.
Proof.
  intros H0 H1 H2 s.
  assert (H : P s /\ forall a, P (a :: s)); [|exact (proj1 H)].
  induction s as [|b s [IHs IHb]]; split; auto.
Qed.

Lemma hyphenateCamel_In (s : jsstring) (c : N) :
  In c (hyphenateCamel s) -> c = 45 \/ In c s.
Proof.
  induction s as [|a|a b s IH1 IH2] using two_step_induction; cbn [hyphenateCamel].
  - intros [].
  - intros [<-|[]]. right. now left.
  - destruct (isLower a && isUpper b).
    + intros [<-|[<-|[<-|H]]]; [right; now left|now left|right; right; now left|].
      destruct (IH1 H) as [->|Hin]; [now left|right; right; now right].
    + intros [<-|H]; [right; now left|].
      destruct (IH2 H) as [->|Hin]; [now left|right; now right].
Qed.

Lemma hyphenateCamel_fixed (s : jsstring) :
  (forall c, In c s -> isUpper c = false) -> hyphenateCamel s = s.
Proof.
  induction s as [|a|a b s IH1 IH2] using two_step_induction; intro H;
    cbn [hyphenateCamel]; try reflexivity.
  rewrite (H b) by (right; now left). rewrite andb_false_r.
  f_equal. apply IH2. intros c Hc. apply H. now right.
Qed.

Lemma replaceRuns_fixed (p : N -> bool) (s : jsstring) :
  (forall c, In c s -> p c = false) -> replaceRuns p false s = s.
Proof.
  induction s as [|x s IH]; intro H; cbn [replaceRuns]; [reflexivity|].
  rewrite (H x) by now left. f_equal. apply IH. intros c Hc. apply H. now right.
Qed.

Lemma dropWhile_snoc (p : N -> bool) (s : jsstring) (x : N) :
  p x = false -> dropWhile p (s ++ [x]) = dropWhile p s ++ [x].
Proof.
  intro Hx. induction s as [|y s IH]; cbn [app dropWhile]; [now rewrite Hx|].
  destruct (p y); [exact IH|reflexivity].
Qed.

Lemma dropWhile_head (p : N -> bool) (s : jsstring) :
  match dropWhile p s with x :: _ => p x = false | [] => True end.
Proof.
  induction s as [|y s IH]; cbn [dropWhile]; [exact I|].
  destruct (p y) eqn:Hy; [exact IH|exact Hy].
Qed.

Lemma startsWith_hyphen (s : jsstring) : startsWith s "-" = firstIs isHyphen s.
Proof.
  destruct s as [|x s]; [reflexivity|]. cbn [startsWith firstIs]. unfold isHyphen.
  destruct s; cbn [startsWith]; rewrite andb_true_r; apply N.eqb_sym.
Qed.

Lemma endsWith_hyphen (s : jsstring) : endsWith s "-" = firstIs isHyphen (rev s).
Proof. unfold endsWith. cbn [rev app]. apply startsWith_hyphen. Qed.

Lemma stripHyphens_ends (s : jsstring) :
  firstIs isHyphen (stripHyphens s) = false
  /\ firstIs isHyphen (rev (stripHyphens s)) = false.
Proof.
  unfold stripHyphens. rewrite rev_involutive.
  pose proof (dropWhile_head isHyphen s) as Hhead.
  destruct (dropWhile isHyphen s) as [|x t]; [split; reflexivity|].
  cbn [rev]. rewrite (dropWhile_snoc _ _ _ Hhead), rev_app_distr. cbn [rev app firstIs].
  split; [exact Hhead|].
  pose proof (dropWhile_head isHyphen (rev t ++ [x])) as Hlast.
  rewrite (dropWhile_snoc _ _ _ Hhead) in Hlast.
  destruct (dropWhile isHyphen (rev t)) as [|y u]; cbn [app firstIs] in *; exact Hlast.
Qed.

Lemma replaceRuns_snoc (p : N -> bool) (b : bool) (s : jsstring) (x : N) :
  p x = false -> replaceRuns p b (s ++ [x]) = replaceRuns p b s ++ [x].
Proof.
  intro Hx. revert b. induction s as [|y s IH]; intro b; cbn [app replaceRuns].
  - now rewrite Hx.
  - destruct (p y); [destruct b|]; cbn [app]; now rewrite IH.
Qed.

Lemma last_unit (p : N -> bool) (s : jsstring) :
  s <> [] -> firstIs p (rev s) = false -> exists t x, s = t ++ [x] /\ p x = false.
Proof.
  intros Hne H. destruct (rev s) as [|x t] eqn:E.
  - apply (f_equal (@rev N)) in E. rewrite rev_involutive in E. now destruct Hne.
  - exists (rev t), x. split; [|exact H].
    apply (f_equal (@rev N)) in E. now rewrite rev_involutive in E.
Qed.

Lemma merged_ends (s : jsstring) :
  firstIs isHyphen s = false -> firstIs isHyphen (rev s) = false ->
  firstIs isHyphen (replaceRuns isHyphen false s) = false
  /\ firstIs isHyphen (rev (replaceRuns isHyphen false s)) = false.
Proof.
  intros Hfirst Hlast. split.
  - destruct s as [|x s]; [reflexivity|]. cbn [firstIs] in Hfirst.
    cbn [replaceRuns]. rewrite Hfirst. exact Hfirst.
  - destruct s as [|y s']; [reflexivity|].
    destruct (last_unit isHyphen (y :: s')) as (t & x & -> & Hx);
      [discriminate|exact Hlast|].
    rewrite (replaceRuns_snoc _ _ _ _ Hx), rev_app_distr. exact Hx.
Qed.

Lemma merged_single (s : jsstring) :
  singleHyphens (replaceRuns isHyphen false s) = true
  /\ singleHyphens (replaceRuns isHyphen true s) = true
  /\ firstIs isHyphen (replaceRuns isHyphen true s) = false.
Proof.
  induction s as [|x s (IHf & IHt & IHh)]; [repeat split|].
  cbn [replaceRuns]. destruct (isHyphen x) eqn:Hx.
  - repeat split; [|exact IHt|exact IHh].
    cbn [singleHyphens]. destruct (replaceRuns isHyphen true s) as [|y u] eqn:E;
      [reflexivity|].
    cbn [firstIs] in IHh. rewrite IHh, andb_false_r. exact IHt.
  - assert (H : singleHyphens (x :: replaceRuns isHyphen false s) = true).
    { cbn [singleHyphens]. destruct (replaceRuns isHyphen false s); [reflexivity|].
      rewrite Hx. exact IHf. }
    repeat split; [exact H|exact H|exact Hx].
Qed.

Lemma single_fixed (s : jsstring) :
  singleHyphens s = true ->
  replaceRuns isHyphen false s = s
  /\ (firstIs isHyphen s = false -> replaceRuns isHyphen true s = s).
Proof.
  induction s as [|x s IH]; intro H; [split; reflexivity|].
  cbn [replaceRuns firstIs]. cbn [singleHyphens] in H.
  assert (Hs : singleHyphens s = true)
    by (destruct s; [reflexivity|now apply andb_true_iff in H]).
  destruct (IH Hs) as [IHf IHt]. destruct (isHyphen x) eqn:Hx.
  - split; [|discriminate]. f_equal; [symmetry; now apply N.eqb_eq|]. apply IHt.
    destruct s as [|y s]; [reflexivity|]. cbn [firstIs].
    apply andb_true_iff in H as [H _]. now destruct (isHyphen y).
  - split; intros; now f_equal.
Qed.

Lemma single_lower (s : jsstring) : singleHyphens (map lowerUnit s) = singleHyphens s.
Proof.
  induction s as [|x s IH]; [reflexivity|]. cbn [map singleHyphens].
  destruct s as [|y s]; [reflexivity|]. cbn [map] in *.
  now rewrite !lowerUnit_hyphen, IH.
Qed.

Lemma first_lower (s : jsstring) :
  firstIs isHyphen (map lowerUnit s) = firstIs isHyphen s.
Proof. destruct s; [reflexivity|apply lowerUnit_hyphen]. Qed.

Lemma includes_two_hyphens (s : jsstring) : includes s "--" = negb (singleHyphens s).
Proof.
  induction s as [|a s IH]; [reflexivity|]. cbn [includes singleHyphens]. rewrite IH.
  destruct s as [|b s]; [cbn; now rewrite andb_false_r|].
  assert (Hstart : startsWith (a :: b :: s) "--" = isHyphen a && isHyphen b).
  { cbn [startsWith]. unfold isHyphen. rewrite (N.eqb_sym 45 a), (N.eqb_sym 45 b).
    destruct s; cbn [startsWith]; now rewrite andb_true_r. }
  rewrite Hstart. destruct (isHyphen a && isHyphen b); reflexivity.
Qed.

(** What [toKebabCase] returns is in kebab case. *)
Lemma toKebabCase_shape (str : jsstring) : kebabShaped (toKebabCase str).
Proof.
  unfold toKebabCase. destruct str as [|x0 str]; [repeat split|]. cbv zeta.
  set (s1 := hyphenateCamel (x0 :: str)).
  set (s2 := replaceRuns (fun c => negb (isAlnum c || isHyphen c)) false s1).
  set (s3 := replaceRuns (fun c => isWhiteSpace c || (c =? 95)) false s2).
  set (s4 := stripHyphens s3).
  set (s5 := replaceRuns isHyphen false s4).
  assert (H2 : forall c, In c s2 -> isWordUnit c = true).
  { intros c Hc. apply replaceRuns_In in Hc as [->|[_ Hc]]; [reflexivity|].
    unfold isWordUnit. now apply negb_false_iff in Hc. }
  assert (H5 : forall c, In c s5 -> isWordUnit c = true).
  { intros c Hc. apply replaceRuns_In in Hc as [->|[Hc _]]; [reflexivity|].
    apply stripHyphens_In, replaceRuns_In in Hc as [->|[Hc _]]; [reflexivity|].
    now apply H2. }
  destruct (stripHyphens_ends s3) as [Hfirst Hlast]. fold s4 in Hfirst, Hlast.
  destruct (merged_ends s4 Hfirst Hlast) as [Hfirst5 Hlast5]. fold s5 in Hfirst5, Hlast5.
  unfold kebabShaped. repeat split.
  - apply forallb_forall. intros c Hc. apply in_map_iff in Hc as (d & <- & Hd).
    apply lowerUnit_kebab. now apply H5.
  - now rewrite startsWith_hyphen, first_lower.
  - now rewrite endsWith_hyphen, <- map_rev, first_lower.
  - rewrite includes_two_hyphens, single_lower.
    unfold s5. now rewrite (proj1 (merged_single s4)).
Qed.

(** A string in kebab case is returned as it is. *)
Lemma kebab_fixed (s : jsstring) : kebabShaped s -> toKebabCase s = s.
Proof.
  intros (Hunits & Hfirst & Hlast & Hsingle).
  rewrite startsWith_hyphen in Hfirst. rewrite endsWith_hyphen in Hlast.
  rewrite includes_two_hyphens in Hsingle. apply negb_false_iff in Hsingle.
  assert (Hu : forall c, In c s -> isKebabUnit c = true)
    by (intros c Hc; exact (proj1 (forallb_forall _ _) Hunits c Hc)).
  unfold toKebabCase. destruct s as [|x0 s]; [reflexivity|]. cbv zeta.
  rewrite hyphenateCamel_fixed by (intros c Hc; apply kebab_not_upper; now apply Hu).
  rewrite (replaceRuns_fixed (fun c => negb (isAlnum c || isHyphen c)))
    by (intros c Hc; apply negb_false_iff; apply kebab_is_word; now apply Hu).
  rewrite (replaceRuns_fixed (fun c => isWhiteSpace c || (c =? 95)))
    by (intros c Hc; apply word_not_blank, kebab_is_word; now apply Hu).
  assert (Hstrip : stripHyphens (x0 :: s) = x0 :: s).
  { unfold stripHyphens. cbn [firstIs] in Hfirst. cbn [dropWhile]. rewrite Hfirst.
    destruct (last_unit isHyphen (x0 :: s)) as (t & x & E & Hx);
      [discriminate|exact Hlast|].
    rewrite E, rev_app_distr. cbn [rev app dropWhile]. rewrite Hx.
    cbn [rev]. now rewrite rev_involutive. }
  rewrite Hstrip, (proj1 (single_fixed _ Hsingle)).
  clear - Hu. induction (x0 :: s) as [|c l IH]; [reflexivity|]. cbn [map].
  rewrite IH by (intros d Hd; apply Hu; now right). f_equal.
  pose proof (kebab_not_upper c (Hu c (or_introl eq_refl))) as Hc.
  unfold lowerUnit. now rewrite Hc.
Qed.

(** **** Pascal case *)

Lemma trim_In (s : jsstring) (c : N) : In c (trim s) -> In c s.
Proof.
  unfold trim. intro H. apply in_rev, dropWhile_In, in_rev, dropWhile_In in H. exact H.
Qed.

Lemma trim_last (s : jsstring) : firstIs isWhiteSpace (rev (trim s)) = false.
Proof.
  unfold trim. rewrite rev_involutive.
  pose proof (dropWhile_head isWhiteSpace (rev (dropWhile isWhiteSpace s))) as H.
  destruct (dropWhile isWhiteSpace (rev (dropWhile isWhiteSpace s))); [reflexivity|exact H].
Qed.

Lemma span_spec (p : N -> bool) (s a b : jsstring) :
  span p s = (a, b) ->
  s = a ++ b /\ (forall x, In x a -> p x = true) /\ firstIs p b = false.
Proof.
  revert a b. induction s as [|c s IH]; intros a b H; cbn [span] in H.
  - inversion H. repeat split. intros x [].
  - destruct (p c) eqn:Hc.
    + destruct (span p s) as [a' b'] eqn:E. inversion H; subst.
      destruct (IH _ _ eq_refl) as (-> & Ha & Hb).
      repeat split; [|exact Hb]. intros x [<-|Hx]; [exact Hc|now apply Ha].
    + inversion H; subst. repeat split; [intros x []|exact Hc].
Qed.

Lemma backtrackRun_Some (run : jsstring) (u : N) (after : jsstring) :
  backtrackRun run = Some (u, after) ->
  exists before, run = before ++ u :: after
    /\ isLineTerminator u = false
    /\ forall x, In x after -> isLineTerminator x = true.
Proof.
  revert u after. induction run as [|c run IH]; intros u after H; cbn [backtrackRun] in H;
    [discriminate|].
  destruct (backtrackRun run) as [[u' after']|] eqn:E.
  - inversion H; subst. destruct (IH _ _ eq_refl) as (before & -> & Hu & Hafter).
    exists (c :: before). repeat split; assumption.
  - destruct (isLineTerminator c) eqn:Hc; [discriminate|]. inversion H; subst.
    exists []. repeat split; [exact Hc|].
    clear - E. induction after as [|x after IH]; [intros ? []|].
    cbn [backtrackRun] in E. destruct (backtrackRun after); [discriminate|].
    destruct (isLineTerminator x) eqn:Hx; [|discriminate].
    intros y [<-|Hy]; [exact Hx|now apply IH].
Qed.

Lemma backtrackRun_None (run : jsstring) :
  backtrackRun run = None -> forall x, In x run -> isLineTerminator x = true.
Proof.
  induction run as [|c run IH]; intro H; [intros ? []|].
  cbn [backtrackRun] in H. destruct (backtrackRun run); [discriminate|].
  destruct (isLineTerminator c) eqn:Hc; [|discriminate].
  intros y [<-|Hy]; [exact Hc|now apply IH].
Qed.

Lemma lineTerminator_blank (c : N) : isLineTerminator c = true -> isWhiteSpace c = true.
Proof. units. Qed.

Lemma blank_separator (c : N) : isWhiteSpace c = true -> isSeparator c = true.
Proof. units. Qed.

Lemma name_unit_cases (c : N) :
  isNameUnit c = true -> isSeparator c = false -> isAlnum c = true.
Proof. unfold isNameUnit, isSeparator. destruct (isAlnum c), (isWhiteSpace c), (c =? 45); auto. Qed.

Lemma name_unit_word (c : N) :
  isNameUnit c = true -> isWhiteSpace c = false -> isAlnum c = true \/ c = 45.
Proof.
  unfold isNameUnit. intros H Hw. rewrite Hw, orb_false_r in H.
  apply orb_true_iff in H as [H|H]; [now left|right; now apply N.eqb_eq].
Qed.

Lemma upperUnit_alnum (c : N) : isAlnum c = true -> isAlnum (upperUnit c) = true.
Proof. units. Qed.

Lemma upperUnit_hyphen (c : N) : c = 45 -> upperUnit c = 45.
Proof. intros ->. reflexivity. Qed.

Lemma last_of_suffix (p : N -> bool) (a b : jsstring) :
  b <> [] -> firstIs p (rev (a ++ b)) = firstIs p (rev b).
Proof.
  intro Hb. rewrite rev_app_distr. destruct (rev b) as [|x t] eqn:E; [|reflexivity].
  apply (f_equal (@rev N)) in E. rewrite rev_involutive in E. now destruct Hb.
Qed.

Lemma last_of_snoc (p : N -> bool) (a : jsstring) (x : N) :
  firstIs p (rev (a ++ [x])) = p x.
Proof. now rewrite rev_app_distr. Qed.

Lemma wordThenHyphen_cons (c : N) (s : jsstring) :
  isAlnum c = true -> wordThenHyphen s -> wordThenHyphen (c :: s).
Proof.
  intros Hc (body & Hbody & Hs). exists (c :: body). split.
  - cbn [forallb]. now rewrite Hc.
  - destruct Hs as [->| ->]; [now left|now right].
Qed.

Lemma wordThenHyphen_one (c : N) : isAlnum c = true \/ c = 45 -> wordThenHyphen [c].
Proof.
  intros [Hc| ->].
  - exists [c]. split; [cbn [forallb]; now rewrite Hc|now left].
  - exists []. split; [reflexivity|now right].
Qed.

Lemma replaceSeparators_nil (fuel : nat) : replaceSeparators fuel [] = [].
Proof. destruct fuel; reflexivity. Qed.

Lemma last_not_blank (s : jsstring) (x : N) :
  firstIs isWhiteSpace (rev s) = false -> In x s ->
  (forall y, In y s -> isLineTerminator y = true) -> False.
Proof.
  intros Hlast Hx Hall. destruct (exists_last (l := s)) as (t & y & E);
    [intro E; rewrite E in Hx; destruct Hx|].
  rewrite E, last_of_snoc in Hlast.
  rewrite (lineTerminator_blank y) in Hlast; [discriminate|].
  apply Hall. rewrite E. apply in_or_app. right. now left.
Qed.

(** After the replacement of the separators of a cleaned name, letters and
    digits are left, and possibly one hyphen at the end. *)
Lemma replaceSeparators_word (fuel : nat) (s : jsstring) :
  (length s <= fuel)%nat ->
  (forall c, In c s -> isNameUnit c = true) ->
  firstIs isWhiteSpace (rev s) = false ->
  wordThenHyphen (replaceSeparators fuel s).
Proof.
  revert s. induction fuel as [|fuel IH]; intros s Hlen Hname Hlast.
  - destruct s; [|cbn [length] in Hlen; lia]. exists []. split; [reflexivity|now left].
  - destruct s as [|c s']; [exists []; split; [reflexivity|now left]|].
    cbn [length] in Hlen. cbn [replaceSeparators]. unfold matchSeparatorThenUnit.
    assert (Htail : forall a b, c :: s' = a ++ b ->
              (forall x, In x b -> isNameUnit x = true)
              /\ firstIs isWhiteSpace (rev b) = false).
    { intros a b E. split.
      - intros x Hx. apply Hname. rewrite E. apply in_or_app. now right.
      - destruct b as [|b0 b]; [reflexivity|].
        rewrite <- (last_of_suffix isWhiteSpace a (b0 :: b)) by discriminate.
        now rewrite <- E. }
    destruct (span isSeparator (c :: s')) as [run rest] eqn:Hspan.
    apply span_spec in Hspan as (Hs & Hrun & Hrest).
    destruct run as [|r0 run'].
    + cbn [app] in Hs. subst rest. cbn [firstIs] in Hrest.
      apply wordThenHyphen_cons;
        [apply name_unit_cases; [apply Hname; now left|exact Hrest]|].
      destruct (Htail [c] s' eq_refl) as [Hn Hl]. apply IH; [lia|exact Hn|exact Hl].
    + cbn [app] in Hs. inversion Hs as [[Hc Hs']]. subst r0.
      destruct rest as [|d rest'].
      * rewrite app_nil_r in Hs'. subst run'.
        destruct (backtrackRun s') as [[u after]|] eqn:Hb.
        -- apply backtrackRun_Some in Hb as (before & E & Hu & Hafter).
           destruct after as [|a0 after].
           ++ rewrite replaceSeparators_nil.
              assert (Hblank : isWhiteSpace u = false).
              { rewrite E in Hlast.
                change (c :: before ++ [u]) with ((c :: before) ++ [u]) in Hlast.
                now rewrite last_of_snoc in Hlast. }
              assert (Hin : In u (c :: s'))
                by (rewrite E; right; apply in_or_app; right; now left).
              apply wordThenHyphen_one.
              destruct (name_unit_word u (Hname u Hin) Hblank) as [Ha| ->];
                [left; now apply upperUnit_alnum|now right].
           ++ exfalso.
              destruct (Htail (c :: before ++ [u]) (a0 :: after)) as [_ Hl].
              { rewrite E. cbn [app]. now rewrite <- app_assoc. }
              apply (last_not_blank (a0 :: after) a0 Hl); [now left|exact Hafter].
        -- pose proof (backtrackRun_None s' Hb) as Hall.
           destruct s' as [|x s'].
           ++ rewrite replaceSeparators_nil. apply wordThenHyphen_one.
              apply name_unit_word; [apply Hname; now left|exact Hlast].
           ++ exfalso. destruct (Htail [c] (x :: s') eq_refl) as [_ Hl].
              apply (last_not_blank (x :: s') x Hl); [now left|exact Hall].
      * cbn [firstIs] in Hrest.
        destruct (isLineTerminator d) eqn:Hd; cbn [negb].
        -- apply lineTerminator_blank, blank_separator in Hd. congruence.
        -- destruct (Htail (c :: run' ++ [d]) rest') as [Hn Hl].
           { rewrite Hs'. cbn [app]. now rewrite <- app_assoc. }
           apply wordThenHyphen_cons.
           ++ apply upperUnit_alnum, name_unit_cases; [|exact Hrest].
              apply Hname. rewrite Hs'. right. apply in_or_app. right. now left.
           ++ apply IH; [|exact Hn|exact Hl].
              rewrite Hs', length_app in Hlen. cbn [length] in Hlen. lia.
Qed.

Lemma clean_word (str : jsstring) :
  wordThenHyphen (replaceSeparators (length (clean str)) (clean str)).
Proof.
  apply replaceSeparators_word; [lia| |apply trim_last].
  intros c Hc. unfold clean in Hc. apply trim_In, filter_In in Hc. exact (proj2 Hc).
Qed.

Lemma wordThenHyphen_first (f : N -> N) (c : N) (r : jsstring) :
  (forall x, isAlnum x = true -> isAlnum (f x) = true) -> f 45 = 45 ->
  wordThenHyphen (c :: r) -> wordThenHyphen (f c :: r).
Proof.
  intros Hf Hh (body & Hbody & Hs). destruct body as [|b body].
  - destruct Hs as [Hs|Hs]; [discriminate|]. inversion Hs; subst.
    rewrite Hh. exists []. split; [reflexivity|now right].
  - cbn [forallb] in Hbody. apply andb_true_iff in Hbody as [Hb Hbody].
    exists (f c :: body).
    assert (E : b = c) by (destruct Hs as [Hs|Hs]; now inversion Hs). subst b.
    split; [cbn [forallb]; now rewrite (Hf _ Hb)|].
    destruct Hs as [Hs|Hs]; inversion Hs; subst; [now left|now right].
Qed.

Lemma lowerUnit_alnum (c : N) : isAlnum c = true -> isAlnum (lowerUnit c) = true.
Proof. units. Qed.

Lemma upperUnit_not_lower (c : N) : isLower (upperUnit c) = false.
Proof. units. Qed.

Lemma lowerUnit_not_upper (c : N) : isUpper (lowerUnit c) = false.
Proof. units. Qed.

Lemma digit_not_letter (c : N) : isDigit c = true -> isLower c = false /\ isUpper c = false.
Proof. units. Qed.

(** What [toPascalCase] returns. *)
Lemma toPascalCase_word (str : jsstring) :
  wordThenHyphen (toPascalCase str)
  /\ firstIs isLower (toPascalCase str) = false
  /\ firstIs isDigit (toPascalCase str) = false.
Proof.
  unfold toPascalCase.
  assert (Hdefault : wordThenHyphen "Component"
                     /\ firstIs isLower "Component" = false
                     /\ firstIs isDigit "Component" = false).
  { split; [exists "Component"; split; [reflexivity|now left]|split; reflexivity]. }
  destruct str as [|x str]; [exact Hdefault|].
  pose proof (clean_word (x :: str)) as Hword.
  destruct (clean (x :: str)) as [|y cleaned] eqn:Hc; [exact Hdefault|]. cbv zeta.
  set (s1 := replaceSeparators _ _) in *.
  set (s2 := match s1 with [] => s1 | c :: r => if isLower c then upperUnit c :: r else s1 end).
  assert (H2 : wordThenHyphen s2 /\ firstIs isLower s2 = false).
  { subst s2. destruct s1 as [|c r]; [split; [exact Hword|reflexivity]|].
    destruct (isLower c) eqn:Hl; [|split; [exact Hword|exact Hl]].
    split; [|apply upperUnit_not_lower].
    apply wordThenHyphen_first; [apply upperUnit_alnum|reflexivity|exact Hword]. }
  destruct H2 as [Hw2 Hl2]. destruct s2 as [|c r]; [repeat split; assumption|].
  destruct (isDigit c) eqn:Hd; [|repeat split; assumption].
  repeat split. now apply (wordThenHyphen_cons 78).
Qed.

(** **** Variable names *)

Lemma suffixed_not_reserved :
  forallb (fun k => negb (mem (k ++ "Value") reservedKeywords)) reservedKeywords = true.
Proof. vm_compute. reflexivity. Qed.

Lemma sanitizeVariableName_free (name : jsstring) :
  mem (sanitizeVariableName name) reservedKeywords = false
  /\ sanitizeVariableName name <> [].
Proof.
  unfold sanitizeVariableName. destruct name as [|c name]; [split; [reflexivity|discriminate]|].
  destruct (mem (c :: name) reservedKeywords) eqn:Hm; [|split; [exact Hm|discriminate]].
  split; [|discriminate].
  apply mem_In in Hm.
  pose proof (proj1 (forallb_forall _ _) suffixed_not_reserved _ Hm) as H.
  now apply negb_true_iff in H.
Qed.

(** **** Camel case *)

Lemma splitRuns_In (p : N -> bool) (b : bool) (s cur w : jsstring) (c : N) :
  In w (splitRuns p b s cur) -> In c w -> (In c s /\ p c = false) \/ In c cur.
Proof.
  revert b cur. induction s as [|x s IH]; intros b cur Hw Hc; cbn [splitRuns] in Hw.
  - destruct Hw as [<-|[]]. right. now apply in_rev.
  - destruct (p x) eqn:Hx.
    + destruct b.
      * destruct (IH _ _ Hw Hc) as [[H1 H2]|H]; [left; split; [now right|exact H2]|now right].
      * destruct Hw as [<-|Hw]; [right; now apply in_rev|].
        destruct (IH _ _ Hw Hc) as [[H1 H2]|[]]. left. split; [now right|exact H2].
    + destruct (IH _ _ Hw Hc) as [[H1 H2]|[<-|H]];
        [left; split; [now right|exact H2]|left; split; [now left|exact Hx]|now right].
Qed.

Lemma lowerUnit_name (c : N) : isNameUnit c = true -> isNameUnit (lowerUnit c) = true.
Proof. units. Qed.

Lemma wordThenHyphen_alnum (s : jsstring) :
  (forall c, In c s -> isAlnum c = true) -> wordThenHyphen s.
Proof.
  intro H. exists s. split; [|now left]. apply forallb_forall. exact H.
Qed.

Lemma firstn_In {A} (n : nat) (l : list A) (x : A) : In x (firstn n l) -> In x l.
Proof. intro H. rewrite <- (firstn_skipn n l). apply in_or_app. now left. Qed.

Lemma wordThenHyphen_firstn (n : nat) (s : jsstring) :
  wordThenHyphen s -> wordThenHyphen (firstn n s).
Proof.
  intros (body & Hbody & [->| ->]).
  - apply wordThenHyphen_alnum. intros c Hc. apply firstn_In in Hc.
    exact (proj1 (forallb_forall _ _) Hbody c Hc).
  - destruct (Nat.le_gt_cases n (length body)) as [Hle|Hgt].
    + rewrite firstn_app. replace (n - length body)%nat with O by lia.
      cbn [firstn]. rewrite app_nil_r.
      apply wordThenHyphen_alnum. intros c Hc. apply firstn_In in Hc.
      exact (proj1 (forallb_forall _ _) Hbody c Hc).
    + rewrite firstn_all2 by (rewrite length_app; cbn [length]; lia).
      exists body. split; [exact Hbody|now right].
Qed.

(** What [toCamelCase] returns. *)
Lemma toCamelCase_word (str : jsstring) :
  wordThenHyphen (toCamelCase str)
  /\ firstIs isUpper (toCamelCase str) = false
  /\ firstIs isDigit (toCamelCase str) = false
  /\ (toCamelCase str = [] -> str = []).
Proof.
  unfold toCamelCase.
  destruct str as [|x str];
    [repeat split; exists []; split; [reflexivity|now left]|].
  pose proof (clean_word (x :: str)) as Hword.
  assert (Hname : forall c, In c (clean (x :: str)) -> isNameUnit c = true).
  { intros c Hc. unfold clean in Hc. apply trim_In, filter_In in Hc. exact (proj2 Hc). }
  destruct (clean (x :: str)) as [|y cleaned] eqn:Hc.
  { repeat split; try discriminate. apply wordThenHyphen_alnum.
    intros c H. cbn in H. repeat destruct H as [<-|H]; try reflexivity. destruct H. }
  cbv zeta.
  assert (Hs1 : replaceSeparators (length (y :: cleaned)) (y :: cleaned) <> []).
  { cbn [length replaceSeparators].
    destruct (matchSeparatorThenUnit (y :: cleaned)) as [[u rest]|]; discriminate. }
  set (s1 := replaceSeparators _ _) in *.
  set (s2 := match s1 with [] => s1 | c :: r => if isUpper c then lowerUnit c :: r else s1 end).
  assert (H2 : wordThenHyphen s2 /\ firstIs isUpper s2 = false /\ s2 <> []).
  { subst s2. destruct s1 as [|c r]; [now destruct Hs1|].
    destruct (isUpper c) eqn:Hu; [|repeat split; [exact Hword|exact Hu|discriminate]].
    repeat split; [|apply lowerUnit_not_upper|discriminate].
    apply wordThenHyphen_first; [apply lowerUnit_alnum|reflexivity|exact Hword]. }
  destruct H2 as (Hw2 & Hu2 & Hne2).
  set (camelCase := match s2 with [] => s2 | c :: r => if isDigit c then "n" ++ s2 else s2 end).
  assert (H3 : wordThenHyphen camelCase /\ firstIs isUpper camelCase = false
               /\ firstIs isDigit camelCase = false /\ camelCase <> []).
  { subst camelCase. destruct s2 as [|c r]; [now destruct Hne2|].
    destruct (isDigit c) eqn:Hd; [|repeat split; [exact Hw2|exact Hu2|exact Hd|discriminate]].
    repeat split; [|discriminate]. now apply (wordThenHyphen_cons 110). }
  destruct H3 as (Hw3 & Hu3 & Hd3 & Hne3).
  destruct (30 <? length camelCase)%nat eqn:Hlong;
    [|repeat split; [exact Hw3|exact Hu3|exact Hd3|intro E; now destruct Hne3]].
  set (words := splitRuns isSeparator false (map lowerUnit (y :: cleaned)) []).
  set (important :=
         filter (fun word => (3 <? length word)%nat && negb (mem word stopWords)) words).
  set (shortened := match firstn 3 important with
                    | [] => firstn 30 camelCase
                    | first :: others => first ++ concat (map capitalize others)
                    end).
  assert (Hwords : forall w c, In w important -> In c w -> isAlnum c = true).
  { intros w c Hw Hcw. apply filter_In in Hw as [Hw _].
    destruct (splitRuns_In _ _ _ _ _ _ Hw Hcw) as [[Hin Hsep]|[]].
    apply name_unit_cases; [|exact Hsep].
    apply in_map_iff in Hin as (d & <- & Hd). apply lowerUnit_name, Hname, Hd. }
  assert (Hlower : forall w, In w words ->
            firstIs isUpper w = false).
  { intros w Hw. destruct w as [|c w]; [reflexivity|]. cbn [firstIs].
    destruct (splitRuns_In _ _ _ _ _ c Hw (or_introl eq_refl)) as [[Hin _]|[]].
    apply in_map_iff in Hin as (d & <- & _). apply lowerUnit_not_upper. }
  assert (Hshort : wordThenHyphen shortened /\ firstIs isUpper shortened = false
                   /\ shortened <> []).
  { subst shortened. destruct (firstn 3 important) as [|first others] eqn:E.
    - repeat split; [now apply wordThenHyphen_firstn| |].
      + destruct camelCase; [reflexivity|exact Hu3].
      + apply Nat.ltb_lt in Hlong. destruct camelCase; [cbn in Hlong; lia|discriminate].
    - assert (Hsub : forall w, In w (first :: others) -> In w important)
        by (intros w Hw; rewrite <- E in Hw; now apply firstn_In in Hw).
      assert (Hfirst : (3 < length first)%nat).
      { pose proof (Hsub first (or_introl eq_refl)) as Hf.
        apply filter_In in Hf as [_ Hf]. apply andb_true_iff in Hf as [Hf _].
        now apply Nat.ltb_lt in Hf. }
      repeat split.
      + apply wordThenHyphen_alnum. intros c Hcin.
        apply in_app_or in Hcin as [Hcin|Hcin];
          [exact (Hwords first c (Hsub _ (or_introl eq_refl)) Hcin)|].
        apply in_concat in Hcin as (w & Hw & Hcw).
        apply in_map_iff in Hw as (w0 & <- & Hw0).
        destruct w0 as [|d w0]; [destruct Hcw|]. cbn [capitalize] in Hcw.
        destruct Hcw as [<-|Hcw].
        * apply upperUnit_alnum, (Hwords (d :: w0)); [apply Hsub; now right|now left].
        * apply (Hwords (d :: w0)); [apply Hsub; now right|now right].
      + destruct first as [|c first]; [cbn in Hfirst; lia|]. cbn [app firstIs].
        apply (Hlower (c :: first)).
        pose proof (Hsub _ (or_introl eq_refl)) as Hf. now apply filter_In in Hf.
      + destruct first; [cbn in Hfirst; lia|discriminate]. }
  destruct Hshort as (Hws & Hus & Hnes).
  destruct (startsWithLetter shortened) eqn:Hletter; cbn [negb].
  - repeat split; [exact Hws|exact Hus| |intro E; now destruct Hnes].
    destruct shortened as [|c r]; [reflexivity|]. cbn [firstIs startsWithLetter] in *.
    destruct (isDigit c) eqn:Hd; [|reflexivity].
    destruct (digit_not_letter c Hd) as [Hl Hu]. rewrite Hl, Hu in Hletter. discriminate.
  - repeat split; [|discriminate].
    apply (wordThenHyphen_cons 105), (wordThenHyphen_cons 116),
      (wordThenHyphen_cons 101), (wordThenHyphen_cons 109); try reflexivity. exact Hws.
Qed.

(** X1. Whatever the name, [toPascalCase] returns a non-empty string of
    Basic Latin letters and digits with at most one hyphen, which is then
    its last unit; the string holds no white space and starts neither with a
    digit nor with a lower-case letter. *)
Theorem toPascalCase_returns_a_word (str : jsstring) :
  toPascalCase str <> []
  /\ wordThenHyphen (toPascalCase str)
  /\ firstIs isLower (toPascalCase str) = false
  /\ firstIs isDigit (toPascalCase str) = false.
Proof.
  split; [apply toPascalCase_nonempty|apply toPascalCase_word].
Qed.

(** X2. Whatever the name, [toKebabCase] returns a string in kebab case:
    lower-case Basic Latin letters, digits and hyphens only, no hyphen at
    either end and no two hyphens in a row. *)
Theorem toKebabCase_returns_kebab_case (str : jsstring) : kebabShaped (toKebabCase str).
Proof. apply toKebabCase_shape. Qed.

(** X3. [toKebabCase] is idempotent: the conversion of a converted name
    changes nothing. *)
Theorem toKebabCase_idempotent (str : jsstring) :
  toKebabCase (toKebabCase str) = toKebabCase str.
Proof. apply kebab_fixed, toKebabCase_shape. Qed.

(** X4. [sanitizeVariableName] never returns a reserved word of its list,
    nor the empty string: the suffix it adds to a reserved word gives no
    other reserved word. *)
Theorem sanitizeVariableName_is_not_reserved (name : jsstring) :
  mem (sanitizeVariableName name) reservedKeywords = false
  /\ sanitizeVariableName name <> [].
Proof. apply sanitizeVariableName_free. Qed.

(** X5. Whatever the name, [toCamelCase] returns letters and digits with at
    most one hyphen, at the end; the result starts neither with an
    upper-case letter nor with a digit, and it is empty for the empty name
    only. *)
Theorem toCamelCase_returns_a_word (str : jsstring) :
  wordThenHyphen (toCamelCase str)
  /\ firstIs isUpper (toCamelCase str) = false
  /\ firstIs isDigit (toCamelCase str) = false
  /\ (toCamelCase str = [] <-> str = []).
Proof.
  destruct (toCamelCase_word str) as (Hw & Hu & Hd & He).
  repeat split; try assumption. intros ->. reflexivity.
Qed.

End Names.

(* ------------------------------------------------------------------ *)
(** *** Node utilities: escaping and normalization *)
(* ------------------------------------------------------------------ *)

Section Escaping.
Import NodeUtils.

Lemma flat_map_twice {A B C} (f : A -> list B) (g : B -> list C) (l : list A) :
  flat_map g (flat_map f l) = flat_map (fun x => flat_map g (f x)) l.
Proof.
  induction l as [|x l IH]; [reflexivity|].
  cbn [flat_map]. now rewrite flat_map_app, IH.
Qed.

Lemma escapeUnit_chain (c : N) :
  replaceUnit 39 "&#039;"
    (replaceUnit 34 "&quot;"
       (replaceUnit 62 "&gt;" (replaceUnit 60 "&lt;" (replaceUnit 38 "&amp;" [c]))))
  = escapeUnit c.
Proof.
  unfold escapeUnit.
  destruct (N.eqb_spec c 38) as [->|H38]; [reflexivity|].
  destruct (N.eqb_spec c 60) as [->|H60]; [reflexivity|].
  destruct (N.eqb_spec c 62) as [->|H62]; [reflexivity|].
  destruct (N.eqb_spec c 34) as [->|H34]; [reflexivity|].
  destruct (N.eqb_spec c 39) as [->|H39]; [reflexivity|].
  unfold replaceUnit. cbn [flat_map app].
  apply N.eqb_neq in H38, H60, H62, H34, H39.
  rewrite H38. cbn [flat_map app]. rewrite H60. cbn [flat_map app].
  rewrite H62. cbn [flat_map app]. rewrite H34. cbn [flat_map app].
  now rewrite H39.
Qed.

(** The five replacements of [escapeHTML] amount to one pass that puts the
    entity of each unit in its place. *)
Lemma escapeHTML_one_pass (text : jsstring) :
  escapeHTML (Some (CharsString text)) = Ok (flat_map escapeUnit text).
Proof.
  unfold escapeHTML. destruct text as [|c r]; [reflexivity|]. f_equal.
  unfold replaceUnit. rewrite !flat_map_twice.
  apply flat_map_ext. intro x. rewrite <- !flat_map_twice.
  rewrite <- (escapeUnit_chain x). unfold replaceUnit. cbn [flat_map].
  now rewrite app_nil_r.
Qed.

Lemma escapeUnit_cases (c : N) :
  (c = 38 /\ escapeUnit c = "&amp;") \/ (c = 60 /\ escapeUnit c = "&lt;")
  \/ (c = 62 /\ escapeUnit c = "&gt;") \/ (c = 34 /\ escapeUnit c = "&quot;")
  \/ (c = 39 /\ escapeUnit c = "&#039;")
  \/ (c <> 38 /\ isMarkupUnit c = false /\ escapeUnit c = [c]).
Proof.
  unfold escapeUnit, isMarkupUnit.
  destruct (N.eqb_spec c 38) as [->|H38]; [now left|].
  destruct (N.eqb_spec c 60) as [->|H60]; [right; now left|].
  destruct (N.eqb_spec c 62) as [->|H62]; [do 2 right; now left|].
  destruct (N.eqb_spec c 34) as [->|H34]; [do 3 right; now left|].
  destruct (N.eqb_spec c 39) as [->|H39]; [do 4 right; now left|].
  do 5 right. repeat split; assumption.
Qed.

Lemma escapeUnit_plain (c : N) : forallb (fun x => negb (isMarkupUnit x)) (escapeUnit c) = true.
Proof.
  destruct (escapeUnit_cases c) as [[_ ->]|[[_ ->]|[[_ ->]|[[_ ->]|[[_ ->]|(_ & H & ->)]]]]];
    try reflexivity.
  cbn [forallb]. now rewrite H.
Qed.

Lemma escaped_injective (a b : jsstring) :
  flat_map escapeUnit a = flat_map escapeUnit b -> a = b.
Proof.
  revert b. induction a as [|x a IH]; intros [|y b] H; cbn [flat_map] in H.
  - reflexivity.
  - destruct (escapeUnit_cases y) as [[_ E]|[[_ E]|[[_ E]|[[_ E]|[[_ E]|(_ & _ & E)]]]]];
      rewrite E in H; discriminate H.
  - destruct (escapeUnit_cases x) as [[_ E]|[[_ E]|[[_ E]|[[_ E]|[[_ E]|(_ & _ & E)]]]]];
      rewrite E in H; discriminate H.
  - destruct (escapeUnit_cases x) as [[Hx E]|[[Hx E]|[[Hx E]|[[Hx E]|[[Hx E]|(Hx & _ & E)]]]]];
      destruct (escapeUnit_cases y)
        as [[Hy E']|[[Hy E']|[[Hy E']|[[Hy E']|[[Hy E']|(Hy & _ & E')]]]]];
      rewrite E, E' in H; cbn [app] in H; inversion H; subst;
        try congruence; f_equal; now apply IH.
Qed.

(** X6. [escapeHTML] returns for every string a text with no [<], [>],
    double quote or single quote in it, and returns a string that has none
    of these and no [&] as it is. *)
Theorem escapeHTML_leaves_no_markup (text : jsstring) :
  exists out,
    escapeHTML (Some (CharsString text)) = Ok out
    /\ forallb (fun c => negb (isMarkupUnit c)) out = true
    /\ (forallb (fun c => negb (isMarkupUnit c || (c =? 38))) text = true -> out = text).
Proof.
  exists (flat_map escapeUnit text). split; [apply escapeHTML_one_pass|]. split.
  - induction text as [|c text IH]; [reflexivity|].
    cbn [flat_map]. now rewrite forallb_app, escapeUnit_plain, IH.
  - induction text as [|c text IH]; [reflexivity|]. cbn [forallb flat_map].
    intro H. apply andb_true_iff in H as [Hc H]. rewrite (IH H).
    apply negb_true_iff, orb_false_iff in Hc as [Hm Ha].
    destruct (escapeUnit_cases c) as [[-> _]|[[-> _]|[[-> _]|[[-> _]|[[-> _]|(_ & _ & ->)]]]]];
      try discriminate. reflexivity.
Qed.

(** X7. [escapeHTML] loses nothing: two strings with the same escaped text
    are the same string. *)
Theorem escapeHTML_injective (a b : jsstring) :
  escapeHTML (Some (CharsString a)) = escapeHTML (Some (CharsString b)) -> a = b.
Proof.
  rewrite !escapeHTML_one_pass. intro H. apply escaped_injective. now inversion H.
Qed.

End Escaping.

Lemma escapeHTML_injective_witness :
  NodeUtils.escapeHTML (Some (CharsString "a < b & c"))
  = NodeUtils.escapeHTML (Some (CharsString ("a <" ++ " b & c")))
  /\ "a < b & c" = "a <" ++ " b & c".
Proof.
  split; [reflexivity|].
  apply (escapeHTML_injective "a < b & c" ("a <" ++ " b & c")). reflexivity.
Defined.

Section Normalization.
Import NodeUtils.

Lemma forallb_filter {A} (f : A -> bool) (l : list A) : forallb f (filter f l) = true.
Proof.
  induction l as [|x l IH]; [reflexivity|]. cbn [filter].
  destruct (f x) eqn:E; [cbn [forallb]; now rewrite E|exact IH].
Qed.

Lemma ownProperties_shown (a : Attrs) (p : option node) :
  allShown (node_fills (ownProperties a p)) = true
  /\ allShown (node_strokes (ownProperties a p)) = true.
Proof.
  destruct a. unfold ownProperties. destruct p as [p|]; cbn.
  - destruct node_absoluteBoundingBox0, (node_absoluteBoundingBox (attrs p));
      destruct node_fills0, node_strokes0; cbn; rewrite ?forallb_filter; split; reflexivity.
  - destruct node_fills0, node_strokes0; cbn; rewrite ?forallb_filter; split; reflexivity.
Qed.

Lemma ownProperties_labels (a : Attrs) (p : option node) :
  node_id (ownProperties a p) = node_id a
  /\ node_name (ownProperties a p) = node_name a
  /\ node_type (ownProperties a p) = node_type a.
Proof.
  destruct a. unfold ownProperties. destruct p as [p|]; cbn.
  - destruct node_absoluteBoundingBox0, (node_absoluteBoundingBox (attrs p));
      destruct node_fills0, node_strokes0; cbn; repeat split; reflexivity.
  - destruct node_fills0, node_strokes0; cbn; repeat split; reflexivity.
Qed.

Lemma walk_unfold (n : node) :
  walk n = n :: match children n with Some l => flat_map walk l | None => [] end.
Proof. destruct n as [a cs]. reflexivity. Qed.

(** X8. After [preprocessNode], no node of the document has a fill or a
    stroke whose [visible] is [false]. *)
Theorem preprocessNode_shows_every_paint (n : node) (parentNode : option node) :
  Forall (fun m => allShown (node_fills (attrs m)) = true
                   /\ allShown (node_strokes (attrs m)) = true)
         (walk (preprocessObject n parentNode)).
Proof.
  revert parentNode. induction n as [a|a l IH] using node_induction; intro p.
  - cbn [preprocessObject walk]. constructor; [apply ownProperties_shown|constructor].
  - rewrite walk_unfold, preprocessObject_children.
    cbn [attrs children option_map].
    constructor; [rewrite preprocessObject_attrs; apply ownProperties_shown|].
    set (parent := Some (Node (ownProperties a p) (Some l))). clearbody parent.
    induction IH as [|c l Hc Hl IHl]; cbn [map flat_map]; [constructor|].
    apply Forall_app. split; [apply Hc|exact IHl].
Qed.

Lemma labels_unfold (n : node) :
  labels n
  = (node_id (attrs n), node_name (attrs n), node_type (attrs n))
      :: match children n with Some l => flat_map labels l | None => [] end.
Proof.
  unfold labels. rewrite walk_unfold. cbn [map]. f_equal.
  destruct (children n) as [l|]; [|reflexivity].
  induction l as [|c l IH]; [reflexivity|]. cbn [flat_map]. now rewrite map_app, IH.
Qed.

Lemma preprocessObject_labels (n : node) (parentNode : option node) :
  labels (preprocessObject n parentNode) = labels n.
Proof.
  revert parentNode. induction n as [a|a l IH] using node_induction; intro p.
  - rewrite !labels_unfold. cbn [preprocessObject attrs children].
    destruct (ownProperties_labels a p) as (-> & -> & ->). reflexivity.
  - rewrite (labels_unfold (preprocessObject _ _)), (labels_unfold (Node a (Some l))).
    rewrite preprocessObject_children, preprocessObject_attrs.
    cbn [attrs children option_map].
    destruct (ownProperties_labels a p) as (-> & -> & ->). f_equal.
    set (parent := Some (Node (ownProperties a p) (Some l))). clearbody parent.
    induction IH as [|c l Hc Hl IHl]; cbn [map flat_map]; [reflexivity|].
    now rewrite Hc, IHl.
Qed.

(** X9. [preprocessNode] adds, drops or moves no node: the identifiers, the
    names and the types of the nodes of the document, in the order of the
    walk, are as before. *)
Theorem preprocessNode_keeps_the_nodes (n : node) (parentNode : option node) :
  labels (preprocessObject n parentNode) = labels n.
Proof. apply preprocessObject_labels. Qed.

End Normalization.

Section Tags.
Context {rt : Runtime}.
Import NodeUtils InteractiveElementAnalyzer JSXTransformer.

Lemma mapFigmaTypeToHTML_not_self_closing (type : option jsstring) :
  isSelfClosing (mapFigmaTypeToHTML type) = false.
Proof.
  unfold mapFigmaTypeToHTML. destruct type as [t|]; [|reflexivity].
  cbv zeta. repeat match goal with
                   | |- context [if ?b then _ else _] => destruct b; [reflexivity|]
                   end.
  reflexivity.
Qed.

(** X10. The tag chosen for a node is one that [isSelfClosing] accepts
    exactly when the node is registered as an interactive input: no tag that
    [mapFigmaTypeToHTML] gives is self-closing, nor is [button]. *)
Theorem only_inputs_are_self_closing (t : JSXTransformer)
    (interactiveElement : option InteractiveElement) (type : option jsstring) :
  isSelfClosing (fst (fst (remap t interactiveElement (mapFigmaTypeToHTML type))))
  = match option_map ie_type interactiveElement with
    | Some input => true
    | _ => false
    end.
Proof.
  unfold remap. destruct interactiveElement as [el|]; cbn [option_map fst].
  - destruct (ie_type el); cbn [fst]; try reflexivity;
      apply mapFigmaTypeToHTML_not_self_closing.
  - apply mapFigmaTypeToHTML_not_self_closing.
Qed.

End Tags.

(* ------------------------------------------------------------------ *)
(** *** The analysis of interactive elements *)
(* ------------------------------------------------------------------ *)

Section Analysis.
Context {rt : Runtime}.
Import InteractiveElementAnalyzer.

Lemma fold_left_flat_map {A B S} (f : S -> B -> S) (g : A -> list B) (l : list A) (s : S) :
  fold_left f (flat_map g l) s = fold_left (fun acc x => fold_left f (g x) acc) l s.
Proof.
  revert s. induction l as [|x l IH]; intro s; [reflexivity|].
  cbn [flat_map fold_left]. now rewrite fold_left_app, IH.
Qed.

Lemma fold_left_ext_Forall {A S} (f g : S -> A -> S) (l : list A) :
  Forall (fun x => forall s, f s x = g s x) l -> forall s, fold_left f l s = fold_left g l s.
Proof.
  induction 1 as [|x l Hx Hl IH]; intro s; [reflexivity|].
  cbn [fold_left]. now rewrite Hx, IH.
Qed.

(** [analyze] visits the nodes of the document in the order of the walk. *)
Lemma analyze_walk (n : node) :
  forall c, analyze n c = fold_left (fun acc m => analyzeOne (attrs m) acc) (walk n) c.
Proof.
  induction n as [a|a l IH] using node_induction; intro c; [reflexivity|].
  cbn [analyze walk fold_left attrs]. rewrite fold_left_flat_map.
  apply fold_left_ext_Forall. exact IH.
Qed.

Lemma map_has_set {V} (m : jsmap V) (k k' : key) (v : V) :
  map_has (map_set m k v) k' = key_eqb k k' || map_has m k'.
Proof. unfold map_has. rewrite map_get_set. now destruct (key_eqb k k'). Qed.

(** What one visit does. *)
Lemma analyzeOne_registers (a : Attrs) (c : Collections) (k : key) :
  map_has (interactiveElements (analyzeOne a c)) k
  = map_has (interactiveElements c) k || (interactive a && key_eqb (node_id a) k).
Proof.
  unfold analyzeOne, interactive. cbv zeta.
  destruct (isButton _), (isInput _), (isAccordion _ || isCollapsible _),
    (isToggle _ || isSwitch _);
    cbn [interactiveElements orb andb]; rewrite ?map_has_set;
    destruct (key_eqb (node_id a) k), (map_has (interactiveElements c) k); reflexivity.
Qed.

Lemma analyzeOne_plain (a : Attrs) (c : Collections) :
  interactive a = false -> analyzeOne a c = c.
Proof.
  unfold analyzeOne, interactive. cbv zeta.
  destruct (isButton _), (isInput _), (isAccordion _ || isCollapsible _),
    (isToggle _ || isSwitch _); cbn [orb]; intro H; try discriminate H. reflexivity.
Qed.

Lemma extends_refl (c : Collections) : extends c c.
Proof.
  repeat split; try (exists []; now rewrite app_nil_r). auto.
Qed.

Lemma extends_trans (c1 c2 c3 : Collections) :
  extends c1 c2 -> extends c2 c3 -> extends c1 c3.
Proof.
  intros ((s1 & Hs1) & (h1 & Hh1) & Hk1) ((s2 & Hs2) & (h2 & Hh2) & Hk2).
  repeat split.
  - exists (s1 ++ s2). now rewrite Hs2, Hs1, app_assoc.
  - exists (h1 ++ h2). now rewrite Hh2, Hh1, app_assoc.
  - auto.
Qed.

Lemma analyzeOne_extends (a : Attrs) (c : Collections) : extends c (analyzeOne a c).
Proof.
  split; [|split].
  - unfold analyzeOne. cbv zeta.
    destruct (isButton _), (isInput _), (isAccordion _ || isCollapsible _),
      (isToggle _ || isSwitch _); cbn [stateVariables]; rewrite <- ?app_assoc;
      try (eexists; reflexivity); exists []; now rewrite app_nil_r.
  - unfold analyzeOne. cbv zeta.
    destruct (isButton _), (isInput _), (isAccordion _ || isCollapsible _),
      (isToggle _ || isSwitch _); cbn [eventHandlers]; rewrite <- ?app_assoc;
      try (eexists; reflexivity); exists []; now rewrite app_nil_r.
  - intros k H. rewrite analyzeOne_registers, H. reflexivity.
Qed.

Lemma paired_push (ie ie' : jsmap InteractiveElement) (svs : list StateVariable)
    (ehs : list EventHandler) (v : StateVariable) (h : EventHandler) :
  eh_id h = sv_id v ->
  paired {| interactiveElements := ie; stateVariables := svs; eventHandlers := ehs |} ->
  paired {| interactiveElements := ie'; stateVariables := svs ++ [v];
            eventHandlers := ehs ++ [h] |}.
Proof.
  intros E H w Hw. cbn [stateVariables eventHandlers] in *.
  apply in_app_or in Hw as [Hw|[<-|[]]].
  - destruct (H w Hw) as (h' & Hin & Hid). exists h'. split; [|exact Hid].
    apply in_or_app. now left.
  - exists h. split; [apply in_or_app; right; now left|exact E].
Qed.

Lemma paired_handler (ie ie' : jsmap InteractiveElement) (svs : list StateVariable)
    (ehs : list EventHandler) (h : EventHandler) :
  paired {| interactiveElements := ie; stateVariables := svs; eventHandlers := ehs |} ->
  paired {| interactiveElements := ie'; stateVariables := svs; eventHandlers := ehs ++ [h] |}.
Proof.
  intros H w Hw. cbn [stateVariables eventHandlers] in *.
  destruct (H w Hw) as (h' & Hin & Hid). exists h'. split; [|exact Hid].
  apply in_or_app. now left.
Qed.

Lemma analyzeOne_paired (a : Attrs) (c : Collections) :
  paired c -> paired (analyzeOne a c).
Proof.
  intro H. destruct c as [ie svs ehs]. unfold analyzeOne. cbv zeta.
  destruct (isButton _), (isInput _), (isAccordion _ || isCollapsible _),
    (isToggle _ || isSwitch _);
    cbn [interactiveElements stateVariables eventHandlers];
    repeat first [ apply paired_push with (ie := ie); [reflexivity|]
                 | apply paired_handler with (ie := ie) ];
    exact H.
Qed.

(** A property that every visit keeps holds after [analyze]. *)
Lemma analyze_keeps (P : Collections -> Prop) :
  (forall a c, P c -> P (analyzeOne a c)) ->
  forall n c, P c -> P (analyze n c).
Proof.
  intros Hstep n c Hc. rewrite analyze_walk. revert c Hc.
  induction (walk n) as [|m l IH]; intros c Hc; [exact Hc|].
  cbn [fold_left]. apply IH, Hstep, Hc.
Qed.

(** X11. After [analyze], the keys of the map of interactive elements are
    the keys it had before and the identifiers of the nodes of the document
    on which one of the four detections fires. *)
Theorem analyze_registers_the_interactive_nodes (n : node) (c : Collections) (k : key) :
  map_has (interactiveElements (analyze n c)) k
  = map_has (interactiveElements c) k
    || existsb (fun m => interactive (attrs m) && key_eqb (node_id (attrs m)) k) (walk n).
Proof.
  rewrite analyze_walk. revert c.
  induction (walk n) as [|m l IH]; intro c; cbn [fold_left existsb].
  - now rewrite orb_false_r.
  - now rewrite IH, analyzeOne_registers, orb_assoc.
Qed.

(** X12. [analyze] keeps every state variable paired with an event handler
    of the same identifier: it pushes no state variable without its
    handler. *)
Theorem analyze_pairs_state_with_handlers (n : node) (c : Collections) :
  paired c -> paired (analyze n c).
Proof. apply (analyze_keeps paired). intros a c'. apply analyzeOne_paired. Qed.

(** X13. [analyze] only adds: the two lists are extended at their end and
    the keys of the map are kept; on a document where no detection fires on
    any node, the three collections are left as they were. *)
Theorem analyze_only_adds (n : node) (c : Collections) :
  extends c (analyze n c)
  /\ (forallb (fun m => negb (interactive (attrs m))) (walk n) = true -> analyze n c = c).
Proof.
  split.
  - apply (analyze_keeps (extends c)); [|apply extends_refl].
    intros a c' H. exact (extends_trans _ _ _ H (analyzeOne_extends a c')).
  - rewrite analyze_walk. revert c.
    induction (walk n) as [|m l IH]; intros c H; [reflexivity|].
    cbn [forallb fold_left] in *. apply andb_true_iff in H as [Hm H].
    apply negb_true_iff in Hm. rewrite (analyzeOne_plain _ _ Hm). now apply IH.
Qed.

Lemma analyzeOne_labels (a a' : Attrs) (c : Collections) :
  node_id a = node_id a' -> node_name a = node_name a' -> analyzeOne a c = analyzeOne a' c.
Proof. intros Hid Hname. unfold analyzeOne, identifier. now rewrite Hid, Hname. Qed.

Lemma analyze_labels (n n' : node) (c : Collections) :
  labels n = labels n' -> analyze n c = analyze n' c.
Proof.
  rewrite !analyze_walk. unfold labels. revert c.
  generalize (walk n) (walk n'). intros l.
  induction l as [|m l IH]; intros [|m' l'] c H; try discriminate H; [reflexivity|].
  cbn [map] in H. inversion H as [[Hid Hname Htype Hrest]]. cbn [fold_left].
  rewrite (analyzeOne_labels (attrs m) (attrs m') c Hid Hname). now apply IH.
Qed.

(** X14. The analysis of interactive elements reads the identifiers and
    the names of the nodes only: on the document that [preprocessNode] has
    normalized it gives what it gives on the document as it came. *)
Theorem analyze_ignores_preprocessing (n : node) (parentNode : option node)
    (c : Collections) :
  analyze (NodeUtils.preprocessObject n parentNode) c = analyze n c.
Proof. apply analyze_labels, preprocessObject_labels. Qed.

End Analysis.

Lemma analyze_pairs_state_with_handlers_witness :
  paired InteractiveElementAnalyzer.noCollections
  /\ paired (@InteractiveElementAnalyzer.analyze Reference.runtime Samples.fourInputs
               InteractiveElementAnalyzer.noCollections).
Proof.
  assert (H : paired InteractiveElementAnalyzer.noCollections) by (intros v []).
  split; [exact H|].
  exact (@analyze_pairs_state_with_handlers Reference.runtime Samples.fourInputs _ H).
Defined.

(* ------------------------------------------------------------------ *)
(** *** The identification of components *)
(* ------------------------------------------------------------------ *)

Section Components.
Context {rt : Runtime}.
Import ComponentAnalyzer.

Lemma componentNameFor_wellNamed (a : Attrs) (counter : N) :
  wellNamed (fst (componentNameFor a counter)).
Proof.
  unfold componentNameFor, wellNamed.
  destruct (truthy_str (node_name a)); cbn [fst];
    (split; [apply toPascalCase_nonempty|]);
    match goal with
    | |- context [NameUtils.toPascalCase ?s] =>
        destruct (toPascalCase_word s) as (Hw & Hl & Hd)
    end; repeat split; assumption.
Qed.

Lemma walk_child (a : Attrs) (l : list node) (child m : node) :
  In child l -> In m (walk child) -> In m (walk (Node a (Some l))).
Proof.
  intros Hc Hm. cbn [walk]. right. apply in_flat_map. now exists child.
Qed.

Lemma walk_self (n : node) : In n (walk n).
Proof. destruct n. now left. Qed.

(** Every entry of the map after [identify] was there before or stands for
    a node of the document. *)
Lemma identify_entries (n : node) :
  forall depth parentId st k info,
    map_get (fst (identify n depth parentId st)) k = Some info ->
    map_get (fst st) k = Some info \/ registeredFrom n k info.
Proof.
  induction n as [a|a l IH] using node_induction;
    intros depth parentId [components counter] k info;
    cbn [identify fst];
    destruct (shouldComponentize _ depth) eqn:Hfires;
    try (pose proof (componentNameFor_wellNamed a counter) as Hname;
         destruct (componentNameFor a counter) as [componentName counter'];
         cbn [fst] in Hname;
         destruct (str_eqb componentName []) eqn:Hempty;
         [apply str_eqb_eq in Hempty; now destruct (proj1 Hname)|];
         cbn [andb negb fst]; rewrite map_get_set;
         destruct (key_eqb (node_id a) k) eqn:Hk;
         [|now left];
         intro H; inversion H; subst info; right;
         apply key_eqb_eq in Hk;
         repeat split; try (apply walk_self); try exact Hk; apply Hname).
  - cbn [andb fst]. now left.
  - cbn [andb].
    assert (Hfold : forall st0 : jsmap ComponentInfo * N,
              map_get (fst (fold_left
                              (fun acc child =>
                                 identify child (S depth) (ParentKey (node_id a)) acc)
                              l st0)) k = Some info ->
              map_get (fst st0) k = Some info
              \/ exists child, In child l /\ registeredFrom child k info).
    { clear Hfires. induction IH as [|c l Hc Hl IHl]; intros st0 H; cbn [fold_left] in H;
        [now left|].
      destruct (IHl _ H) as [H0|(child & Hin & Hreg)].
      - destruct (Hc _ _ _ _ _ H0) as [H1|H1]; [now left|].
        right. exists c. split; [now left|exact H1].
      - right. exists child. split; [now right|exact Hreg]. }
    intro H. destruct (Hfold _ H) as [H0|(child & Hin & Hm & Hid & Hname)]; [now left|].
    right. repeat split; [exact (walk_child a l child _ Hin Hm)|exact Hid|apply Hname..].
Qed.

(** X15. After [identify], every entry of the components map either was
    there before the call or stands for a node of the document: the node is
    met in the walk, it is stored under its own identifier, and its name is
    not empty, made of letters and digits with at most a hyphen at the end,
    with no digit and no lower-case letter in front. *)
Theorem identify_registers_nodes_of_the_document (n : node) (depth : nat)
    (parentId : ParentId) (st : jsmap ComponentInfo * N) (k : key) (info : ComponentInfo) :
  map_get (fst (identify n depth parentId st)) k = Some info ->
  map_get (fst st) k = Some info \/ registeredFrom n k info.
Proof. apply identify_entries. Qed.

End Components.

Lemma identify_registers_nodes_of_the_document_witness :
  map_get (fst (@ComponentAnalyzer.identify Reference.runtime Samples.pageWithCardFrame 0
                  ComponentAnalyzer.NoParent ([], 0)))
          (Some "1:2")
  = Some {| ComponentAnalyzer.ci_name := "Card";
            ComponentAnalyzer.ci_node := Samples.cardFrame;
            ComponentAnalyzer.ci_parentId := ComponentAnalyzer.ParentKey (Some "0:1") |}
  /\ registeredFrom Samples.pageWithCardFrame (Some "1:2")
       {| ComponentAnalyzer.ci_name := "Card";
          ComponentAnalyzer.ci_node := Samples.cardFrame;
          ComponentAnalyzer.ci_parentId := ComponentAnalyzer.ParentKey (Some "0:1") |}.
Proof.
  assert (H : map_get (fst (@ComponentAnalyzer.identify Reference.runtime
                              Samples.pageWithCardFrame 0
                              ComponentAnalyzer.NoParent ([], 0)))
                      (Some "1:2")
              = Some {| ComponentAnalyzer.ci_name := "Card";
                        ComponentAnalyzer.ci_node := Samples.cardFrame;
                        ComponentAnalyzer.ci_parentId :=
                          ComponentAnalyzer.ParentKey (Some "0:1") |})
    by (vm_compute; reflexivity).
  split; [exact H|].
  destruct (@identify_registers_nodes_of_the_document Reference.runtime _ _ _ _ _ _ H)
    as [H0|H1]; [discriminate H0|exact H1].
Defined.

(* ------------------------------------------------------------------ *)
(** *** Class names *)
(* ------------------------------------------------------------------ *)

Section Classes.
Context {rt : Runtime}.
Import ClassNames.

Lemma kebab_word_units (k : jsstring) :
  forallb isKebabUnit k = true -> forallb isWordUnit k = true.
Proof.
  intro H. apply forallb_forall. intros c Hc.
  apply kebab_is_word. exact (proj1 (forallb_forall _ _) H c Hc).
Qed.

Lemma kebab_first (c : N) :
  isKebabUnit c = true -> NameUtils.isHyphen c = false -> isDigit c = false ->
  isLetter c = true.
Proof.
  unfold isKebabUnit, isLetter. intros H Hh Hd. rewrite Hh, Hd in H.
  rewrite !orb_false_r in H. now rewrite H.
Qed.

Lemma inferSemanticName_kebab (n : node) (k : jsstring) :
  inferSemanticName n = Ok (Some k) -> kebabShaped k.
Proof.
  unfold inferSemanticName.
  assert (Hlayout : forall k',
            (if ComponentAnalyzer.opt_str_eqb (node_layoutMode (attrs n)) (Some "HORIZONTAL")
             then Some "row"
             else if ComponentAnalyzer.opt_str_eqb (node_layoutMode (attrs n))
                       (Some "VERTICAL")
                  then Some "column" else None) = Some k' -> kebabShaped k').
  { intros k'. destruct (ComponentAnalyzer.opt_str_eqb _ (Some "HORIZONTAL"));
      [intro H; inversion H; repeat split|].
    destruct (ComponentAnalyzer.opt_str_eqb _ (Some "VERTICAL"));
      [intro H; inversion H; repeat split|discriminate]. }
  cbv zeta. destruct (children n) as [[|firstChild rest]|];
    try (intro H; inversion H as [H']; now apply Hlayout).
  destruct (isTEXT firstChild && NodeUtils.truthy_chars (node_characters (attrs firstChild))).
  - destruct (node_characters (attrs firstChild)) as [[chars|x]|]; try discriminate.
    destruct (NameUtils.toKebabCase (firstn 20 (String_toLowerCase chars))) eqn:E;
      [discriminate|].
    intro H. inversion H. rewrite <- E. apply toKebabCase_shape.
  - destruct (existsb (nameIncludes "button") (firstChild :: rest));
      [intro H; inversion H; repeat split|].
    destruct (existsb (nameIncludes "input") (firstChild :: rest));
      [intro H; inversion H; repeat split|].
    intro H. inversion H as [H']. now apply Hlayout.
Qed.

Lemma idFragment_word (id : jsstring) : forallb isWordUnit (idFragment id) = true.
Proof.
  unfold idFragment. apply forallb_forall. intros c Hc.
  apply firstn_In, in_map_iff in Hc as (d & <- & _).
  unfold isWordUnit. destruct (isAlnum d) eqn:E; [now rewrite E|reflexivity].
Qed.

(** The name put in the class attribute and in the selector, from the name
    the first steps of [getClassName] arrive at. *)
Lemma finalName_token (name1 : jsstring) (id : key) :
  kebabShaped name1 ->
  forall name2,
    name2 = match name1 with
            | [] => name1
            | c :: _ => if isDigit c then "el-" ++ name1 else name1
            end ->
    classToken
      match name2 with
      | [] => match id with
              | Some (c :: r) => "node-" ++ idFragment (c :: r)
              | _ => "element"
              end
      | _ => name2
      end.
Proof.
  intros (Hunits & Hfirst & _ & _) name2 ->. rewrite startsWith_hyphen in Hfirst.
  pose proof (kebab_word_units _ Hunits) as Hword.
  destruct name1 as [|c name1].
  - destruct id as [[|d id]|]; try (split; reflexivity).
    split; [|reflexivity]. rewrite forallb_app, idFragment_word. reflexivity.
  - cbn [firstIs] in Hfirst. destruct (isDigit c) eqn:Hd.
    + split; [|reflexivity]. cbn [app forallb] in *. exact Hword.
    + split; [exact Hword|]. cbn [firstIs]. cbn [forallb] in Hunits.
      apply andb_true_iff in Hunits as [Hc _]. now apply kebab_first.
Qed.

(** X16. When [getClassName] gives a class name for a node, the name is
    made of Basic Latin letters, digits and hyphens and starts with a
    letter, so that it needs no escaping; the selector of the style sheet
    is a dot before it and the attribute of the markup holds the same name
    between double quotes. A node with no name gets the empty string in
    both. *)
Theorem getClassName_gives_one_token (n : node) (selector : jsstring) :
  CSSTransformer.getClassName n true = Ok selector ->
  (truthy_str (node_name (attrs n)) = false
   /\ selector = []
   /\ JSXTransformer.getClassName n false = Ok [])
  \/ exists name,
       classToken name
       /\ selector = "." ++ name
       /\ JSXTransformer.getClassName n false
          = Ok (" className=" ++ dquote ++ name ++ dquote).
Proof.
  unfold CSSTransformer.getClassName, JSXTransformer.getClassName, getClassName.
  destruct (truthy_str (node_name (attrs n))); cbn [negb];
    [|intro H; inversion H; left; repeat split].
  cbv zeta. set (name0 := NameUtils.toKebabCase _).
  match goal with
  | |- bind ?first _ = _ -> _ =>
      assert (Hfirst : forall name1, first = Ok name1 -> kebabShaped name1);
      [|destruct first as [name1|err]; [|discriminate]]
  end.
  { intro name1.
    destruct (isFrameNumber name0 || str_eqb name0 "group" || str_eqb name0 "container").
    - destruct (inferSemanticName n) as [[[|c r]|]|err] eqn:E; cbn [bind];
        intro H; inversion H; subst; try (repeat split; reflexivity).
      now apply inferSemanticName_kebab in E.
    - intro H. inversion H. subst. apply toKebabCase_shape. }
  cbn [bind].
  pose proof (finalName_token name1 (node_id (attrs n)) (Hfirst _ eq_refl) _ eq_refl)
    as Htoken.
  intro H. right. eexists. split; [exact Htoken|].
  split; [injection H as H; symmetry; exact H|reflexivity].
Qed.

End Classes.

Lemma getClassName_gives_one_token_witness :
  @CSSTransformer.getClassName Reference.runtime Samples.cardFrame true = Ok ".card"
  /\ @JSXTransformer.getClassName Reference.runtime Samples.cardFrame false
     = Ok (" className=" ++ dquote ++ "card" ++ dquote).
Proof.
  assert (H : @CSSTransformer.getClassName Reference.runtime Samples.cardFrame true
              = Ok ".card") by (vm_compute; reflexivity).
  split; [exact H|].
  destruct (@getClassName_gives_one_token Reference.runtime _ _ H)
    as [(H0 & _)|(name & _ & Hsel & Hattr)]; [discriminate H0|].
  inversion Hsel. subst name. exact Hattr.
Defined.

(* ------------------------------------------------------------------ *)
(** *** The formatting of the markup *)
(* ------------------------------------------------------------------ *)

Section Formatting.
Import JSXTransformer.

Lemma split_aux_nonempty (s cur : jsstring) : split_aux 10 s cur <> [].
Proof.
  revert cur. induction s as [|c s IH]; intro cur; cbn [split_aux]; [discriminate|].
  destruct (c =? 10); [discriminate|apply IH].
Qed.

Lemma join_cons (sep x : jsstring) (l : list jsstring) :
  l <> [] -> join sep (x :: l) = x ++ sep ++ join sep l.
Proof. destruct l; [now intros []|reflexivity]. Qed.

(** Joining the lines of a text gives the text back. *)
Lemma join_split_aux (s cur : jsstring) :
  join StyleUtils.nl (split_aux 10 s cur) = rev cur ++ s.
Proof.
  revert cur. induction s as [|c s IH]; intro cur; cbn [split_aux].
  - cbn [join]. now rewrite app_nil_r.
  - destruct (N.eqb_spec c 10) as [->|Hc].
    + rewrite join_cons by apply split_aux_nonempty. now rewrite IH.
    + rewrite IH. cbn [rev]. now rewrite <- app_assoc.
Qed.

Lemma join_split (s : jsstring) : join StyleUtils.nl (split 10 s) = s.
Proof. apply join_split_aux. Qed.

Lemma split_aux_line (line rest cur : jsstring) :
  ~ In 10 line -> split_aux 10 (line ++ rest) cur = split_aux 10 rest (rev line ++ cur).
Proof.
  revert cur. induction line as [|c line IH]; intros cur H; [reflexivity|].
  cbn [app split_aux]. destruct (N.eqb_spec c 10) as [->|Hc]; [destruct H; now left|].
  rewrite IH by (intro Hin; apply H; now right).
  cbn [rev]. now rewrite <- app_assoc.
Qed.

(** Splitting what was joined gives the lines back, when no line holds a
    line feed. *)
Lemma split_join (lines : list jsstring) :
  lines <> [] -> Forall (fun line => ~ In 10 line) lines ->
  split 10 (join StyleUtils.nl lines) = lines.
Proof.
  unfold split. intros Hne H. induction H as [|x l Hx Hl IH]; [now destruct Hne|].
  destruct l as [|y l].
  - cbn [join]. pose proof (split_aux_line x [] [] Hx) as E.
    rewrite !app_nil_r in E. rewrite E. cbn [split_aux]. now rewrite rev_involutive.
  - rewrite join_cons by discriminate. rewrite split_aux_line by exact Hx.
    cbn [app split_aux StyleUtils.nl]. rewrite N.eqb_refl, app_nil_r, rev_involutive.
    f_equal. apply IH. discriminate.
Qed.

Lemma split_aux_lines (s cur : jsstring) :
  ~ In 10 cur -> Forall (fun line => ~ In 10 line) (split_aux 10 s cur).
Proof.
  revert cur. induction s as [|c s IH]; intros cur H; cbn [split_aux].
  - constructor; [|constructor]. intro Hin. now apply in_rev in Hin.
  - destruct (N.eqb_spec c 10) as [->|Hc].
    + constructor; [intro Hin; now apply in_rev in Hin|]. apply IH. intros [].
    + apply IH. intros [E|Hin]; [now destruct Hc|now apply H].
Qed.

Lemma dropBlankBeforeBlank_lines (P : jsstring -> Prop) (lines : list jsstring) :
  Forall P lines -> Forall P (dropBlankBeforeBlank lines).
Proof.
  induction 1 as [|x l Hx Hl IH]; [constructor|]. cbn [dropBlankBeforeBlank].
  destruct (isBlank x && _); [exact IH|now constructor].
Qed.

Lemma dropBlankBeforeBlank_nonempty (lines : list jsstring) :
  lines <> [] -> dropBlankBeforeBlank lines <> [].
Proof.
  induction lines as [|x l IH]; [now intros []|]. intros _. cbn [dropBlankBeforeBlank].
  destruct l as [|y l]; [rewrite andb_false_r; discriminate|].
  destruct (isBlank x && isBlank y); [apply IH|]; discriminate.
Qed.

Lemma dropBlankBeforeBlank_settled (lines : list jsstring) :
  settled (dropBlankBeforeBlank lines) = true.
Proof.
  induction lines as [|x l IH]; [reflexivity|]. cbn [dropBlankBeforeBlank].
  destruct l as [|y l]; [rewrite andb_false_r; cbn; now rewrite andb_false_r|].
  assert (Hstep : forall R, settled R = true ->
            isBlank x && match R with next :: _ => isBlank next | [] => false end = false ->
            settled (x :: R) = true).
  { intros R HR Hb. cbn [settled]. now rewrite Hb, HR. }
  destruct (isBlank x) eqn:Hx; cbn [andb].
  - destruct (isBlank y) eqn:Hy; [exact IH|]. apply Hstep; [exact IH|].
    cbn [dropBlankBeforeBlank]. rewrite Hy. cbn [andb]. exact Hy.
  - apply Hstep; [exact IH|reflexivity].
Qed.

Lemma settled_fixed (lines : list jsstring) :
  settled lines = true -> dropBlankBeforeBlank lines = lines.
Proof.
  induction lines as [|x l IH]; [reflexivity|]. cbn [settled dropBlankBeforeBlank].
  intro H. apply andb_true_iff in H as [Hx Hl]. apply negb_true_iff in Hx.
  rewrite Hx. f_equal. now apply IH.
Qed.

Lemma format_fixed (jsx : jsstring) : settled (split 10 jsx) = true -> format jsx = jsx.
Proof.
  intro H. unfold format. destruct jsx as [|c r]; [reflexivity|].
  now rewrite (settled_fixed _ H), join_split.
Qed.

Lemma format_settled (jsx : jsstring) : settled (split 10 (format jsx)) = true.
Proof.
  unfold format. destruct jsx as [|c r]; [reflexivity|].
  rewrite split_join.
  - apply dropBlankBeforeBlank_settled.
  - apply dropBlankBeforeBlank_nonempty, split_aux_nonempty.
  - apply dropBlankBeforeBlank_lines, split_aux_lines. intros [].
Qed.

(** X17. [format] leaves no blank line before a blank line, changes
    nothing in a text that has none, and is therefore idempotent. *)
Theorem format_settles_blank_lines (jsx : jsstring) :
  settled (split 10 (format jsx)) = true
  /\ (settled (split 10 jsx) = true -> format jsx = jsx)
  /\ format (format jsx) = format jsx.
Proof.
  split; [apply format_settled|]. split; [apply format_fixed|].
  apply format_fixed, format_settled.
Qed.

End Formatting.

(* ------------------------------------------------------------------ *)
(** *** The style sheet: what the walk keeps true *)
(* ------------------------------------------------------------------ *)

Section Sheet.
Context {rt : Runtime}.
Import ComponentAnalyzer JSXTransformer CSSTransformer.

Lemma register_processed (n : node) (c : jsstring) (e : Extraction) :
  processedClasses (register n c e)
  = if match c with [] => false | _ => true end && negb (mem c (processedClasses e))
    then processedClasses e ++ [c]
    else processedClasses e.
Proof.
  destruct c as [|c0 c]; [now rewrite register_skip by (now left)|].
  destruct (mem (c0 :: c) (processedClasses e)) eqn:Hm;
    [now rewrite register_skip by (now right)|].
  rewrite register_fresh by (discriminate || assumption). cbn [andb negb].
  destruct (hasOwnRule n (c0 :: c)); [|reflexivity].
  destruct (getStyleKey n) as [[|x k]|]; try reflexivity.
  destruct (map_has (styleMap e) (Some (x :: k))); reflexivity.
Qed.

(** A property that every visit keeps holds after the walk. *)
Lemma visits_invariant (P : list node -> Extraction -> Prop) :
  (forall seen n c e, getClassName n true = Ok c -> P seen e ->
                      P (seen ++ [n]) (register n c e)) ->
  forall l seen e e', P seen e -> foldM visit l e = Ok e' -> P (seen ++ l) e'.
Proof.
  intros Hstep l. induction l as [|n l IH]; intros seen e e' Hs H; cbn [foldM] in H.
  - inversion H. subst. now rewrite app_nil_r.
  - unfold visit at 1 in H. destruct (getClassName n true) as [c|err] eqn:Hc; [|discriminate].
    cbn [bind] in H. change (seen ++ n :: l) with (seen ++ [n] ++ l). rewrite app_assoc.
    exact (IH _ _ _ (Hstep seen n c e Hc Hs) H).
Qed.

Lemma register_processedExactly (seen : list node) (n : node) (c : jsstring)
    (e : Extraction) :
  getClassName n true = Ok c -> processedExactly seen e ->
  processedExactly (seen ++ [n]) (register n c e).
Proof.
  intros Hc [Hnd Hiff]. unfold processedExactly. rewrite register_processed.
  assert (Hold : forall c', In c' (processedClasses e) ->
                   c' <> [] /\ exists m, In m (seen ++ [n]) /\ getClassName m true = Ok c').
  { intros c' Hin. destruct (proj1 (Hiff c') Hin) as (Hne & m & Hm & Hcm).
    split; [exact Hne|]. exists m. split; [apply in_or_app; now left|exact Hcm]. }
  assert (Hnew : forall c', c' <> [] ->
                   (exists m, In m (seen ++ [n]) /\ getClassName m true = Ok c') ->
                   In c' (processedClasses e) \/ c' = c).
  { intros c' Hne (m & Hm & Hcm). apply in_app_or in Hm as [Hm|[<-|[]]].
    - left. apply Hiff. split; [exact Hne|]. now exists m.
    - right. congruence. }
  destruct c as [|c0 c]; cbn [andb].
  - split; [exact Hnd|]. intro c'. split; [apply Hold|].
    intros [Hne Hex]. destruct (Hnew c' Hne Hex) as [H| ->]; [exact H|now destruct Hne].
  - destruct (mem (c0 :: c) (processedClasses e)) eqn:Hm; cbn [negb].
    + split; [exact Hnd|]. intro c'. split; [apply Hold|].
      intros [Hne Hex]. destruct (Hnew c' Hne Hex) as [H| ->]; [exact H|now apply mem_In].
    + assert (Hout : ~ In (c0 :: c) (processedClasses e)).
      { intro Hin. apply mem_In in Hin. congruence. }
      split.
      * apply NoDup_app; [exact Hnd|repeat constructor; intros []|].
        intros x Hx [<-|[]]. now apply Hout.
      * intro c'. split.
        -- intro Hin. apply in_app_or in Hin as [Hin|[<-|[]]]; [now apply Hold|].
           split; [discriminate|]. exists n. split; [apply in_or_app; right; now left|exact Hc].
        -- intros [Hne Hex]. apply in_or_app.
           destruct (Hnew c' Hne Hex) as [H| ->]; [now left|right; now left].
Qed.

(** X18. When [extractStyles] returns, the set of processed class names
    holds, each once, the class names of the nodes of the document that are
    not the empty string, and nothing else. *)
Theorem extractStyles_processes_each_class_once (n : node) (e : Extraction) :
  extractStyles n emptyExtraction = Ok e -> processedExactly (walk n) e.
Proof.
  rewrite extractStyles_walk. intro H.
  apply (visits_invariant processedExactly register_processedExactly (walk n) []
           emptyExtraction e); [|exact H].
  split; [constructor|]. intro c. split; [intros []|]. now intros (_ & m & [] & _).
Qed.

Lemma map_get_set_cases {V} (m : jsmap V) (k k0 : key) (v g : V) :
  map_get (map_set m k v) k0 = Some g ->
  (k0 = k /\ g = v) \/ (k0 <> k /\ map_get m k0 = Some g).
Proof.
  rewrite map_get_set. destruct (key_eqb k k0) eqn:E.
  - apply key_eqb_eq in E. intro H. inversion H. now left.
  - intro H. right. split; [|exact H]. intros ->. now rewrite key_eqb_refl in E.
Qed.

Lemma groupsInOrder_processed (e : Extraction) (c : jsstring) :
  groupsInOrder e -> groupsInOrder (markProcessed e c).
Proof.
  intros (H1 & H2 & H3). repeat split; try exact (proj1 H2); try exact (proj2 H2);
    try exact H3.
  intros k group c' Hg Hc'. cbn [markProcessed processedClasses].
  apply in_or_app. left. exact (H1 k group c' Hg Hc').
Qed.

(** Listing a new class name under a style key keeps the groups in order. *)
Lemma groupsInOrder_listed (e : Extraction) (k : key) (c : jsstring)
    (classes : list jsstring) (style : jsstring) (sm : jsmap jsstring) :
  groupsInOrder e -> ~ In c (processedClasses e) ->
  (forall x, In x classes -> In x (processedClasses e)) -> NoDup classes ->
  (forall k' group' x, k' <> k -> map_get (styleGroups e) k' = Some group' ->
                       In x (sg_classes group') -> ~ In x classes) ->
  (forall k0, map_has sm k0 = true -> key_eqb k k0 || map_has (styleGroups e) k0 = true) ->
  groupsInOrder
    {| singleStyles := singleStyles e;
       processedClasses := processedClasses e ++ [c];
       styleMap := sm;
       styleGroups := map_set (styleGroups e) k
                        {| sg_classes := classes ++ [c]; sg_style := style |} |}.
Proof.
  intros (H1 & (L1 & L2) & H3) Hfresh Hsub Hnd Hother Hsm.
  assert (Hc : forall k' group', map_get (styleGroups e) k' = Some group' ->
                 ~ In c (sg_classes group')).
  { intros k' group' Hg Hin. apply Hfresh. exact (H1 _ _ _ Hg Hin). }
  split; [|split; [split|]]; cbn [styleGroups processedClasses styleMap].
  - intros k0 group x Hg Hx.
    apply map_get_set_cases in Hg as [[-> ->]|[Hne Hg]]; cbn [sg_classes] in *.
    + apply in_app_or in Hx as [Hx|Hx]; apply in_or_app; [left; now apply Hsub|now right].
    + apply in_or_app. left. exact (H1 _ _ _ Hg Hx).
  - intros k0 group Hg.
    apply map_get_set_cases in Hg as [[-> ->]|[Hne Hg]]; cbn [sg_classes];
      [|exact (L1 _ _ Hg)].
    apply NoDup_app; [exact Hnd|repeat constructor; intros []|].
    intros x Hx [<-|[]]. apply Hfresh. now apply Hsub.
  - intros k1 k2 g1 g2 x Hg1 Hg2 Hx1 Hx2.
    apply map_get_set_cases in Hg1 as [[-> ->]|[Hne1 Hg1]];
      apply map_get_set_cases in Hg2 as [[-> ->]|[Hne2 Hg2]]; cbn [sg_classes] in *.
    + reflexivity.
    + exfalso. apply in_app_or in Hx1 as [Hx1|[<-|[]]];
        [exact (Hother _ _ _ Hne2 Hg2 Hx2 Hx1)|exact (Hc _ _ Hg2 Hx2)].
    + exfalso. apply in_app_or in Hx2 as [Hx2|[<-|[]]];
        [exact (Hother _ _ _ Hne1 Hg1 Hx1 Hx2)|exact (Hc _ _ Hg1 Hx1)].
    + exact (L2 _ _ _ _ _ Hg1 Hg2 Hx1 Hx2).
  - intros k0 Hk0. rewrite map_has_set. now apply Hsm.
Qed.

Lemma register_groupsInOrder (n : node) (c : jsstring) (e : Extraction) :
  groupsInOrder e -> groupsInOrder (register n c e).
Proof.
  intro H.
  assert (Hcase : c = [] \/ c <> []) by (destruct c; [now left|right; discriminate]).
  destruct Hcase as [Hempty|Hne]; [now rewrite register_skip by (now left)|].
  destruct (mem c (processedClasses e)) eqn:Hm;
    [now rewrite register_skip by (now right)|].
  assert (Hfresh : ~ In c (processedClasses e))
    by (intro Hin; apply mem_In in Hin; congruence).
  rewrite register_fresh by assumption.
  destruct (hasOwnRule n c); [|now apply groupsInOrder_processed].
  destruct (getStyleKey n) as [[|x k]|];
    try exact (groupsInOrder_processed e c H).
  pose proof H as (H1 & (L1 & L2) & H3).
  set (key := Some (x :: k)).
  destruct (map_has (styleMap e) key) eqn:Hhas.
  - pose proof (H3 _ Hhas) as Hgroup. cbv zeta. rewrite Hgroup. cbn [negb].
    unfold map_has in Hgroup. destruct (map_get (styleGroups e) key) as [g|] eqn:Hg;
      [|discriminate].
    assert (Hout : mem c (sg_classes g) = false).
    { destruct (mem c (sg_classes g)) eqn:E; [|reflexivity].
      apply mem_In in E. destruct Hfresh. exact (H1 _ _ _ Hg E). }
    rewrite Hout. cbn [negb].
    apply groupsInOrder_listed; try assumption.
    + intros y Hy. exact (H1 _ _ _ Hg Hy).
    + exact (L1 _ _ Hg).
    + intros k' group' y Hne' Hg' Hy Hy'. apply Hne'. exact (L2 _ _ _ _ _ Hg' Hg Hy Hy').
    + intros k0 Hk0. rewrite (H3 _ Hk0). apply orb_true_r.
  - apply (groupsInOrder_listed e key c [] (nodeToCSS n c)); try assumption.
    + intros y [].
    + constructor.
    + intros k' group' y _ _ _ [].
    + intros k0 Hk0. rewrite map_has_set in Hk0.
      destruct (key_eqb key k0); [reflexivity|]. cbn [orb] in *. exact (H3 _ Hk0).
Qed.

(** X19. When [extractStyles] returns, no class name is listed twice in a
    style group, and none is listed in two groups: a class belongs to one
    rule block at most. *)
Theorem extractStyles_lists_each_class_once (n : node) (e : Extraction) :
  extractStyles n emptyExtraction = Ok e -> listedOnce e.
Proof.
  rewrite extractStyles_walk. intro H.
  assert (Hall : groupsInOrder e).
  { apply (visits_invariant (fun _ => groupsInOrder)
             (fun _ n c e _ => register_groupsInOrder n c e) (walk n) [] emptyExtraction e);
      [|exact H].
    repeat split; try discriminate. }
  exact (proj1 (proj2 Hall)).
Qed.

Lemma register_keeps_single (n : node) (c s : jsstring) (e : Extraction) :
  In s (singleStyles e) -> In s (singleStyles (register n c e)).
Proof.
  intro H.
  assert (Hcase : c = [] \/ c <> []) by (destruct c; [now left|right; discriminate]).
  destruct Hcase as [Hempty|Hne]; [now rewrite register_skip by (now left)|].
  destruct (mem c (processedClasses e)) eqn:Hm;
    [now rewrite register_skip by (now right)|].
  rewrite register_fresh by assumption.
  destruct (hasOwnRule n c); [|exact H].
  destruct (getStyleKey n) as [[|x k]|];
    try (cbn [singleStyles]; apply in_or_app; now left).
  destruct (map_has (styleMap e) (Some (x :: k))); exact H.
Qed.

Lemma visits_keep_single (l : list node) (s : jsstring) (e e' : Extraction) :
  In s (singleStyles e) -> foldM visit l e = Ok e' -> In s (singleStyles e').
Proof.
  revert e. induction l as [|n l IH]; intros e Hs H; cbn [foldM] in H.
  - inversion H. now subst.
  - unfold visit at 1 in H. destruct (getClassName n true) as [c|err]; [|discriminate].
    cbn [bind] in H. exact (IH _ (register_keeps_single n c s e Hs) H).
Qed.

(** X20. A node with a rule of its own, whose class name no earlier node
    has and for which [getStyleKey] gives [null], has its rule in the style
    sheet as a block of its own, as [nodeToCSS] gives it. *)
Theorem unkeyed_rule_is_a_block_of_its_own
    (root n : node) (before after : list node) (c : jsstring) :
  walk root = before ++ n :: after ->
  (forall m, In m (walk root) -> exists c', getClassName m true = Ok c') ->
  getClassName n true = Ok c -> c <> [] -> notMetIn c before ->
  hasOwnRule n c = true -> getStyleKey n = None ->
  exists e,
    extractStyles root emptyExtraction = Ok e
    /\ In (nodeToCSS n c) (singleStyles e)
    /\ In (nodeToCSS n c) (styleBlocks e).
Proof.
  intros Hwalk Hall Hc Hne Hnew Hown Hkey.
  destruct (visits_return (walk root) emptyExtraction Hall) as (e & He).
  exists e. rewrite extractStyles_walk. split; [exact He|].
  assert (Hin : In (nodeToCSS n c) (singleStyles e)).
  { rewrite Hwalk, foldM_app in He.
    destruct (foldM visit before emptyExtraction) as [eA|] eqn:HA; [|discriminate].
    cbn [bind foldM] in He. unfold visit at 1 in He. rewrite Hc in He. cbn [bind] in He.
    pose proof (visits_sound before [] _ _ sound_empty HA) as HsA. cbn [app] in HsA.
    pose proof (unmet_is_new _ _ _ HsA Hnew) as Hfresh.
    refine (visits_keep_single after _ _ _ _ He).
    rewrite register_fresh by assumption. rewrite Hown, Hkey. cbn [singleStyles].
    apply in_or_app. right. now left. }
  split; [exact Hin|]. unfold styleBlocks. apply in_or_app. right. apply in_or_app. now right.
Qed.

Lemma visits_throw (l : list node) (e : Extraction) (err : error) :
  foldM visit l e = Throw err <-> firstFailure l err.
Proof.
  revert e. induction l as [|n l IH]; intro e; cbn [foldM].
  - split; [discriminate|]. intros (before & m & after & E & _).
    now destruct before.
  - unfold visit at 1. destruct (getClassName n true) as [c|err'] eqn:Hc; cbn [bind].
    + rewrite IH. split.
      * intros (before & m & after & -> & Hb & Hm).
        exists (n :: before), m, after. repeat split; [|exact Hm].
        intros x [<-|Hx]; [now exists c|now apply Hb].
      * intros (before & m & after & E & Hb & Hm). destruct before as [|b before].
        -- cbn [app] in E. inversion E; subst. congruence.
        -- cbn [app] in E. inversion E; subst.
           exists before, m, after. repeat split; [|exact Hm].
           intros x Hx. apply Hb. now right.
    + split.
      * intro H. inversion H; subst. exists [], n, l. repeat split; [intros x []|exact Hc].
      * intros (before & m & after & E & Hb & Hm). destruct before as [|b before].
        -- cbn [app] in E. inversion E; subst. congruence.
        -- cbn [app] in E. inversion E; subst.
           destruct (Hb b (or_introl eq_refl)) as (c' & Hc'). congruence.
Qed.

Lemma startsWith_app (p rest : jsstring) : startsWith (p ++ rest) p = true.
Proof.
  induction p as [|c p IH]; [now destruct rest|].
  cbn [app startsWith]. now rewrite N.eqb_refl, IH.
Qed.

Lemma join_starts (sep x : jsstring) (l : list jsstring) :
  startsWith (join sep (x :: l)) x = true.
Proof.
  destruct l as [|y l]; cbn [join]; [rewrite <- (app_nil_r x) at 1|]; apply startsWith_app.
Qed.

(** X21. [generate] throws exactly when the class name of a node of the
    document cannot be derived, and then the error is that of the first
    such node of the walk; when it returns, the style sheet begins with the
    reset styles. *)
Theorem generate_throws_the_first_failure (n : node) (name : jsstring) :
  (forall err, generate n name = Throw err <-> firstFailure (walk n) err)
  /\ forall sheet, generate n name = Ok sheet ->
                   startsWith sheet StyleUtils.getBaseResetStyles = true.
Proof.
  unfold generate. rewrite extractStyles_walk. split.
  - intro err. rewrite <- (visits_throw (walk n) emptyExtraction err).
    destruct (foldM visit (walk n) emptyExtraction); cbn [bind];
      [split; discriminate|].
    split; intro H; inversion H; reflexivity.
  - intros sheet. destruct (foldM visit (walk n) emptyExtraction) as [e|]; cbn [bind];
      [|discriminate].
    intro H.
    assert (E : sheet = join (StyleUtils.nl ++ StyleUtils.nl) (styleBlocks e))
      by congruence.
    rewrite E. unfold styleBlocks. apply (join_starts _ StyleUtils.getBaseResetStyles).
Qed.

Lemma hasUnit_In (u : N) (s : jsstring) : hasUnit u s = false -> ~ In u s.
Proof.
  unfold hasUnit. intros H Hin.
  assert (E : existsb (N.eqb u) s = true)
    by (apply existsb_exists; exists u; split; [exact Hin|apply N.eqb_refl]).
  congruence.
Qed.

Lemma braced_skip (before rest : jsstring) :
  ~ In 123 before -> braced (before ++ 123 :: rest) = uptoLastBrace rest.
Proof.
  induction before as [|c before IH]; intro H; cbn [app braced]; [reflexivity|].
  destruct (N.eqb_spec c 123) as [->|_]; [destruct H; now left|].
  apply IH. intro Hin. apply H. now right.
Qed.

Lemma join_snoc (sep x : jsstring) (l : list jsstring) :
  l <> [] -> join sep (l ++ [x]) = join sep l ++ sep ++ x.
Proof.
  induction l as [|y l IH]; [now intros []|]. intros _.
  destruct l as [|z l]; [reflexivity|].
  change ((y :: z :: l) ++ [x]) with (y :: ((z :: l) ++ [x])).
  rewrite join_cons by (cbn [app]; discriminate).
  rewrite IH by discriminate. rewrite (join_cons sep y (z :: l)) by discriminate.
  now rewrite <- !app_assoc.
Qed.

Lemma filterBoolean_inked (rules : list jsstring) :
  Forall (fun r => hasInk r = true) rules ->
  filterBoolean (map trim rules) = map trim rules.
Proof.
  induction 1 as [|r l Hr Hl IH]; [reflexivity|]. cbn [map filterBoolean filter].
  fold (filterBoolean (map trim l)). rewrite IH.
  destruct (trim r) eqn:E; [|reflexivity].
  rewrite <- hasInk_trim, E in Hr. discriminate.
Qed.

(** A rule, its selector taken off, gives its declarations back. *)
Lemma rules_recovered (c : jsstring) (rules : list jsstring) :
  ~ In 123 c -> rules <> [] ->
  Forall (fun r => ~ In 10 r) rules -> Forall (fun r => hasInk r = true) rules ->
  extractCSSRulesFromStyle
    (c ++ " {" ++ StyleUtils.nl ++ join StyleUtils.nl rules ++ StyleUtils.nl ++ "}")
  = map trim rules.
Proof.
  intros Hc Hne Hlines Hink. unfold extractCSSRulesFromStyle.
  assert (Hshape :
    c ++ " {" ++ StyleUtils.nl ++ join StyleUtils.nl rules ++ StyleUtils.nl ++ "}"
    = (c ++ " ") ++ 123 :: (join StyleUtils.nl (([] : jsstring) :: rules ++ [[]]) ++ [125])).
  { rewrite join_cons by (destruct rules; cbn [app]; discriminate).
    rewrite join_snoc by exact Hne. rewrite <- !app_assoc. reflexivity. }
  rewrite Hshape, braced_skip, uptoLastBrace_snoc.
  - assert (Hsplit : split 10 (join StyleUtils.nl (([] : jsstring) :: rules ++ [[]]))
                     = [] :: rules ++ [[]]).
    { apply split_join; [discriminate|]. constructor; [intros []|].
      apply Forall_app. split; [exact Hlines|]. constructor; [intros []|constructor]. }
    destruct (join StyleUtils.nl (([] : jsstring) :: rules ++ [[]])) as [|j0 j] eqn:Ej.
    + rewrite join_cons in Ej by (destruct rules; cbn [app]; discriminate).
      discriminate Ej.
    + rewrite Hsplit. cbn [map]. rewrite map_app. cbn [map].
      change (trim []) with ([] : jsstring). cbn [filterBoolean filter].
      fold (filterBoolean (map trim rules ++ [[]])).
      unfold filterBoolean. rewrite filter_app. cbn [filter]. rewrite app_nil_r.
      apply filterBoolean_inked, Hink.
  - intro Hin. apply in_app_or in Hin as [Hin|[E|[]]]; [now apply Hc|discriminate E].
Qed.

(** X22. When the class name holds no opening brace and no declaration of
    the node holds a line feed, [extractCSSRulesFromStyle] gives back, from
    the rule that [nodeToCSS] writes, the declarations of the node, each
    without the white space around it. *)
Theorem extractCSSRulesFromStyle_gives_the_declarations (n : node) (c : jsstring) :
  hasUnit 123 c = false ->
  forallb (fun r => negb (hasUnit 10 r)) (rulesOf n) = true ->
  extractCSSRulesFromStyle (nodeToCSS n c) = map trim (rulesOf n).
Proof.
  intros Hc Hlines. unfold nodeToCSS.
  pose proof (rulesOf_inked n) as Hink.
  destruct (rulesOf n) as [|r0 rs] eqn:E; [reflexivity|].
  apply rules_recovered; [now apply hasUnit_In|discriminate| |exact Hink].
  apply Forall_forall. intros r Hr. apply hasUnit_In.
  apply negb_true_iff. exact (proj1 (forallb_forall _ _) Hlines r Hr).
Qed.

End Sheet.

Lemma extractStyles_processes_each_class_once_witness :
  exists e,
    @CSSTransformer.extractStyles Reference.runtime Samples.boxesAfterNamesake
      CSSTransformer.emptyExtraction = Ok e
    /\ CSSTransformer.processedClasses e = [".page"; ".beta"; ".alpha"]
    /\ @processedExactly Reference.runtime (walk Samples.boxesAfterNamesake) e.
Proof.
  eexists. split; [vm_compute; reflexivity|]. split; [reflexivity|].
  apply (@extractStyles_processes_each_class_once Reference.runtime).
  vm_compute. reflexivity.
Defined.

Lemma extractStyles_lists_each_class_once_witness :
  exists e,
    @CSSTransformer.extractStyles Reference.runtime Samples.twoEqualBoxes
      CSSTransformer.emptyExtraction = Ok e
    /\ map (fun entry => CSSTransformer.sg_classes (snd entry)) (CSSTransformer.styleGroups e)
       = [[".alpha"; ".beta"]]
    /\ listedOnce e.
Proof.
  eexists. split; [vm_compute; reflexivity|]. split; [reflexivity|].
  apply (@extractStyles_lists_each_class_once Reference.runtime Samples.twoEqualBoxes).
  vm_compute. reflexivity.
Defined.

Lemma unkeyed_rule_is_a_block_of_its_own_witness :
  exists e,
    @CSSTransformer.extractStyles Reference.runtime Samples.twoBareTexts
      CSSTransformer.emptyExtraction = Ok e
    /\ In (@CSSTransformer.nodeToCSS Reference.runtime
             (Node (attributes "1:2" "Beta" "TEXT") None) ".beta")
          (CSSTransformer.singleStyles e)
    /\ In (@CSSTransformer.nodeToCSS Reference.runtime
             (Node (attributes "1:2" "Beta" "TEXT") None) ".beta")
          (CSSTransformer.styleBlocks e).
Proof.
  apply (@unkeyed_rule_is_a_block_of_its_own Reference.runtime Samples.twoBareTexts
           (Node (attributes "1:2" "Beta" "TEXT") None)
           [Samples.twoBareTexts; Node (attributes "1:1" "Alpha" "TEXT") None] []).
  - reflexivity.
  - intros m [<-|[<-|[<-|[]]]]; eexists; vm_compute; reflexivity.
  - vm_compute. reflexivity.
  - discriminate.
  - intros m [<-|[<-|[]]]; vm_compute; discriminate.
  - vm_compute. reflexivity.
  - vm_compute. reflexivity.
Defined.

Lemma extractCSSRulesFromStyle_gives_the_declarations_witness :
  CSSTransformer.extractCSSRulesFromStyle
    (@CSSTransformer.nodeToCSS Reference.runtime (Samples.sizedBox "1:1" "Alpha") ".alpha")
  = ["background-color: rgba(255, 0, 0, 1);"].
Proof.
  rewrite (@extractCSSRulesFromStyle_gives_the_declarations Reference.runtime
             (Samples.sizedBox "1:1" "Alpha") ".alpha");
    vm_compute; reflexivity.
Defined.

(* ------------------------------------------------------------------ *)
(** *** The generator: used components, configuration, flat output *)
(* ------------------------------------------------------------------ *)

Section Generator.
Context {rt : Runtime}.
Import ComponentAnalyzer JSXTransformer CodeGenerator.

Lemma key_eqb_sym (a b : key) : key_eqb a b = key_eqb b a.
Proof.
  destruct (key_eqb a b) eqn:E.
  - apply key_eqb_eq in E. subst. symmetry. apply key_eqb_refl.
  - destruct (key_eqb b a) eqn:E'; [|reflexivity].
    apply key_eqb_eq in E'. subst. now rewrite key_eqb_refl in E.
Qed.

Lemma has_key_In (ids : list key) (k : key) :
  ReactTemplateGenerator.has_key ids k = true <-> In k ids.
Proof.
  unfold ReactTemplateGenerator.has_key. rewrite existsb_exists. split.
  - intros (x & Hx & E). apply key_eqb_eq in E. now subst.
  - intro H. exists k. split; [exact H|apply key_eqb_refl].
Qed.

Lemma has_key_add (ids : list key) (k' k : key) :
  ReactTemplateGenerator.has_key (add_key ids k') k
  = ReactTemplateGenerator.has_key ids k || key_eqb k' k.
Proof.
  unfold add_key. destruct (ReactTemplateGenerator.has_key ids k') eqn:E.
  - destruct (key_eqb k' k) eqn:Ek; [|now rewrite orb_false_r].
    apply key_eqb_eq in Ek. subst. now rewrite E.
  - unfold ReactTemplateGenerator.has_key. rewrite existsb_app. cbn [existsb].
    now rewrite orb_false_r, (key_eqb_sym k k').
Qed.

Lemma add_key_NoDup (ids : list key) (k : key) : NoDup ids -> NoDup (add_key ids k).
Proof.
  intro H. unfold add_key. destruct (ReactTemplateGenerator.has_key ids k) eqn:E; [exact H|].
  apply NoDup_app; [exact H|repeat constructor; intros []|].
  intros x Hx [<-|[]]. apply has_key_In in Hx. congruence.
Qed.

(** [collectUsedComponents] visits the nodes in the order of the walk. *)
Lemma collectUsedComponents_walk (g : CodeGenerator) (n : node) :
  forall ids,
    collectUsedComponents g n ids
    = fold_left (fun acc m =>
                   if map_has (components (context g)) (node_id (attrs m))
                   then add_key acc (node_id (attrs m)) else acc)
                (walk n) ids.
Proof.
  induction n as [a|a l IH] using node_induction; intro ids; [reflexivity|].
  cbn [collectUsedComponents walk fold_left attrs]. rewrite fold_left_flat_map.
  apply fold_left_ext_Forall. exact IH.
Qed.

(** X23. [collectUsedComponents] adds to the set the identifiers of the
    nodes of the document that are keys of the components map, and nothing
    else; it adds none twice. *)
Theorem collectUsedComponents_collects_the_registered_nodes
    (g : CodeGenerator) (n : node) (ids : list key) :
  (forall k,
     ReactTemplateGenerator.has_key (collectUsedComponents g n ids) k
     = ReactTemplateGenerator.has_key ids k
       || (map_has (components (context g)) k
           && existsb (fun m => key_eqb (node_id (attrs m)) k) (walk n)))
  /\ (NoDup ids -> NoDup (collectUsedComponents g n ids)).
Proof.
  rewrite collectUsedComponents_walk. revert ids.
  induction (walk n) as [|m l IH]; intro ids; cbn [fold_left existsb].
  - split; [|auto]. intro k. now rewrite andb_false_r, orb_false_r.
  - destruct (IH (if map_has (components (context g)) (node_id (attrs m))
                  then add_key ids (node_id (attrs m)) else ids)) as [Hhas Hnd].
    split.
    + intro k. rewrite Hhas.
      destruct (map_has (components (context g)) (node_id (attrs m))) eqn:Hm.
      * rewrite has_key_add. destruct (key_eqb (node_id (attrs m)) k) eqn:Ek.
        -- apply key_eqb_eq in Ek. rewrite <- Ek, Hm. cbn [orb andb].
           now rewrite !orb_true_r.
        -- now rewrite orb_false_r.
      * destruct (key_eqb (node_id (attrs m)) k) eqn:Ek; [|reflexivity].
        apply key_eqb_eq in Ek. rewrite <- Ek, Hm. reflexivity.
    + intro H. apply Hnd.
      destruct (map_has (components (context g)) (node_id (attrs m)));
        [now apply add_key_NoDup|exact H].
Qed.

(** X24. [generate] changes the generation context of the generator and
    nothing of its configuration; what [generateReact] leaves of the
    caller's document is the normalized document. *)
Theorem generate_keeps_the_configuration (g : CodeGenerator) (doc : node) :
  sameConfig g (after (generate g doc))
  /\ document (generateReact g doc) = NodeUtils.preprocessObject doc None.
Proof. split; [apply sameConfig_generate|apply generateReact_document]. Qed.

Lemma flat_paths_distinct (name a b : jsstring) :
  str_eqb a b = false -> str_eqb (name ++ "." ++ a) (name ++ "." ++ b) = false.
Proof.
  intro H. rewrite <- H.
  change (name ++ "." ++ a) with (name ++ ("." ++ a)).
  now rewrite !str_eqb_app.
Qed.

(** X25. With [componentize] switched off no component is identified, and
    what [generateReact] returns is the files of the root unit alone, at
    the top of the output: the markup file, the style sheet and, in typed
    mode, the type declarations. *)
Theorem flat_generation_emits_the_root_alone (g : CodeGenerator) (doc : node) :
  let processedData := NodeUtils.preprocessObject doc None in
  let name := rootName g processedData in
  let g4 := enterRoot g processedData in
  componentize g = false ->
  components (context g4) = []
  /\ output (generateReact g doc)
     = (jsx <- transform (newTransformer g4) processedData 1 name ;;
        css <- CSSTransformer.generate processedData name ;;
        Ok (rootFiles g4 processedData name jsx css))
  /\ forall jsx css,
       map fst (rootFiles g4 processedData name jsx css)
       = (name ++ "." ++ extension g) :: (name ++ ".css")
           :: (if useTypeScript g then [name ++ ".types.ts"] else []).
Proof.
  intros processedData name g4 Hoff.
  pose proof (sameConfig_enterRoot g processedData) as Hcfg. fold g4 in Hcfg.
  assert (Hoff4 : componentize g4 = false).
  { destruct Hcfg as (_ & _ & _ & _ & Hz & _). now rewrite <- Hz. }
  assert (Hts : useTypeScript g4 = useTypeScript g).
  { destruct Hcfg as (_ & _ & _ & Ht & _ & _). now rewrite <- Ht. }
  assert (Hmap : components (context g4) = []).
  { subst g4. unfold enterRoot. cbn [withTransformer context].
    change (componentize (analyzeInteractiveElements (resetState g) processedData))
      with (componentize g).
    rewrite Hoff. reflexivity. }
  split; [exact Hmap|]. split.
  - assert (Hjt : jsxTransformer g4 = Some (newTransformer g4)) by reflexivity.
    unfold generateReact.
    change (NodeUtils.preprocessObject doc None) with processedData.
    change (rootName g processedData) with name.
    change (enterRoot g processedData) with g4.
    rewrite Hjt. clearbody g4 name processedData.
    destruct (transform (newTransformer g4) processedData 1 name) as [jsx|e];
      [|reflexivity].
    cbn [bind].
    destruct (CSSTransformer.generate processedData name) as [css|e]; [|reflexivity].
    cbn [bind]. rewrite Hoff4. reflexivity.
  - intros jsx css. unfold rootFiles. rewrite Hoff4, Hts.
    unfold extension. rewrite Hts.
    destruct (useTypeScript g).
    + destruct (generateTypesFile_nonempty g4 name) as (c & r & Hty). rewrite Hty.
      cbn [file_set].
      rewrite (flat_paths_distinct name "tsx" "css" eq_refl).
      cbn [file_set].
      rewrite (flat_paths_distinct name "tsx" "types.ts" eq_refl).
      rewrite (flat_paths_distinct name "css" "types.ts" eq_refl).
      reflexivity.
    + cbn [file_set].
      rewrite (flat_paths_distinct name "jsx" "css" eq_refl).
      reflexivity.
Qed.

End Generator.

Lemma flat_generation_emits_the_root_alone_witness :
  exists files,
    CodeGenerator.output
      (@CodeGenerator.generateReact Reference.runtime
         (CodeGenerator.constructor None false false None) Samples.pageWithCardFrame)
    = Ok files
    /\ map fst files = ["App.jsx"; "App.css"].
Proof.
  destruct (@flat_generation_emits_the_root_alone Reference.runtime
              (CodeGenerator.constructor None false false None) Samples.pageWithCardFrame
              eq_refl) as (_ & Hout & Hpaths).
  rewrite Hout.
  destruct (@JSXTransformer.transform Reference.runtime _ _ _ _) as [jsx|e] eqn:Ejsx;
    [|vm_compute in Ejsx; discriminate Ejsx].
  cbn [bind].
  destruct (@CSSTransformer.generate Reference.runtime _ _) as [css|e] eqn:Ecss;
    [|vm_compute in Ecss; discriminate Ecss].
  cbn [bind]. eexists. split; [reflexivity|].
  rewrite Hpaths. vm_compute. reflexivity.
Defined.

(* ------------------------------------------------------------------ *)
(** *** The style sheet: a style key that one node alone has *)
(* ------------------------------------------------------------------ *)

Section LoneKey.
Context {rt : Runtime}.
Import ComponentAnalyzer JSXTransformer CSSTransformer.

(** A visit of a node with another style key leaves the entries of a key
    as they are. *)
Lemma register_other_key (n : node) (c k : jsstring) (e : Extraction) :
  getStyleKey n <> Some k ->
  map_get (styleMap (register n c e)) (Some k) = map_get (styleMap e) (Some k)
  /\ map_get (styleGroups (register n c e)) (Some k) = map_get (styleGroups e) (Some k).
Proof.
  intro Hk.
  assert (Hcase : c = [] \/ c <> []) by (destruct c; [now left|right; discriminate]).
  destruct Hcase as [Hempty|Hne]; [now rewrite register_skip by (now left)|].
  destruct (mem c (processedClasses e)) eqn:Hm;
    [now rewrite register_skip by (now right)|].
  rewrite register_fresh by assumption.
  destruct (hasOwnRule n c); [|split; reflexivity].
  destruct (getStyleKey n) as [[|x k']|]; try (split; reflexivity).
  set (key := Some (x :: k')) in *.
  assert (Hne' : Some k <> key) by (intro E; apply Hk; now rewrite E).
  assert (Hother : forall V (m : jsmap V) v,
            map_get (map_set m key v) (Some k) = map_get m (Some k))
    by (intros V m v; now apply map_get_set_other).
  destruct (map_has (styleMap e) key); cbn [styleMap styleGroups].
  - split; [reflexivity|].
    set (groups1 := if negb (map_has (styleGroups e) key)
                    then map_set (styleGroups e) key _ else styleGroups e).
    assert (H1 : map_get groups1 (Some k) = map_get (styleGroups e) (Some k)).
    { subst groups1. destruct (negb (map_has (styleGroups e) key));
        [apply Hother|reflexivity]. }
    destruct (map_get groups1 key) as [g1|]; [|exact H1].
    destruct (negb (mem c (sg_classes g1))); [now rewrite Hother|exact H1].
  - split; apply Hother.
Qed.

Lemma visits_other_key (l : list node) (k : jsstring) (e e' : Extraction) :
  (forall m, In m l -> getStyleKey m <> Some k) ->
  foldM visit l e = Ok e' ->
  map_get (styleMap e') (Some k) = map_get (styleMap e) (Some k)
  /\ map_get (styleGroups e') (Some k) = map_get (styleGroups e) (Some k).
Proof.
  revert e. induction l as [|n l IH]; intros e Hall H; cbn [foldM] in H.
  - inversion H. subst. split; reflexivity.
  - unfold visit at 1 in H. destruct (getClassName n true) as [c|err]; [|discriminate].
    cbn [bind] in H.
    destruct (IH _ (fun m Hm => Hall m (or_intror Hm)) H) as [H1 H2].
    destruct (register_other_key n c k e (Hall n (or_introl eq_refl))) as [H3 H4].
    split; congruence.
Qed.

(** X26. A node with a rule of its own, whose class name no earlier node
    has and whose style key no other node of the document has, is the one
    class of the group of its key, and its rule is in the style sheet as
    [nodeToCSS] gives it. *)
Theorem lone_key_keeps_its_own_rule
    (root n : node) (before after : list node) (c k : jsstring) :
  walk root = before ++ n :: after ->
  (forall m, In m (walk root) -> exists c', getClassName m true = Ok c') ->
  getClassName n true = Ok c -> c <> [] -> notMetIn c before ->
  hasOwnRule n c = true -> getStyleKey n = Some k ->
  (forall m, In m (before ++ after) -> getStyleKey m <> Some k) ->
  exists e,
    extractStyles root emptyExtraction = Ok e
    /\ map_get (styleGroups e) (Some k)
       = Some {| sg_classes := [c]; sg_style := nodeToCSS n c |}
    /\ In (nodeToCSS n c) (styleBlocks e).
Proof.
  intros Hwalk Hall Hc Hne Hnew Hown Hkey Hlone.
  destruct (visits_return (walk root) emptyExtraction Hall) as (e & He).
  exists e. rewrite extractStyles_walk. split; [exact He|].
  assert (Hgroup : map_get (styleGroups e) (Some k)
                   = Some {| sg_classes := [c]; sg_style := nodeToCSS n c |}).
  { rewrite Hwalk, foldM_app in He.
    destruct (foldM visit before emptyExtraction) as [eA|] eqn:HA; [|discriminate].
    cbn [bind foldM] in He. unfold visit at 1 in He. rewrite Hc in He. cbn [bind] in He.
    pose proof (visits_sound before [] _ _ sound_empty HA) as HsA. cbn [app] in HsA.
    pose proof (unmet_is_new _ _ _ HsA Hnew) as Hfresh.
    assert (HmapA : map_get (styleMap eA) (Some k) = None).
    { exact (proj1 (visits_other_key before k _ _
                      (fun m Hm => Hlone m (in_or_app _ _ _ (or_introl Hm))) HA)). }
    assert (Hafter : map_get (styleGroups e) (Some k)
                     = map_get (styleGroups (register n c eA)) (Some k)).
    { exact (proj2 (visits_other_key after k _ _
                      (fun m Hm => Hlone m (in_or_app _ _ _ (or_intror Hm))) He)). }
    rewrite Hafter, register_fresh by assumption.
    rewrite Hown, Hkey.
    destruct k as [|x k']; [now apply getStyleKey_nonempty in Hkey|].
    match goal with
    | |- context [if ?free then _ else _] =>
        assert (Hfree : free = false)
          by exact (f_equal (fun found : option jsstring =>
                               match found with Some _ => true | None => false end) HmapA);
        rewrite Hfree
    end.
    cbn [styleGroups]. apply map_get_set_same. }
  split; [exact Hgroup|].
  apply (group_block_emitted e (Some k) _ _ Hgroup). reflexivity.
Qed.

End LoneKey.

Lemma lone_key_keeps_its_own_rule_witness :
  exists e,
    @CSSTransformer.extractStyles Reference.runtime Samples.boxesAfterNamesake
      CSSTransformer.emptyExtraction = Ok e
    /\ map_get (CSSTransformer.styleGroups e) (Some "w:300|h:40|bg:rgba(255, 0, 0, 1)")
       = Some {| CSSTransformer.sg_classes := [".beta"];
                 CSSTransformer.sg_style :=
                   @CSSTransformer.nodeToCSS Reference.runtime
                     (Samples.largeBox "1:0" "Beta") ".beta" |}
    /\ In (@CSSTransformer.nodeToCSS Reference.runtime (Samples.largeBox "1:0" "Beta") ".beta")
          (CSSTransformer.styleBlocks e).
Proof.
  apply (@lone_key_keeps_its_own_rule Reference.runtime Samples.boxesAfterNamesake
           (Samples.largeBox "1:0" "Beta") [Samples.boxesAfterNamesake]
           [Samples.sizedBox "1:1" "Alpha"; Samples.sizedBox "1:2" "Beta"]).
  - reflexivity.
  - intros m [<-|[<-|[<-|[<-|[]]]]]; eexists; vm_compute; reflexivity.
  - vm_compute. reflexivity.
  - discriminate.
  - intros m [<-|[]]. vm_compute. discriminate.
  - vm_compute. reflexivity.
  - vm_compute. reflexivity.
  - intros m [<-|[<-|[<-|[]]]]; vm_compute; discriminate.
Defined.
(* ------------------------------------------------------------------ *)
(** *** When the generation returns *)
(* ------------------------------------------------------------------ *)

Section Returns.
Context {rt : Runtime}.
Import InteractiveElementAnalyzer ComponentAnalyzer.

Lemma forallb_flat_map {A B} (f : B -> bool) (g : A -> list B) (l : list A) :
  forallb f (flat_map g l) = forallb (fun x => forallb f (g x)) l.
Proof.
  induction l as [|x l IH]; [reflexivity|].
  cbn [flat_map forallb]. now rewrite forallb_app, IH.
Qed.

(** A test on every node of a document: on the node, then on the parts
    under its children. *)
Lemma forallb_walk (f : node -> bool) (n : node) :
  forallb f (walk n)
  = f n && match children n with
           | Some l => forallb (fun child => forallb f (walk child)) l
           | None => true
           end.
Proof.
  rewrite walk_unfold. cbn [forallb]. f_equal.
  destruct (children n) as [l|]; [|reflexivity]. apply forallb_flat_map.
Qed.

Lemma textual_unfold (n : node) :
  textual n
  = negb (numbered n)
    && match children n with Some l => forallb textual l | None => true end.
Proof. apply forallb_walk. Qed.

Lemma textual_numbered (n : node) : textual n = true -> numbered n = false.
Proof.
  rewrite textual_unfold. intro H. apply andb_true_iff in H.
  now apply negb_true_iff.
Qed.

Lemma textual_child (n child : node) (l : list node) :
  textual n = true -> children n = Some l -> In child l -> textual child = true.
Proof.
  rewrite textual_unfold. intros H Hl Hin. apply andb_true_iff in H.
  destruct H as [_ H]. rewrite Hl in H.
  exact (proj1 (forallb_forall _ _) H child Hin).
Qed.

(** A part of a textual document is textual. *)
Lemma textual_walk (n m : node) : textual n = true -> In m (walk n) -> textual m = true.
Proof.
  unfold textual. intros H Hm.
  apply forallb_forall. intros x Hx.
  apply (proj1 (forallb_forall _ _) H).
  clear H. revert m x Hm Hx.
  induction n as [a|a l IH] using node_induction; intros m x Hm Hx.
  - destruct Hm as [<-|[]]. exact Hx.
  - destruct Hm as [<-|Hm]; [exact Hx|].
    apply in_flat_map in Hm. destruct Hm as (child & Hin & Hm).
    apply (walk_child a l child x Hin).
    exact (proj1 (Forall_forall _ _) IH child Hin m x Hm Hx).
Qed.

Lemma escapeHTML_returns (n : node) :
  numbered n = false -> exists text, NodeUtils.escapeHTML (node_characters (attrs n)) = Ok text.
Proof.
  unfold numbered, NodeUtils.escapeHTML.
  destruct (node_characters (attrs n)) as [[[|c r]|x]|]; intro H;
    try (eexists; reflexivity).
  rewrite H. eexists; reflexivity.
Qed.

Lemma inferSemanticName_returns (n : node) :
  textual n = true -> exists inferred, ClassNames.inferSemanticName n = Ok inferred.
Proof.
  intro H. unfold ClassNames.inferSemanticName.
  destruct (children n) as [[|firstChild rest]|] eqn:Hcs; try (eexists; reflexivity).
  pose proof (textual_numbered _ (textual_child n firstChild _ H Hcs (or_introl eq_refl)))
    as Hfirst.
  unfold numbered in Hfirst.
  destruct (ClassNames.isTEXT firstChild); cbn [andb].
  - destruct (node_characters (attrs firstChild)) as [[chars|x]|]; cbn [NodeUtils.truthy_chars].
    + destruct chars; [|destruct (NameUtils.toKebabCase _)];
        repeat (match goal with |- context [if ?b then _ else _] => destruct b end);
        eexists; reflexivity.
    + rewrite Hfirst.
      repeat (match goal with |- context [if ?b then _ else _] => destruct b end);
        eexists; reflexivity.
    + repeat (match goal with |- context [if ?b then _ else _] => destruct b end);
        eexists; reflexivity.
  - repeat (match goal with |- context [if ?b then _ else _] => destruct b end);
      eexists; reflexivity.
Qed.

Lemma getClassName_returns (n : node) (cssClass : bool) :
  textual n = true -> exists className, ClassNames.getClassName n cssClass = Ok className.
Proof.
  intro H. unfold ClassNames.getClassName.
  destruct (negb (truthy_str (node_name (attrs n)))); [eexists; reflexivity|].
  destruct (_ || _ || _).
  - destruct (inferSemanticName_returns n H) as (inferred & ->). cbn [bind].
    eexists; reflexivity.
  - cbn [bind]. eexists; reflexivity.
Qed.

Lemma mapM_returns {A B} (f : A -> result B) (l : list A) :
  Forall (fun x => exists y, f x = Ok y) l -> exists ys, mapM f l = Ok ys.
Proof.
  induction 1 as [|x l (y & Hy) Hl (ys & IH)]; cbn [mapM]; [eexists; reflexivity|].
  rewrite Hy, IH. eexists; reflexivity.
Qed.

Lemma renderElement_returns (t : JSXTransformer.JSXTransformer) (n : node) (depth : nat)
    (rendered : result jsstring) :
  textual n = true -> (exists childrenText, rendered = Ok childrenText) ->
  exists jsx, JSXTransformer.renderElement t n depth rendered = Ok jsx.
Proof.
  intros H (childrenText & ->). unfold JSXTransformer.renderElement.
  destruct (JSXTransformer.remap _ _ _) as [[tagName props] handlers].
  unfold JSXTransformer.getClassName.
  destruct (getClassName_returns n false H) as (className & ->). cbn [bind].
  destruct (_ && _).
  - destruct (escapeHTML_returns n (textual_numbered _ H)) as (text & ->).
    eexists; reflexivity.
  - destruct (NodeUtils.isSelfClosing tagName);
      [destruct (trim childrenText); eexists; reflexivity|].
    destruct (_ && _ && _); [eexists; reflexivity|].
    destruct (children n) as [[|only [|second rest]]|] eqn:Hcs; try (eexists; reflexivity).
    destruct (_ && _ && _ && _); [|eexists; reflexivity].
    pose proof (textual_numbered _ (textual_child n only _ H Hcs (or_introl eq_refl)))
      as Honly.
    destruct (escapeHTML_returns only Honly) as (text & ->). eexists; reflexivity.
Qed.

Lemma componentTag_returns (n : node) (depth : nat) (componentName : jsstring) :
  textual n = true -> exists jsx, JSXTransformer.componentTag n depth componentName = Ok jsx.
Proof.
  intro H. unfold JSXTransformer.componentTag, JSXTransformer.getComponentProps,
             JSXTransformer.getClassName.
  destruct (getClassName_returns n false H) as (className & ->). eexists; reflexivity.
Qed.

(** The markup of a textual document is derived. *)
Lemma transform_returns (t : JSXTransformer.JSXTransformer) (cur : jsstring) (n : node) :
  textual n = true -> forall depth, exists jsx, JSXTransformer.transform t n depth cur = Ok jsx.
Proof.
  induction n as [a|a l IH] using node_induction; intros H depth;
    rewrite transform_unfold; unfold transformBody.
  - destruct (map_get _ _) as [info|]; [destruct (str_eqb _ _)|];
      try (apply renderElement_returns; [exact H|eexists; reflexivity]).
    now apply componentTag_returns.
  - assert (Hchildren : Forall (fun child => forall d, exists jsx,
                                  JSXTransformer.transform t child d cur = Ok jsx) l).
    { apply Forall_forall. intros child Hin.
      apply (proj1 (Forall_forall _ _) IH child Hin).
      exact (textual_child _ child l H eq_refl Hin). }
    cbv zeta.
    match goal with
    | |- context [JSXTransformer.renderElement t _ depth ?r] =>
        assert (Hrendered : exists childrenText, r = Ok childrenText);
        [|revert Hrendered; generalize r; intros rendered Hrendered]
    end.
    { destruct l as [|c l']; [eexists; reflexivity|].
      destruct (mapM_returns (fun child => JSXTransformer.transform t child (S depth) cur)
                  (c :: l')) as (parts & ->); [|eexists; reflexivity].
      apply Forall_forall. intros child Hin.
      exact (proj1 (Forall_forall _ _) Hchildren child Hin (S depth)). }
    assert (Hskip : forall only, l = [only] ->
              exists jsx, JSXTransformer.transform t only depth cur = Ok jsx).
    { intros only ->. inversion Hchildren as [|? ? Honly _]. apply Honly. }
    destruct l as [|only [|second rest]];
      [|destruct (JSXTransformer.shouldSkipNode t _); [now apply Hskip|]|];
      (destruct (map_get _ _) as [info|]; [destruct (str_eqb _ _)|];
       try (apply renderElement_returns; [exact H|exact Hrendered]);
       now apply componentTag_returns).
Qed.

Lemma css_generate_returns (n : node) (componentName : jsstring) :
  textual n = true -> exists css, CSSTransformer.generate n componentName = Ok css.
Proof.
  intro H. unfold CSSTransformer.generate. rewrite extractStyles_walk.
  destruct (visits_return (walk n) CSSTransformer.emptyExtraction) as (e & ->);
    [|eexists; reflexivity].
  intros m Hm. exact (getClassName_returns m true (textual_walk n m H Hm)).
Qed.

Lemma ownProperties_characters (a : Attrs) (p : option node) :
  node_characters (NodeUtils.ownProperties a p) = node_characters a.
Proof.
  destruct a. unfold NodeUtils.ownProperties. destruct p as [p|]; cbn.
  - destruct node_absoluteBoundingBox0, (node_absoluteBoundingBox (attrs p));
      destruct node_fills0, node_strokes0; reflexivity.
  - destruct node_fills0, node_strokes0; reflexivity.
Qed.

(** The normalization keeps what holds of the [characters] of every node. *)
Lemma preprocessObject_characters (f : option Characters -> bool) (n : node) :
  forallb (fun m => f (node_characters (attrs m))) (walk n) = true ->
  forall p,
    forallb (fun m => f (node_characters (attrs m))) (walk (NodeUtils.preprocessObject n p))
    = true.
Proof.
  induction n as [a|a l IH] using node_induction; intros H p.
  - rewrite forallb_walk in *. cbn [NodeUtils.preprocessObject children attrs] in *.
    now rewrite ownProperties_characters.
  - rewrite forallb_walk in *.
    rewrite preprocessObject_children, preprocessObject_attrs.
    cbn [attrs children option_map] in *.
    rewrite ownProperties_characters.
    apply andb_true_iff in H. destruct H as [H0 Hl]. rewrite H0. cbn [andb].
    set (parent := Some (Node (NodeUtils.ownProperties a p) (Some l))). clearbody parent.
    induction IH as [|c l Hc _ IHl]; [reflexivity|].
    cbn [forallb map] in *. apply andb_true_iff in Hl. destruct Hl as [Hc0 Hl].
    now rewrite (Hc Hc0 parent), (IHl Hl).
Qed.

(** The normalization leaves a textual document textual. *)
Lemma preprocessObject_textual (n : node) :
  textual n = true -> forall p, textual (NodeUtils.preprocessObject n p) = true.
Proof.
  exact (preprocessObject_characters
           (fun chars => negb match chars with
                              | Some (CharsNumber x) => truthy_num (Some x)
                              | _ => false
                              end) n).
Qed.

Lemma map_set_Forall {V} (P : V -> Prop) (m : jsmap V) (k : key) (v : V) :
  Forall (fun entry => P (snd entry)) m -> P v ->
  Forall (fun entry => P (snd entry)) (map_set m k v).
Proof.
  intros Hm Hv. induction Hm as [|[k' v'] m Hx Hm IH]; cbn [map_set].
  - now repeat constructor.
  - destruct (key_eqb k' k); constructor; assumption.
Qed.

(** What holds of every node of a document under every name fit for a
    component holds of the entries [identify] adds. *)
Lemma identify_Forall (P : ComponentInfo -> Prop) (n : node) :
  (forall m name parentId,
     In m (walk n) -> wellNamed name ->
     P {| ci_name := name; ci_node := m; ci_parentId := parentId |}) ->
  forall depth parentId st,
    Forall (fun entry => P (snd entry)) (fst st) ->
    Forall (fun entry => P (snd entry)) (fst (identify n depth parentId st)).
Proof.
  induction n as [a|a l IH] using node_induction;
    intros H depth parentId [components counter] Hst; cbn [identify fst] in *.
  - destruct (shouldComponentize _ depth); [|exact Hst].
    pose proof (componentNameFor_wellNamed a counter) as Hname.
    destruct (componentNameFor a counter) as [componentName counter'].
    destruct (str_eqb componentName []); cbn [andb negb fst]; [exact Hst|].
    apply (map_set_Forall P); [exact Hst|]. apply H; [apply walk_self|exact Hname].
  - assert (Hfold : forall counter0,
              Forall (fun entry => P (snd entry))
                     (fst (fold_left
                             (fun acc child =>
                                identify child (S depth) (ParentKey (node_id a)) acc)
                             l (components, counter0)))).
    { pose proof (fun child Hin m name parent (Hm : In m (walk child)) =>
                    H m name parent (walk_child a l child m Hin Hm)) as Hl.
      clear H. revert Hst. generalize components as components0.
      induction IH as [|c l Hc _ IHl]; intros components0 Hst counter0;
        cbn [fold_left]; [exact Hst|].
      pose proof (Hc (Hl c (or_introl eq_refl)) (S depth) (ParentKey (node_id a))
                    (components0, counter0) Hst) as Hstep.
      destruct (identify c (S depth) (ParentKey (node_id a)) (components0, counter0))
        as [components1 counter1].
      apply IHl; [intros child Hin; apply Hl; now right|exact Hstep]. }
    destruct (shouldComponentize _ depth); [|apply Hfold].
    pose proof (componentNameFor_wellNamed a counter) as Hname.
    destruct (componentNameFor a counter) as [componentName counter'].
    destruct (str_eqb componentName []); cbn [andb negb fst]; [apply Hfold|].
    apply (map_set_Forall P); [exact Hst|]. apply H; [apply walk_self|exact Hname].
Qed.

End Returns.

Section GenerationReturns.
Context {rt : Runtime}.
Import ComponentAnalyzer JSXTransformer CodeGenerator.

Lemma identifyComponents_Forall (P : ComponentInfo -> Prop) (g : CodeGenerator) (n : node)
    (parentId : ParentId) :
  (forall m name parent,
     In m (walk n) -> wellNamed name ->
     P {| ci_name := name; ci_node := m; ci_parentId := parent |}) ->
  Forall (fun entry => P (snd entry)) (components (context g)) ->
  Forall (fun entry => P (snd entry))
         (components (context (identifyComponents g n parentId))).
Proof.
  intros H Hg. unfold identifyComponents.
  pose proof (identify_Forall P n H 0 parentId
                (components (context g), componentCounter (context g)) Hg) as Hid.
  destruct (identify n 0 parentId _) as [components' counter']. exact Hid.
Qed.

(** The components map of a nested generation holds nodes of the
    sub-component, under names fit for a component. *)
Lemma enterSubComponent_Forall (P : ComponentInfo -> Prop) (g : CodeGenerator)
    (componentInfo : ComponentInfo) :
  (forall m name parent,
     In m (walk (ci_node componentInfo)) -> wellNamed name ->
     P {| ci_name := name; ci_node := m; ci_parentId := parent |}) ->
  Forall (fun entry => P (snd entry))
         (components (context (enterSubComponent g componentInfo))).
Proof.
  intro H. unfold enterSubComponent.
  cbn [withTransformer setUseObjectState withContext context components].
  destruct (componentize _).
  - apply identifyComponents_Forall; [exact H|constructor].
  - constructor.
Qed.

Lemma enterRoot_Forall (P : ComponentInfo -> Prop) (g : CodeGenerator)
    (processedData : node) :
  (forall m name parent,
     In m (walk processedData) -> wellNamed name ->
     P {| ci_name := name; ci_node := m; ci_parentId := parent |}) ->
  Forall (fun entry => P (snd entry)) (components (context (enterRoot g processedData))).
Proof.
  intro H. unfold enterRoot. cbn [withTransformer context].
  destruct (componentize _).
  - apply identifyComponents_Forall; [exact H|constructor].
  - constructor.
Qed.

Lemma enterSubComponent_textual (g : CodeGenerator) (componentInfo : ComponentInfo) :
  textual (ci_node componentInfo) = true ->
  textualEntries (components (context (enterSubComponent g componentInfo))).
Proof.
  intro H. apply (enterSubComponent_Forall (fun info => textual (ci_node info) = true)).
  intros m name parent Hm _. exact (textual_walk _ m H Hm).
Qed.

Lemma enterRoot_textual (g : CodeGenerator) (processedData : node) :
  textual processedData = true ->
  textualEntries (components (context (enterRoot g processedData))).
Proof.
  intro H. apply (enterRoot_Forall (fun info => textual (ci_node info) = true)).
  intros m name parent Hm _. exact (textual_walk _ m H Hm).
Qed.

Lemma enteredMap_nested (g : CodeGenerator) (componentInfo : ComponentInfo)
    (subComponentName : jsstring) :
  enteredMap (generateSubComponent g componentInfo subComponentName)
  = components (context (enterSubComponent g componentInfo)).
Proof.
  unfold generateSubComponent. cbv zeta.
  destruct (jsxTransformer _) as [t|]; [|reflexivity].
  destruct (transform t _ 1 subComponentName); [|reflexivity].
  destruct (CSSTransformer.generate _ subComponentName); reflexivity.
Qed.

Lemma generateSubComponent_returns (g : CodeGenerator) (componentInfo : ComponentInfo)
    (subComponentName : jsstring) :
  textual (ci_node componentInfo) = true ->
  exists files, returned (generateSubComponent g componentInfo subComponentName) = Ok files.
Proof.
  intro H. unfold generateSubComponent. cbv zeta.
  assert (Hjt : exists t, jsxTransformer (enterSubComponent g componentInfo) = Some t)
    by (eexists; reflexivity).
  destruct Hjt as (t & ->).
  destruct (transform_returns t subComponentName _ H 1) as (subJsx & ->).
  destruct (css_generate_returns _ subComponentName H) as (subCss & ->).
  eexists; reflexivity.
Qed.

Lemma emitDetached_returns (entries : jsmap ComponentInfo) (rootNodeId : key)
    (usedComponentIds : list key) :
  textualEntries entries ->
  forall generatedComponents g files,
    exists out,
      fst (emitDetached entries rootNodeId usedComponentIds generatedComponents g files)
      = Ok out.
Proof.
  unfold textualEntries. induction 1 as [|entry rest Hentry _ IH]; intros generatedComponents g files;
    cbn [emitDetached]; [eexists; reflexivity|].
  destruct (skipped _ _ _ entry); [apply IH|].
  destruct (generateSubComponent_returns g (snd entry) (ci_name (snd entry)) Hentry)
    as (subResult & ->).
  apply IH.
Qed.

Lemma emitLive_returns (entries : jsmap ComponentInfo) (rootNodeId : key)
    (usedComponentIds : list key) :
  textualEntries entries ->
  forall generatedComponents g files,
    exists out,
      fst (emitLive entries rootNodeId usedComponentIds generatedComponents g files)
      = Ok out.
Proof.
  unfold textualEntries. induction 1 as [|entry rest Hentry _ IH]; intros generatedComponents g files;
    cbn [emitLive]; [eexists; reflexivity|].
  destruct (skipped _ _ _ entry); [apply IH|].
  destruct (generateSubComponent_returns g (snd entry) (ci_name (snd entry)) Hentry)
    as (subResult & ->).
  apply emitDetached_returns. rewrite enteredMap_nested.
  now apply enterSubComponent_textual.
Qed.

Lemma generateReact_returns (g : CodeGenerator) (figmaData : node) :
  textual figmaData = true -> exists files, output (generateReact g figmaData) = Ok files.
Proof.
  intro H. unfold generateReact. cbv zeta.
  pose proof (preprocessObject_textual figmaData H None) as Hpd.
  set (processedData := NodeUtils.preprocessObject figmaData None) in *.
  clearbody processedData.
  assert (Hjt : exists t, jsxTransformer (enterRoot g processedData) = Some t)
    by (eexists; reflexivity).
  destruct Hjt as (t & ->).
  destruct (transform_returns t (rootName g processedData) _ Hpd 1) as (jsx & ->).
  destruct (css_generate_returns _ (rootName g processedData) Hpd) as (css & ->).
  destruct (componentize _ && _); [|eexists; reflexivity].
  match goal with
  | |- context [emitLive ?entries ?root ?used ?generated ?g0 ?files] =>
      destruct (emitLive_returns entries root used (enterRoot_textual g _ Hpd)
                  generated g0 files) as (out & Hout);
      destruct (emitLive entries root used generated g0 files) as [emitted g5]
  end.
  cbn [fst] in Hout. rewrite Hout. eexists; reflexivity.
Qed.

(** X27. On a document in which no node has a number as its [characters],
    [generate] returns files, whatever the generator: nothing it calls
    throws. *)
Theorem generate_returns_on_textual_documents (g : CodeGenerator) (figmaData : node) :
  textual figmaData = true -> exists files, output (generate g figmaData) = Ok files.
Proof.
  intro H. unfold generate.
  destruct (str_eqb _ "react"); [now apply generateReact_returns|].
  destruct (str_eqb _ "html"); [eexists; reflexivity|].
  destruct (str_eqb _ "vue"); [eexists; reflexivity|].
  now apply generateReact_returns.
Qed.

End GenerationReturns.

Lemma generate_returns_on_textual_documents_witness :
  textual Samples.pageWithCardFrame = true
  /\ exists files,
       CodeGenerator.output
         (@CodeGenerator.generate Reference.runtime
            (CodeGenerator.constructor None true true None) Samples.pageWithCardFrame)
       = Ok files.
Proof.
  split; [reflexivity|].
  apply (@generate_returns_on_textual_documents Reference.runtime). reflexivity.
Defined.

(* ------------------------------------------------------------------ *)
(** *** The layout of a componentized generation *)
(* ------------------------------------------------------------------ *)

Section Layout.
Context {rt : Runtime}.
Import ComponentAnalyzer JSXTransformer CodeGenerator.

Lemma app_unit_inv (x : N) (a b r r' : jsstring) :
  ~ In x a -> ~ In x b -> a ++ x :: r = b ++ x :: r' -> a = b.
Proof.
  revert b. induction a as [|y a IH]; intros [|z b] Ha Hb H; cbn [app] in H.
  - reflexivity.
  - inversion H. subst z. destruct Hb. now left.
  - inversion H. subst y. destruct Ha. now left.
  - inversion H. subst z. f_equal.
    apply IH; [intro Hin; apply Ha; now right|intro Hin; apply Hb; now right|assumption].
Qed.

(** A name fit for a component holds no slash. *)
Lemma wellNamed_no_slash (name : jsstring) : wellNamed name -> ~ In 47 name.
Proof.
  intros (_ & (body & Hbody & Hshape) & _) Hin.
  assert (Hin' : In 47 body).
  { destruct Hshape as [->| ->]; [exact Hin|].
    apply in_app_or in Hin. destruct Hin as [Hin|[E|[]]]; [exact Hin|discriminate E]. }
  pose proof (proj1 (forallb_forall _ _) Hbody 47 Hin') as H. discriminate H.
Qed.

(** The path of a file tells the unit. *)
Lemma unitPath_name (name name' ext ext' : jsstring) :
  wellNamed name -> wellNamed name' -> unitPath name ext = unitPath name' ext' ->
  name = name'.
Proof.
  intros Hn Hn' H. unfold unitPath in H.
  apply app_inv_head in H.
  exact (app_unit_inv 47 name name' _ _ (wellNamed_no_slash _ Hn)
           (wellNamed_no_slash _ Hn') H).
Qed.

Lemma unitPaths_In (typed : bool) (name path : jsstring) :
  In path (unitPaths typed name) -> exists ext, path = unitPath name ext.
Proof.
  unfold unitPaths. intros [<-|[<-|H]]; try (eexists; reflexivity).
  destruct typed; [destruct H as [<-|[]]; eexists; reflexivity|destruct H].
Qed.

Lemma unitPath_neq (name a b : jsstring) :
  str_eqb a b = false -> unitPath name a <> unitPath name b.
Proof. intro H. apply str_eqb_neq. now apply unitPath_distinct. Qed.

Lemma unitPaths_NoDup (typed : bool) (name : jsstring) : NoDup (unitPaths typed name).
Proof.
  unfold unitPaths. destruct typed; repeat constructor; cbn [In].
  - intros [E|[E|[]]];
      [exact (unitPath_neq name "css" "tsx" eq_refl E)
      |exact (unitPath_neq name "types.ts" "tsx" eq_refl E)].
  - intros [E|[]]. exact (unitPath_neq name "types.ts" "css" eq_refl E).
  - intros [].
  - intros [E|[]]. exact (unitPath_neq name "css" "jsx" eq_refl E).
  - intros [].
Qed.

(** A file of a unit is not a file of the units of other names. *)
Lemma unitPaths_apart (typed : bool) (names : list jsstring) (name path : jsstring) :
  Forall wellNamed names -> wellNamed name -> ~ In name names ->
  In path (unitPaths typed name) -> ~ In path (flat_map (unitPaths typed) names).
Proof.
  intros Hnames Hname Hnew Hpath Hin.
  apply in_flat_map in Hin. destruct Hin as (name' & Hin' & Hpath').
  apply unitPaths_In in Hpath. destruct Hpath as (ext & ->).
  apply unitPaths_In in Hpath'. destruct Hpath' as (ext' & E).
  apply Hnew.
  rewrite (unitPath_name name name' ext ext' Hname
             (proj1 (Forall_forall _ _) Hnames name' Hin') E).
  exact Hin'.
Qed.

Lemma file_set_fresh (files : Files) (path content : jsstring) :
  ~ In path (map fst files) -> file_set files path content = files ++ [(path, content)].
Proof.
  induction files as [|[p c] files IH]; intro H; cbn [file_set app]; [reflexivity|].
  cbn [map fst In] in H.
  destruct (str_eqb p path) eqn:E.
  - apply str_eqb_eq in E. destruct H. now left.
  - rewrite IH; [reflexivity|]. intro Hin. apply H. now right.
Qed.

(** [Object.assign] with files of new paths adds them at the end. *)
Lemma file_assign_fresh (sub : Files) :
  forall files,
    NoDup (map fst sub) ->
    (forall path, In path (map fst sub) -> ~ In path (map fst files)) ->
    file_assign files sub = files ++ sub.
Proof.
  unfold file_assign.
  induction sub as [|[p c] sub IH]; intros files Hnd Hnew; cbn [fold_left fst snd].
  - now rewrite app_nil_r.
  - cbn [map fst] in Hnd. inversion Hnd as [|? ? Hp Hnd']. subst.
    rewrite file_set_fresh by (apply Hnew; now left).
    rewrite IH; [now rewrite <- app_assoc|exact Hnd'|].
    intros path Hin Hin'. rewrite map_app in Hin'. apply in_app_or in Hin'.
    destruct Hin' as [Hin'|[<-|[]]].
    + apply (Hnew path); [now right|exact Hin'].
    + exact (Hp Hin).
Qed.

Lemma subComponentFiles_paths (g : CodeGenerator) (componentInfo : ComponentInfo)
    (subComponentName subJsx subCss : jsstring) :
  map fst (subComponentFiles g componentInfo subComponentName subJsx subCss)
  = unitPaths (useTypeScript g) subComponentName.
Proof.
  unfold subComponentFiles, unitPaths, extension.
  destruct (useTypeScript g); cbn [file_set].
  - rewrite (unitPath_distinct subComponentName "tsx" "css" eq_refl). cbn [file_set].
    rewrite (unitPath_distinct subComponentName "tsx" "types.ts" eq_refl).
    rewrite (unitPath_distinct subComponentName "css" "types.ts" eq_refl).
    reflexivity.
  - rewrite (unitPath_distinct subComponentName "jsx" "css" eq_refl). reflexivity.
Qed.

Lemma rootFiles_paths (g : CodeGenerator) (processedData : node)
    (componentName jsx css : jsstring) :
  componentize g = true ->
  map fst (rootFiles g processedData componentName jsx css)
  = unitPaths (useTypeScript g) componentName.
Proof.
  intro Hon. unfold rootFiles, unitPaths, extension. rewrite Hon.
  destruct (useTypeScript g).
  - destruct (generateTypesFile_nonempty g componentName) as (c & r & ->).
    cbn [file_set].
    rewrite (unitPath_distinct componentName "tsx" "css" eq_refl). cbn [file_set].
    rewrite (unitPath_distinct componentName "tsx" "types.ts" eq_refl).
    rewrite (unitPath_distinct componentName "css" "types.ts" eq_refl).
    reflexivity.
  - cbn [file_set].
    rewrite (unitPath_distinct componentName "jsx" "css" eq_refl). reflexivity.
Qed.

Lemma useTypeScript_kept (g g' : CodeGenerator) :
  sameConfig g g' -> useTypeScript g' = useTypeScript g.
Proof. intros (_ & _ & _ & H & _). now symmetry. Qed.

Lemma generateSubComponent_paths (g : CodeGenerator) (componentInfo : ComponentInfo)
    (subComponentName : jsstring) (files : Files) :
  returned (generateSubComponent g componentInfo subComponentName) = Ok files ->
  map fst files = unitPaths (useTypeScript g) subComponentName.
Proof.
  unfold generateSubComponent. cbv zeta.
  destruct (jsxTransformer _) as [t|]; [|discriminate].
  destruct (transform t _ 1 subComponentName) as [subJsx|]; [|discriminate].
  destruct (CSSTransformer.generate _ subComponentName) as [subCss|]; [|discriminate].
  cbn [returned]. intro H. assert (E : files = subComponentFiles
                                              (enterSubComponent g componentInfo)
                                              componentInfo subComponentName subJsx subCss)
    by congruence.
  rewrite E, subComponentFiles_paths.
  now rewrite (useTypeScript_kept g _ (sameConfig_enterSubComponent g componentInfo)).
Qed.

(** The files of one more unit, of a new name, come after the others. *)
Lemma laidOut_step (typed : bool) (names : list jsstring) (files sub : Files)
    (name : jsstring) :
  laidOut typed names files -> wellNamed name -> ~ In name names ->
  map fst sub = unitPaths typed name ->
  file_assign files sub = files ++ sub
  /\ laidOut typed (names ++ [name]) (file_assign files sub).
Proof.
  intros (Hpaths & Hnd & Hnames) Hname Hnew Hsub.
  assert (Happend : file_assign files sub = files ++ sub).
  { apply file_assign_fresh.
    - rewrite Hsub. apply unitPaths_NoDup.
    - intros path Hin. rewrite Hpaths. rewrite Hsub in Hin.
      now apply (unitPaths_apart typed names name). }
  split; [exact Happend|]. rewrite Happend. repeat split.
  - rewrite map_app, Hpaths, Hsub, flat_map_app. cbn [flat_map]. now rewrite app_nil_r.
  - apply NoDup_app; [exact Hnd|repeat constructor; intros []|].
    intros x Hx [<-|[]]. exact (Hnew Hx).
  - apply Forall_app. split; [exact Hnames|constructor; [exact Hname|constructor]].
Qed.

(** The emission loop adds the files of units of new names, one unit after
    the other. *)
Lemma emitDetached_laidOut (entries : jsmap ComponentInfo) (rootNodeId : key)
    (usedComponentIds : list key) :
  Forall (fun entry => wellNamed (ci_name (snd entry))) entries ->
  forall generatedComponents g files out,
    laidOut (useTypeScript g) generatedComponents files ->
    fst (emitDetached entries rootNodeId usedComponentIds generatedComponents g files)
    = Ok out ->
    exists units more,
      out = files ++ more
      /\ laidOut (useTypeScript g) (generatedComponents ++ units) out.
Proof.
  induction 1 as [|entry rest Hentry _ IH]; intros generatedComponents g files out Hlaid;
    cbn [emitDetached].
  - cbn [fst]. intro H. assert (E : out = files) by congruence. subst out.
    exists [], []. now rewrite !app_nil_r.
  - destruct (skipped _ _ _ entry) eqn:Hskip; [now apply IH|].
    unfold skipped in Hskip. apply orb_false_iff in Hskip. destruct Hskip as [_ Hmem].
    assert (Hnew : ~ In (ci_name (snd entry)) generatedComponents)
      by (intro Hin; apply mem_In in Hin; congruence).
    destruct (returned (generateSubComponent g (snd entry) (ci_name (snd entry))))
      as [subResult|e] eqn:Hsub; [|discriminate].
    destruct (laidOut_step _ _ files subResult _ Hlaid Hentry Hnew
                (generateSubComponent_paths g _ _ _ Hsub)) as [Happend Hlaid'].
    intro Hout.
    rewrite <- (useTypeScript_kept g _ (sameConfig_generateSubComponent g (snd entry)
                                          (ci_name (snd entry)))) in Hlaid'.
    destruct (IH _ _ _ _ Hlaid' Hout) as (units & more & Hmore & Hfinal).
    exists (ci_name (snd entry) :: units), (subResult ++ more). split.
    + now rewrite Hmore, Happend, <- app_assoc.
    + rewrite (useTypeScript_kept g _ (sameConfig_generateSubComponent g (snd entry)
                                         (ci_name (snd entry)))) in Hfinal.
      now rewrite <- app_assoc in Hfinal.
Qed.

(** The loop of [generateReact]: after the first sub-component it goes on
    over the map the nested generation filled. *)
Lemma emitLive_laidOut (entries : jsmap ComponentInfo) (rootNodeId : key)
    (usedComponentIds : list key) :
  Forall (fun entry => wellNamed (ci_name (snd entry))) entries ->
  forall generatedComponents g files out,
    laidOut (useTypeScript g) generatedComponents files ->
    fst (emitLive entries rootNodeId usedComponentIds generatedComponents g files)
    = Ok out ->
    exists units more,
      out = files ++ more
      /\ laidOut (useTypeScript g) (generatedComponents ++ units) out.
Proof.
  induction 1 as [|entry rest Hentry _ IH]; intros generatedComponents g files out Hlaid;
    cbn [emitLive].
  - cbn [fst]. intro H. assert (E : out = files) by congruence. subst out.
    exists [], []. now rewrite !app_nil_r.
  - destruct (skipped _ _ _ entry) eqn:Hskip; [now apply IH|].
    unfold skipped in Hskip. apply orb_false_iff in Hskip. destruct Hskip as [_ Hmem].
    assert (Hnew : ~ In (ci_name (snd entry)) generatedComponents)
      by (intro Hin; apply mem_In in Hin; congruence).
    destruct (returned (generateSubComponent g (snd entry) (ci_name (snd entry))))
      as [subResult|e] eqn:Hsub; [|discriminate].
    destruct (laidOut_step _ _ files subResult _ Hlaid Hentry Hnew
                (generateSubComponent_paths g _ _ _ Hsub)) as [Happend Hlaid'].
    intro Hout.
    pose proof (useTypeScript_kept g _ (sameConfig_generateSubComponent g (snd entry)
                                          (ci_name (snd entry)))) as Hts.
    rewrite <- Hts in Hlaid'.
    assert (Hnested : Forall (fun nested => wellNamed (ci_name (snd nested)))
                        (enteredMap (generateSubComponent g (snd entry)
                                       (ci_name (snd entry))))).
    { rewrite enteredMap_nested.
      apply (enterSubComponent_Forall (fun info => wellNamed (ci_name info))).
      intros m name parent _ Hname. exact Hname. }
    destruct (emitDetached_laidOut _ rootNodeId usedComponentIds Hnested _ _ _ _ Hlaid' Hout)
      as (units & more & Hmore & Hfinal).
    exists (ci_name (snd entry) :: units), (subResult ++ more). split.
    + now rewrite Hmore, Happend, <- app_assoc.
    + rewrite Hts in Hfinal. now rewrite <- app_assoc in Hfinal.
Qed.

Lemma laidOut_NoDup (typed : bool) (names : list jsstring) (files : Files) :
  laidOut typed names files -> NoDup (map fst files).
Proof.
  intros (-> & Hnd & Hnames). clear files.
  induction names as [|name names IH]; cbn [flat_map]; [constructor|].
  inversion Hnd as [|? ? Hnew Hnd']. inversion Hnames as [|? ? Hname Hnames']. subst.
  apply NoDup_app; [apply unitPaths_NoDup|now apply IH|].
  intros path Hin. now apply (unitPaths_apart typed names name).
Qed.

Lemma rootName_wellNamed (g : CodeGenerator) (processedData : node) :
  wellNamed (rootName g processedData).
Proof.
  unfold rootName, wellNamed.
  destruct (truthy_str (componentName g));
    (split; [apply toPascalCase_nonempty|]);
    match goal with
    | |- context [NameUtils.toPascalCase ?s] =>
        destruct (toPascalCase_word s) as (Hw & Hl & Hd)
    end; repeat split; assumption.
Qed.

(** X28. With [componentize] switched on, what [generateReact] returns is
    the files of the root unit as they were written, followed by the files
    of the sub-components, unit after unit: every file is
    components/Name/Name.ext with the markup first, the style sheet second
    and, in typed mode, the type declarations third; the names are fit for
    a component and no two units have the same name, so that no file is
    written twice. *)
Theorem componentized_generation_writes_unit_after_unit
    (g : CodeGenerator) (doc : node) (files : Files) :
  let processedData := NodeUtils.preprocessObject doc None in
  let name := rootName g processedData in
  let g4 := enterRoot g processedData in
  componentize g = true ->
  output (generateReact g doc) = Ok files ->
  exists jsx css units more,
    transform (newTransformer g4) processedData 1 name = Ok jsx
    /\ CSSTransformer.generate processedData name = Ok css
    /\ files = rootFiles g4 processedData name jsx css ++ more
    /\ laidOut (useTypeScript g) (name :: units) files
    /\ NoDup (map fst files).
Proof.
  intros processedData name g4 Hon.
  pose proof (sameConfig_enterRoot g processedData) as Hcfg. fold g4 in Hcfg.
  assert (Hon4 : componentize g4 = true).
  { destruct Hcfg as (_ & _ & _ & _ & Hz & _). now rewrite <- Hz. }
  pose proof (useTypeScript_kept g g4 Hcfg) as Hts.
  assert (Hentries : Forall (fun entry => wellNamed (ci_name (snd entry)))
                       (components (context g4))).
  { apply (enterRoot_Forall (fun info => wellNamed (ci_name info))).
    intros m name0 parent _ Hname. exact Hname. }
  assert (Hjt : jsxTransformer g4 = Some (newTransformer g4)) by reflexivity.
  unfold generateReact.
  change (NodeUtils.preprocessObject doc None) with processedData.
  change (rootName g processedData) with name.
  change (enterRoot g processedData) with g4.
  rewrite Hjt.
  pose proof (rootName_wellNamed g processedData) as Hname. fold name in Hname.
  clearbody g4 name processedData.
  destruct (transform (newTransformer g4) processedData 1 name) as [jsx|e];
    [|discriminate].
  destruct (CSSTransformer.generate processedData name) as [css|e]; [|discriminate].
  assert (Hroot : laidOut (useTypeScript g4) [name]
                    (rootFiles g4 processedData name jsx css)).
  { repeat split.
    - rewrite (rootFiles_paths g4 processedData name jsx css Hon4). cbn [flat_map].
      now rewrite app_nil_r.
    - repeat constructor. intros [].
    - constructor; [exact Hname|constructor]. }
  rewrite Hon4. cbn [andb].
  destruct (negb (length (components (context g4)) =? 0)%nat).
  - destruct (emitLive (components (context g4)) (node_id (attrs processedData))
                (collectUsedComponents g4 processedData []) [name] g4
                (rootFiles g4 processedData name jsx css)) as [out g5] eqn:Hemit.
    cbn [output]. intro Hout. subst out.
    destruct (emitLive_laidOut _ (node_id (attrs processedData))
                (collectUsedComponents g4 processedData []) Hentries [name] g4
                (rootFiles g4 processedData name jsx css) files Hroot)
      as (units & more & Hmore & Hlaid); [now rewrite Hemit|].
    rewrite Hts in Hlaid.
    exists jsx, css, units, more. repeat split; try assumption; try reflexivity;
      try apply Hlaid.
    exact (laidOut_NoDup _ _ _ Hlaid).
  - cbn [output]. intro Hout.
    assert (E : files = rootFiles g4 processedData name jsx css) by congruence.
    subst files. rewrite Hts in Hroot.
    exists jsx, css, [], []. repeat split; try reflexivity; try apply Hroot.
    + now rewrite app_nil_r.
    + exact (laidOut_NoDup _ _ _ Hroot).
Qed.

End Layout.

Lemma componentized_generation_writes_unit_after_unit_witness :
  let g := CodeGenerator.constructor None true true None in
  CodeGenerator.componentize g = true
  /\ exists files,
       CodeGenerator.output
         (@CodeGenerator.generateReact Reference.runtime g Samples.pageWithCardFrame)
       = Ok files
       /\ NoDup (map fst files).
Proof.
  intro g. split; [reflexivity|].
  destruct (CodeGenerator.output
              (@CodeGenerator.generateReact Reference.runtime g Samples.pageWithCardFrame))
    as [files|e] eqn:E; [|vm_compute in E; discriminate E].
  exists files. split; [reflexivity|].
  destruct (@componentized_generation_writes_unit_after_unit Reference.runtime g
              Samples.pageWithCardFrame files eq_refl E)
    as (jsx & css & units & more & _ & _ & _ & _ & Hnd).
  exact Hnd.
Defined.

(* ------------------------------------------------------------------ *)
(** *** The indentation of the markup *)
(* ------------------------------------------------------------------ *)

Section Indentation.
Context {rt : Runtime}.
Import InteractiveElementAnalyzer ComponentAnalyzer JSXTransformer.

Lemma oneLine_app (a b : jsstring) : oneLine (a ++ b) = oneLine a && oneLine b.
Proof. unfold oneLine, hasUnit. rewrite existsb_app. apply negb_orb. Qed.

Lemma oneLine_units (s : jsstring) : (forall c, In c s -> c <> 10) -> oneLine s = true.
Proof.
  intro H. unfold oneLine, hasUnit. apply negb_true_iff.
  destruct (existsb (N.eqb 10) s) eqn:E; [|reflexivity].
  apply existsb_exists in E. destruct E as (c & Hc & E). apply N.eqb_eq in E.
  subst c. now destruct (H 10 Hc).
Qed.

Lemma oneLine_In (s : jsstring) : oneLine s = true -> ~ In 10 s.
Proof. unfold oneLine. intro H. apply hasUnit_In. now apply negb_true_iff. Qed.

Lemma oneLine_join (sep : jsstring) (l : list jsstring) :
  oneLine sep = true -> forallb oneLine l = true -> oneLine (join sep l) = true.
Proof.
  intros Hsep. induction l as [|x l IH]; [reflexivity|]. cbn [forallb]. intro H.
  apply andb_true_iff in H. destruct H as [Hx Hl].
  destruct l as [|y l]; [exact Hx|].
  rewrite join_cons by discriminate. rewrite !oneLine_app, Hx, Hsep. now apply IH.
Qed.

Lemma oneLine_repeat (depth : nat) : oneLine (repeat_str "  " depth) = true.
Proof.
  induction depth as [|d IH]; [reflexivity|]. cbn [repeat_str]. now rewrite oneLine_app, IH.
Qed.

Lemma oneLine_trim (s : jsstring) : oneLine s = true -> oneLine (trim s) = true.
Proof.
  intro H. apply oneLine_units. intros c Hc ->. apply trim_In in Hc.
  exact (oneLine_In s H Hc).
Qed.

Lemma oneLine_word (s : jsstring) : wordThenHyphen s -> oneLine s = true.
Proof.
  intros (body & Hbody & Hs). apply oneLine_units. intros c Hc ->.
  assert (Hin : In 10 body).
  { destruct Hs as [->| ->]; [exact Hc|].
    apply in_app_or in Hc. destruct Hc as [Hc|[E|[]]]; [exact Hc|discriminate E]. }
  pose proof (proj1 (forallb_forall _ _) Hbody 10 Hin) as H. discriminate H.
Qed.

Lemma oneLine_escaped (s text : jsstring) :
  oneLine s = true -> NodeUtils.escapeHTML (Some (CharsString s)) = Ok text ->
  oneLine text = true.
Proof.
  intros Hs H. rewrite escapeHTML_one_pass in H.
  assert (E : text = flat_map escapeUnit s) by congruence. subst text.
  apply oneLine_units. intros c Hc ->. apply in_flat_map in Hc.
  destruct Hc as (x & Hx & Hc).
  destruct (escapeUnit_cases x)
    as [[_ E]|[[_ E]|[[_ E]|[[_ E]|[[_ E]|(_ & _ & E)]]]]]; rewrite E in Hc;
    try solve [repeat (destruct Hc as [Hc|Hc]; [discriminate Hc|]); destruct Hc].
  destruct Hc as [E10|[]]. subst x. exact (oneLine_In s Hs Hx).
Qed.

Lemma join_app (sep : jsstring) (l l' : list jsstring) :
  l <> [] -> l' <> [] -> join sep (l ++ l') = join sep l ++ sep ++ join sep l'.
Proof.
  intros Hl Hl'. induction l as [|x l IH]; [now destruct Hl|].
  destruct l as [|y l].
  - cbn [app]. now rewrite join_cons.
  - change ((x :: y :: l) ++ l') with (x :: ((y :: l) ++ l')).
    rewrite join_cons by (cbn [app]; discriminate).
    rewrite IH by discriminate.
    rewrite (join_cons sep x (y :: l)) by discriminate.
    now rewrite <- !app_assoc.
Qed.

Lemma indentedLine_behind (depth : nat) (rest : jsstring) :
  indentedLine depth (repeat_str "  " depth ++ rest) = true.
Proof.
  unfold indentedLine.
  destruct (repeat_str "  " depth ++ rest) eqn:E; [reflexivity|].
  rewrite <- E. apply startsWith_app.
Qed.

Lemma startsWith_shorter (s p q : jsstring) :
  startsWith s (p ++ q) = true -> startsWith s p = true.
Proof.
  revert s. induction p as [|x p IH]; intros s H; [now destruct s|].
  destruct s as [|y s]; [discriminate H|]. cbn [app startsWith] in *.
  apply andb_true_iff in H. destruct H as [Hx H]. rewrite Hx. now apply IH.
Qed.

Lemma repeat_str_end (s : jsstring) (n : nat) :
  repeat_str s (S n) = repeat_str s n ++ s.
Proof.
  induction n as [|n IH]; [cbn [repeat_str]; now rewrite app_nil_r|].
  change (repeat_str s (S (S n))) with (s ++ repeat_str s (S n)).
  rewrite IH at 1. cbn [repeat_str]. now rewrite app_assoc.
Qed.

Lemma indentedLine_deeper (depth : nat) (line : jsstring) :
  indentedLine (S depth) line = true -> indentedLine depth line = true.
Proof.
  unfold indentedLine. destruct line as [|c line]; [reflexivity|].
  rewrite repeat_str_end. apply startsWith_shorter.
Qed.

Lemma inLines_one (depth : nat) (line : jsstring) :
  oneLine line = true -> indentedLine depth line = true -> inLines depth line.
Proof.
  intros H1 H2. exists [line]. split; [discriminate|]. split; [reflexivity|].
  now repeat constructor.
Qed.

Lemma inLines_behind (depth : nat) (rest : jsstring) :
  oneLine rest = true -> inLines depth (repeat_str "  " depth ++ rest).
Proof.
  intro H. apply inLines_one; [|apply indentedLine_behind].
  now rewrite oneLine_app, oneLine_repeat.
Qed.

Lemma inLines_deeper (depth : nat) (s : jsstring) :
  inLines (S depth) s -> inLines depth s.
Proof.
  intros (lines & Hne & Hs & Hl). exists lines. split; [exact Hne|]. split; [exact Hs|].
  apply Forall_forall. intros line Hin.
  destruct (proj1 (Forall_forall _ _) Hl line Hin) as [H1 H2].
  split; [exact H1|now apply indentedLine_deeper].
Qed.

Lemma inLines_glue (depth : nat) (a b : jsstring) :
  inLines depth a -> inLines depth b -> inLines depth (a ++ StyleUtils.nl ++ b).
Proof.
  intros (la & Hna & -> & Hla) (lb & Hnb & -> & Hlb).
  exists (la ++ lb). split; [now destruct la|]. split; [now rewrite join_app|].
  apply Forall_app. now split.
Qed.

Lemma inLines_join (depth : nat) (parts : list jsstring) :
  parts <> [] -> Forall (inLines depth) parts -> inLines depth (join StyleUtils.nl parts).
Proof.
  intros Hne H. induction H as [|x l Hx Hl IH]; [now destruct Hne|].
  destruct l as [|y l]; [exact Hx|].
  rewrite join_cons by discriminate. apply inLines_glue; [exact Hx|].
  apply IH. discriminate.
Qed.

(** The lines of a text that is lines of markup are lines of markup. *)
Lemma inLines_split (depth : nat) (s : jsstring) :
  inLines depth s -> forallb (indentedLine depth) (split 10 s) = true.
Proof.
  intros (lines & Hne & -> & Hl). rewrite split_join.
  - apply forallb_forall. intros line Hin.
    exact (proj2 (proj1 (Forall_forall _ _) Hl line Hin)).
  - exact Hne.
  - apply Forall_forall. intros line Hin. apply oneLine_In.
    exact (proj1 (proj1 (Forall_forall _ _) Hl line Hin)).
Qed.

Lemma classToken_oneLine (name : jsstring) : classToken name -> oneLine name = true.
Proof.
  intros [Hunits _]. apply oneLine_units. intros c Hc ->.
  pose proof (proj1 (forallb_forall _ _) Hunits 10 Hc) as H. discriminate H.
Qed.

(** The class attribute and the selector are on one line. *)
Lemma getClassName_oneLine (n : node) (cssClass : bool) (className : jsstring) :
  ClassNames.getClassName n cssClass = Ok className -> oneLine className = true.
Proof.
  unfold ClassNames.getClassName.
  destruct (truthy_str (node_name (attrs n))); cbn [negb];
    [|intro H; assert (E : className = []) by congruence; now subst].
  cbv zeta. set (name0 := NameUtils.toKebabCase _).
  match goal with
  | |- bind ?first _ = _ -> _ =>
      assert (Hfirst : forall name1, first = Ok name1 -> kebabShaped name1);
      [|destruct first as [name1|err]; [|discriminate]]
  end.
  { intro name1.
    destruct (ClassNames.isFrameNumber name0 || str_eqb name0 "group"
              || str_eqb name0 "container").
    - destruct (ClassNames.inferSemanticName n) as [[[|c r]|]|err] eqn:E; cbn [bind];
        intro H; inversion H; subst; try (repeat split; reflexivity).
      now apply inferSemanticName_kebab in E.
    - intro H. inversion H. subst. apply toKebabCase_shape. }
  cbn [bind].
  pose proof (classToken_oneLine _
                (finalName_token name1 (node_id (attrs n)) (Hfirst _ eq_refl) _ eq_refl))
    as Htoken.
  intro H.
  match type of H with
  | Ok ?v = _ => assert (E : className = v) by congruence
  end.
  rewrite E. destruct cssClass; rewrite !oneLine_app;
    repeat (apply andb_true_iff; split); try reflexivity; exact Htoken.
Qed.

Lemma mapFigmaTypeToHTML_oneLine (type : option jsstring) :
  oneLine (NodeUtils.mapFigmaTypeToHTML type) = true.
Proof.
  unfold NodeUtils.mapFigmaTypeToHTML. destruct type as [t|]; [|reflexivity].
  cbv zeta. repeat match goal with
                   | |- context [if ?b then _ else _] => destruct b; [reflexivity|]
                   end.
  reflexivity.
Qed.

Lemma sanitizeVariableName_oneLine (name : jsstring) :
  oneLine name = true -> oneLine (NameUtils.sanitizeVariableName name) = true.
Proof.
  intro H. unfold NameUtils.sanitizeVariableName. destruct name as [|c name]; [reflexivity|].
  destruct (mem _ _); [|exact H]. now rewrite oneLine_app, H.
Qed.

Lemma toPascalCase_oneLine (str : jsstring) : oneLine (NameUtils.toPascalCase str) = true.
Proof. apply oneLine_word. apply toPascalCase_word. Qed.

(** The tag, the props and the handlers of an element are on one line. *)
Lemma remap_oneLine (t : JSXTransformer) (interactiveElement : option InteractiveElement)
    (tagName : jsstring) :
  oneLine tagName = true ->
  match interactiveElement with
  | Some el => oneLine (ie_id el) = true
  | None => True
  end ->
  oneLine (fst (fst (remap t interactiveElement tagName))) = true
  /\ forallb oneLine (snd (fst (remap t interactiveElement tagName))) = true
  /\ forallb oneLine (snd (remap t interactiveElement tagName)) = true.
Proof.
  intros Htag Hid. unfold remap.
  destruct interactiveElement as [el|]; [|now repeat split].
  pose proof (toPascalCase_oneLine (ie_id el)) as Hp.
  pose proof (sanitizeVariableName_oneLine _ Hid) as Hs.
  destruct (ie_type el); cbn [fst snd forallb]; repeat split; try exact Htag;
    try (destruct (jsx_useObjectState t));
    rewrite ?oneLine_app, ?Hp, ?Hs; reflexivity.
Qed.

Lemma forallb_kept {A} (f g : A -> bool) (l : list A) :
  forallb f l = true -> forallb f (filter g l) = true.
Proof.
  intro H. apply forallb_forall. intros x Hx. apply filter_In in Hx.
  exact (proj1 (forallb_forall _ _) H x (proj1 Hx)).
Qed.

Lemma spaced_oneLine (s : jsstring) : oneLine s = true -> oneLine (spaced s) = true.
Proof. intro H. unfold spaced. destruct s; [reflexivity|]. now rewrite oneLine_app, H. Qed.

Lemma spacedJoin_oneLine (l : list jsstring) :
  forallb oneLine l = true -> oneLine (spacedJoin l) = true.
Proof.
  intro H. unfold spacedJoin. destruct l as [|x l]; [reflexivity|].
  now rewrite oneLine_app, (oneLine_join " " (x :: l) eq_refl H).
Qed.

Lemma escapeHTML_oneLine (m : node) (text : jsstring) :
  match node_characters (attrs m) with
  | Some (CharsString s) => oneLine s
  | _ => true
  end = true ->
  NodeUtils.escapeHTML (node_characters (attrs m)) = Ok text -> oneLine text = true.
Proof.
  destruct (node_characters (attrs m)) as [[s|x]|]; intros Hs H.
  - exact (oneLine_escaped s text Hs H).
  - unfold NodeUtils.escapeHTML in H. destruct (truthy_num (Some x)); [discriminate|].
    assert (E : text = []) by congruence. now subst.
  - assert (E : text = []) by (cbn in H; congruence). now subst.
Qed.

Lemma inLines_element (depth : nat) (opening inner closing : jsstring) :
  oneLine opening = true -> oneLine closing = true -> inLines depth inner ->
  inLines depth
    (repeat_str "  " depth ++ opening
       ++ (StyleUtils.nl ++ inner ++ StyleUtils.nl ++ repeat_str "  " depth) ++ closing).
Proof.
  intros Ho Hc Hi.
  replace (repeat_str "  " depth ++ opening
             ++ (StyleUtils.nl ++ inner ++ StyleUtils.nl ++ repeat_str "  " depth)
             ++ closing)
    with ((repeat_str "  " depth ++ opening) ++ StyleUtils.nl
            ++ (inner ++ StyleUtils.nl ++ (repeat_str "  " depth ++ closing)))
    by (now rewrite <- !app_assoc).
  apply inLines_glue; [now apply inLines_behind|].
  apply inLines_glue; [exact Hi|now apply inLines_behind].
Qed.

Lemma inLines_wrapped (depth : nat) (wrapper opening inner closing : jsstring) :
  oneLine wrapper = true -> oneLine opening = true -> oneLine closing = true ->
  inLines depth inner ->
  inLines depth
    (repeat_str "  " depth ++ wrapper ++ StyleUtils.nl ++ repeat_str "  " depth ++ opening
       ++ (StyleUtils.nl ++ inner ++ StyleUtils.nl ++ repeat_str "  " depth)
       ++ StyleUtils.nl ++ repeat_str "  " depth ++ closing).
Proof.
  intros Hw Ho Hc Hi.
  replace (repeat_str "  " depth ++ wrapper ++ StyleUtils.nl ++ repeat_str "  " depth
             ++ opening
             ++ (StyleUtils.nl ++ inner ++ StyleUtils.nl ++ repeat_str "  " depth)
             ++ StyleUtils.nl ++ repeat_str "  " depth ++ closing)
    with ((repeat_str "  " depth ++ wrapper) ++ StyleUtils.nl
            ++ ((repeat_str "  " depth ++ opening) ++ StyleUtils.nl
                  ++ (inner ++ StyleUtils.nl
                        ++ ((repeat_str "  " depth ++ []) ++ StyleUtils.nl
                              ++ (repeat_str "  " depth ++ closing)))))
    by (now rewrite app_nil_r, <- !app_assoc).
  repeat (apply inLines_glue; [first [exact Hi|now apply inLines_behind]|]).
  now apply inLines_behind.
Qed.

Lemma singleLined_unfold (n : node) :
  singleLined n
  = match node_characters (attrs n) with
    | Some (CharsString s) => oneLine s
    | _ => true
    end
    && match children n with Some l => forallb singleLined l | None => true end.
Proof. apply forallb_walk. Qed.

Lemma singleLined_child (n child : node) (l : list node) :
  singleLined n = true -> children n = Some l -> In child l -> singleLined child = true.
Proof.
  rewrite singleLined_unfold. intros H Hl Hin. apply andb_true_iff in H.
  destruct H as [_ H]. rewrite Hl in H.
  exact (proj1 (forallb_forall _ _) H child Hin).
Qed.

Ltac returned jsx :=
  let H := fresh "H" in
  let E := fresh "E" in
  intro H;
  match type of H with
  | Ok ?v = Ok _ => assert (E : jsx = v) by congruence
  end;
  rewrite E; clear H E.

(** The element of a node is lines of markup at the depth of the node,
    when the rendering of the children is. *)
Lemma renderElement_inLines (t : JSXTransformer) (n : node) (depth : nat)
    (rendered : result jsstring) (jsx : jsstring) :
  plainNames t = true -> singleLined n = true ->
  (forall childrenText,
     rendered = Ok childrenText ->
     childrenText = []
     \/ exists inner,
          inLines depth inner
          /\ childrenText
             = StyleUtils.nl ++ inner ++ StyleUtils.nl ++ repeat_str "  " depth) ->
  renderElement t n depth rendered = Ok jsx -> inLines depth jsx.
Proof.
  intros Ht Hn Hshape. unfold renderElement. cbv zeta.
  pose proof Hn as Hself. rewrite singleLined_unfold in Hself.
  apply andb_true_iff in Hself. destruct Hself as [Hself _].
  match goal with
  | |- context [remap t ?el ?tag] =>
      assert (Hel : match el with Some e => oneLine (ie_id e) = true | None => True end);
      [|destruct (remap_oneLine t el tag (mapFigmaTypeToHTML_oneLine _) Hel)
          as (Htag & Hprops & Hhandlers);
        destruct (remap t el tag) as [[tagName props] handlers]]
  end.
  { destruct (map_get _ _) as [e|] eqn:E; [|exact I]. apply map_get_In in E.
    apply andb_true_iff in Ht. destruct Ht as [Hi _].
    exact (proj1 (forallb_forall _ _) Hi _ E). }
  cbn [fst snd] in Htag, Hprops, Hhandlers.
  unfold JSXTransformer.getClassName.
  destruct (ClassNames.getClassName n false) as [className|] eqn:Hc; [|discriminate].
  cbn [bind]. pose proof (getClassName_oneLine _ _ _ Hc) as Hclass.
  assert (Hall : oneLine (join " " (filterBoolean (className :: props ++ handlers))) = true).
  { apply oneLine_join; [reflexivity|]. apply forallb_kept. cbn [forallb].
    now rewrite Hclass, forallb_app, Hprops, Hhandlers. }
  destruct (_ && _).
  - destruct (NodeUtils.escapeHTML (node_characters (attrs n))) as [text|] eqn:Htext;
      [|discriminate].
    cbn [bind]. returned jsx. apply inLines_behind.
    now rewrite !oneLine_app, Htag, (spaced_oneLine _ Hall),
      (escapeHTML_oneLine n text Hself Htext).
  - destruct rendered as [childrenText|]; [|discriminate]. cbn [bind].
    specialize (Hshape childrenText eq_refl).
    destruct (NodeUtils.isSelfClosing tagName).
    + destruct (trim childrenText) eqn:Htrim.
      * returned jsx. apply inLines_behind.
        now rewrite !oneLine_app, Htag, (spaced_oneLine _ Hall).
      * destruct Hshape as [->|(inner & Hinner & ->)]; [discriminate Htrim|].
        returned jsx.
        match goal with
        | |- inLines _ ?text =>
            replace text
              with (repeat_str "  " depth ++ ("<div" ++ className ++ ">") ++ StyleUtils.nl
                      ++ repeat_str "  " depth
                      ++ ("  <" ++ tagName ++ spacedJoin props ++ spacedJoin handlers
                            ++ " />")
                      ++ (StyleUtils.nl ++ inner ++ StyleUtils.nl ++ repeat_str "  " depth)
                      ++ StyleUtils.nl ++ repeat_str "  " depth ++ "</div>")
              by (now rewrite <- !app_assoc)
        end.
        apply inLines_wrapped; [| |reflexivity|exact Hinner].
        -- now rewrite !oneLine_app, Hclass.
        -- now rewrite !oneLine_app, Htag, (spacedJoin_oneLine _ Hprops),
             (spacedJoin_oneLine _ Hhandlers).
    + destruct (_ && _ && _); [returned jsx; now apply inLines_one|].
      assert (Husual : inLines depth
                         (repeat_str "  " depth ++ "<" ++ tagName
                            ++ spaced (trim (join " " (filterBoolean
                                                         (className :: props ++ handlers))))
                            ++ ">" ++ childrenText ++ "</" ++ tagName ++ ">")).
      { pose proof (spaced_oneLine _ (oneLine_trim _ Hall)) as Hclean.
        destruct Hshape as [->|(inner & Hinner & ->)].
        - apply inLines_behind. now rewrite !oneLine_app, Htag, Hclean.
        - match goal with
          | |- inLines _ ?text =>
              replace text
                with (repeat_str "  " depth
                        ++ ("<" ++ tagName
                              ++ spaced (trim (join " " (filterBoolean
                                                           (className :: props ++ handlers))))
                              ++ ">")
                        ++ (StyleUtils.nl ++ inner ++ StyleUtils.nl
                              ++ repeat_str "  " depth)
                        ++ ("</" ++ tagName ++ ">"))
                by (now rewrite <- !app_assoc)
          end.
          apply inLines_element; [| |exact Hinner].
          + now rewrite !oneLine_app, Htag, Hclean.
          + now rewrite !oneLine_app, Htag. }
      destruct (children n) as [[|only [|second rest]]|] eqn:Hcs;
        try (returned jsx; exact Husual).
      destruct (_ && _ && _ && _); [|returned jsx; exact Husual].
      destruct (NodeUtils.escapeHTML (node_characters (attrs only))) as [text|] eqn:Htext;
        [|discriminate].
      cbn [bind]. returned jsx. apply inLines_behind.
      pose proof (singleLined_child n only _ Hn Hcs (or_introl eq_refl)) as Honly.
      rewrite singleLined_unfold in Honly. apply andb_true_iff in Honly.
      exact (escapeHTML_oneLine only text (proj1 Honly) Htext).
Qed.

Lemma componentTag_inLines (n : node) (depth : nat) (componentName jsx : jsstring) :
  oneLine componentName = true -> componentTag n depth componentName = Ok jsx ->
  inLines depth jsx.
Proof.
  intro Hname. unfold componentTag, getComponentProps, JSXTransformer.getClassName.
  destruct (ClassNames.getClassName n false) as [className|] eqn:Hc; [|discriminate].
  cbn [bind]. pose proof (oneLine_trim _ (getClassName_oneLine _ _ _ Hc)) as Hclass.
  returned jsx. apply inLines_behind.
  destruct className as [|c className]; rewrite !oneLine_app, Hname; [reflexivity|].
  cbn [join]. now rewrite Hclass.
Qed.

Lemma mapM_Forall {A B} (f : A -> result B) (P : B -> Prop) (l : list A) :
  Forall (fun x => forall y, f x = Ok y -> P y) l ->
  forall ys, mapM f l = Ok ys -> Forall P ys /\ (l = [] <-> ys = []).
Proof.
  induction 1 as [|x l Hx Hl IH]; cbn [mapM]; intros ys H.
  - assert (E : ys = []) by congruence. subst. now repeat split.
  - destruct (f x) as [y|] eqn:Hy; [|discriminate]. cbn [bind] in H.
    destruct (mapM f l) as [ys'|]; [|discriminate]. cbn [bind] in H.
    assert (E : ys = y :: ys') by congruence. subst.
    split; [|split; discriminate].
    constructor; [now apply Hx|]. now apply (IH ys').
Qed.

(** The markup of a node is lines of markup at the depth of the node. *)
Lemma transform_inLines (t : JSXTransformer) (cur : jsstring) (n : node) :
  plainNames t = true -> singleLined n = true ->
  forall depth jsx, transform t n depth cur = Ok jsx -> inLines depth jsx.
Proof.
  intro Ht.
  assert (Hrender : forall m depth rendered jsx,
            singleLined m = true ->
            (forall childrenText,
               rendered = Ok childrenText ->
               childrenText = []
               \/ exists inner,
                    inLines depth inner
                    /\ childrenText
                       = StyleUtils.nl ++ inner ++ StyleUtils.nl ++ repeat_str "  " depth) ->
            match map_get (jsx_components t) (node_id (attrs m)) with
            | Some componentInfo =>
                if str_eqb (ci_name componentInfo) cur
                then renderElement t m depth rendered
                else componentTag m depth (ci_name componentInfo)
            | None => renderElement t m depth rendered
            end = Ok jsx ->
            inLines depth jsx).
  { intros m depth rendered jsx Hm Hshape.
    destruct (map_get _ _) as [info|] eqn:Hinfo; [destruct (str_eqb _ _)|];
      try (now apply renderElement_inLines).
    apply componentTag_inLines. apply map_get_In in Hinfo.
    apply andb_true_iff in Ht. destruct Ht as [_ Hnames].
    exact (proj1 (forallb_forall _ _) Hnames _ Hinfo). }
  induction n as [a|a l IH] using node_induction; intros Hn depth jsx;
    rewrite transform_unfold; unfold transformBody; cbv zeta.
  - apply (Hrender (Node a None)); [exact Hn|]. intros childrenText H. left. congruence.
  - match goal with
    | |- context [renderElement t _ depth ?r] =>
        assert (Hshape : forall childrenText,
                  r = Ok childrenText ->
                  childrenText = []
                  \/ exists inner,
                       inLines depth inner
                       /\ childrenText
                          = StyleUtils.nl ++ inner ++ StyleUtils.nl
                              ++ repeat_str "  " depth);
        [|revert Hshape; generalize r; intros rendered Hshape]
    end.
    { destruct l as [|c l']; [intros childrenText H; left; congruence|].
      destruct (mapM _ (c :: l')) as [parts|] eqn:Hparts; [|discriminate].
      cbn [bind]. intros childrenText H. right. exists (join StyleUtils.nl parts).
      split; [|congruence].
      destruct (mapM_Forall (fun child => transform t child (S depth) cur)
                  (inLines depth) (c :: l')) with (ys := parts)
        as [Hlines Hempty]; [|exact Hparts|].
      - apply Forall_forall. intros child Hin part Hpart. apply inLines_deeper.
        apply (proj1 (Forall_forall _ _) IH child Hin
                 (singleLined_child _ child _ Hn eq_refl Hin) (S depth) part Hpart).
      - apply inLines_join; [|exact Hlines].
        intro E. apply Hempty in E. discriminate E. }
    assert (Hskip : forall only, l = [only] ->
              transform t only depth cur = Ok jsx -> inLines depth jsx).
    { intros only ->. inversion IH as [|? ? Honly _]. subst. apply Honly.
      exact (singleLined_child _ only _ Hn eq_refl (or_introl eq_refl)). }
    destruct l as [|only [|second rest]];
      [|destruct (shouldSkipNode t _); [now apply Hskip|]|];
      match goal with
      | |- context [renderElement t ?m _ _] => now apply (Hrender m)
      end.
Qed.

(** X29. Every line of the markup [transform] returns for a node at a
    depth is empty or begins with the indentation of the depth, two spaces
    for each level, when the text of every text node is on one line and so
    are the identifiers and the component names of the transformer. *)
Theorem transform_indents_every_line (t : JSXTransformer) (cur : jsstring) (n : node)
    (depth : nat) (jsx : jsstring) :
  plainNames t = true -> singleLined n = true ->
  transform t n depth cur = Ok jsx ->
  forallb (indentedLine depth) (split 10 jsx) = true.
Proof.
  intros Ht Hn H. apply inLines_split. exact (transform_inLines t cur n Ht Hn depth jsx H).
Qed.

End Indentation.

Lemma transform_indents_every_line_witness :
  let t := @CodeGenerator.newTransformer
             (@CodeGenerator.enterRoot Reference.runtime
                (CodeGenerator.constructor None true true None) Samples.pageWithCardFrame) in
  plainNames t = true
  /\ singleLined Samples.pageWithCardFrame = true
  /\ exists jsx,
       @JSXTransformer.transform Reference.runtime t Samples.pageWithCardFrame 1 "App"
       = Ok jsx
       /\ forallb (indentedLine 1) (split 10 jsx) = true.
Proof.
  intro t.
  assert (Ht : plainNames t = true) by (vm_compute; reflexivity).
  assert (Hn : singleLined Samples.pageWithCardFrame = true) by (vm_compute; reflexivity).
  split; [exact Ht|]. split; [exact Hn|].
  destruct (@JSXTransformer.transform Reference.runtime t Samples.pageWithCardFrame 1 "App")
    as [jsx|e] eqn:E; [|vm_compute in E; discriminate E].
  exists jsx. split; [reflexivity|].
  exact (@transform_indents_every_line Reference.runtime t "App"
           Samples.pageWithCardFrame 1 jsx Ht Hn E).
Defined.

(* ------------------------------------------------------------------ *)
(** *** The markup the generator derives *)
(* ------------------------------------------------------------------ *)

Section Pipeline.
Context {rt : Runtime}.
Import InteractiveElementAnalyzer ComponentAnalyzer JSXTransformer CodeGenerator.

Lemma identifier_oneLine (a : Attrs) (fallback : jsstring) :
  oneLine (identifier a fallback) = true.
Proof.
  unfold identifier. apply sanitizeVariableName_oneLine, oneLine_word, toCamelCase_word.
Qed.

(** The identifiers [analyze] registers are on one line. *)
Lemma analyze_oneLine (n : node) (c : Collections) :
  Forall (fun entry => oneLine (ie_id (snd entry)) = true)
         (InteractiveElementAnalyzer.interactiveElements c) ->
  Forall (fun entry => oneLine (ie_id (snd entry)) = true)
         (InteractiveElementAnalyzer.interactiveElements (analyze n c)).
Proof.
  revert n c.
  apply (analyze_keeps
           (fun c => Forall (fun entry => oneLine (ie_id (snd entry)) = true)
                            (InteractiveElementAnalyzer.interactiveElements c))).
  intros a c H. unfold analyzeOne. cbv zeta.
  repeat match goal with
         | |- context [if ?b then _ else _] => destruct b
         end;
    cbn [InteractiveElementAnalyzer.interactiveElements];
    repeat (apply (map_set_Forall (fun el => oneLine (ie_id el) = true));
            [|apply identifier_oneLine]);
    exact H.
Qed.

Lemma identifyComponents_elements (g : CodeGenerator) (n : node) (parentId : ParentId) :
  interactiveElements (context (identifyComponents g n parentId))
  = interactiveElements (context g).
Proof. unfold identifyComponents. now destruct (identify n 0 parentId _). Qed.

Lemma Forall_forallb {A} (f : A -> bool) (l : list A) :
  Forall (fun x => f x = true) l -> forallb f l = true.
Proof. intro H. apply forallb_forall. now apply Forall_forall. Qed.

Lemma wellNamed_oneLine (name : jsstring) : wellNamed name -> oneLine name = true.
Proof. intros (_ & Hw & _). now apply oneLine_word. Qed.

(** The transformer of the root unit writes one-line identifiers and names. *)
Lemma enterRoot_plainNames (g : CodeGenerator) (processedData : node) :
  plainNames (newTransformer (enterRoot g processedData)) = true.
Proof.
  unfold plainNames, newTransformer. cbn [jsx_interactiveElements jsx_components].
  apply andb_true_iff. split; apply Forall_forallb.
  - unfold enterRoot. cbn [withTransformer context].
    assert (H : Forall (fun entry => oneLine (ie_id (snd entry)) = true)
                  (interactiveElements
                     (context (analyzeInteractiveElements (resetState g) processedData)))).
    { unfold analyzeInteractiveElements. cbn [withContext context interactiveElements].
      apply analyze_oneLine. constructor. }
    destruct (componentize _); [now rewrite identifyComponents_elements|exact H].
  - apply (enterRoot_Forall (fun info => oneLine (ci_name info) = true)).
    intros m name parent _ Hname. now apply wellNamed_oneLine.
Qed.

(** So does the transformer of a sub-component. *)
Lemma enterSubComponent_plainNames (g : CodeGenerator) (componentInfo : ComponentInfo) :
  plainNames (newTransformer (enterSubComponent g componentInfo)) = true.
Proof.
  unfold plainNames, newTransformer. cbn [jsx_interactiveElements jsx_components].
  apply andb_true_iff. split; apply Forall_forallb.
  - unfold enterSubComponent.
    cbn [withTransformer setUseObjectState withContext context interactiveElements].
    assert (H : Forall (fun entry => oneLine (ie_id (snd entry)) = true)
                  (interactiveElements
                     (context (analyzeInteractiveElements (resetState g)
                                 (ci_node componentInfo))))).
    { unfold analyzeInteractiveElements. cbn [withContext context interactiveElements].
      apply analyze_oneLine. constructor. }
    destruct (componentize _); [now rewrite identifyComponents_elements|exact H].
  - apply (enterSubComponent_Forall (fun info => oneLine (ci_name info) = true)).
    intros m name parent _ Hname. now apply wellNamed_oneLine.
Qed.

(** X30. When the text of every text node of the document is on one line,
    every line of the markup [generateReact] derives for the root unit is
    empty or indented by one level at least, and so is the markup
    [generateSubComponent] derives for a sub-component: the identifiers
    [analyze] registers and the names [identify] gives hold no line feed,
    and the normalization keeps the text of the nodes. *)
Theorem generated_markup_is_indented (g : CodeGenerator) :
  (forall doc jsx,
     singleLined doc = true ->
     let processedData := NodeUtils.preprocessObject doc None in
     transform (newTransformer (enterRoot g processedData)) processedData 1
               (rootName g processedData) = Ok jsx ->
     forallb (indentedLine 1) (split 10 jsx) = true)
  /\ (forall componentInfo subComponentName subJsx,
        singleLined (ci_node componentInfo) = true ->
        transform (newTransformer (enterSubComponent g componentInfo))
                  (ci_node componentInfo) 1 subComponentName = Ok subJsx ->
        forallb (indentedLine 1) (split 10 subJsx) = true).
Proof.
  split.
  - intros doc jsx Hdoc processedData H. apply inLines_split.
    apply (transform_inLines _ (rootName g processedData) processedData
             (enterRoot_plainNames g processedData)) with (depth := 1%nat);
      [|exact H].
    exact (preprocessObject_characters
             (fun chars => match chars with
                           | Some (CharsString s) => oneLine s
                           | _ => true
                           end) doc Hdoc None).
  - intros componentInfo subComponentName subJsx Hnode H. apply inLines_split.
    exact (transform_inLines _ subComponentName _
             (enterSubComponent_plainNames g componentInfo) Hnode 1 subJsx H).
Qed.

End Pipeline.

Lemma generated_markup_is_indented_witness :
  let g := CodeGenerator.constructor None true true None in
  let processedData := NodeUtils.preprocessObject Samples.pageWithCardFrame None in
  singleLined Samples.pageWithCardFrame = true
  /\ exists jsx,
       @JSXTransformer.transform Reference.runtime
         (@CodeGenerator.newTransformer
            (@CodeGenerator.enterRoot Reference.runtime g processedData))
         processedData 1 (CodeGenerator.rootName g processedData) = Ok jsx
       /\ forallb (indentedLine 1) (split 10 jsx) = true.
Proof.
  intros g processedData.
  assert (Hn : singleLined Samples.pageWithCardFrame = true) by (vm_compute; reflexivity).
  split; [exact Hn|].
  destruct (@JSXTransformer.transform Reference.runtime
              (@CodeGenerator.newTransformer
                 (@CodeGenerator.enterRoot Reference.runtime g processedData))
              processedData 1 (CodeGenerator.rootName g processedData))
    as [jsx|e] eqn:E; [|vm_compute in E; discriminate E].
  exists jsx. split; [reflexivity|].
  exact (proj1 (@generated_markup_is_indented Reference.runtime g)
           Samples.pageWithCardFrame jsx Hn E).
Defined.
